(** * Property AI web client: the client-side logic of [App.tsx] and [lib/api.ts]

    The development embeds the pure and the state-passing parts of the React
    front end: category normalisation, upload validation, the timeline
    pipeline (sort, filter, current/archive split, grouping by date), the
    HTTP wrapper [apiCall], the chat handler [askChat], the document list and
    the effects that mirror component state into [localStorage].

    Conventions.  JavaScript numbers that the code only ever uses as integers
    (ids, sizes, HTTP status codes, millisecond timestamps, priorities) are
    [Z]; where the code tests such a number for [NaN] it is a [number], with
    [None] for [NaN]; free-floating numbers (scores, amounts, JSON numbers) are
    binary64 [float]s.  Objects that the code compares by identity (timeline
    items put into a [Set]) are references into a heap.  What the browser
    supplies (string case mapping, collation, the [Date] and [JSON] built-ins,
    the clock) is the interface [Runtime]; every theorem holds for every
    implementation of it. *)

From Stdlib Require Import ZArith Bool Floats Ascii.
From stdpp Require Import base option list gmap strings pretty sorting.

#[local] Set Warnings "-register-all".
Local Open Scope Z_scope.

(** ** JavaScript values *)

(** A number that is an integer or [NaN]. *)
Definition number := option Z.

(** [a !== b] on such numbers: [NaN] differs from everything, itself included. *)
Definition strict_ne (a b : number) : bool :=
  match a, b with
  | Some x, Some y => negb (x =? y)
  | _, _ => true
  end.

(** [a - b]: [NaN] as soon as one operand is. *)
Definition minus (a b : number) : number :=
  match a, b with
  | Some x, Some y => Some (x - y)
  | _, _ => None
  end.

(** [s || d] on strings: the empty string is the only falsy string. *)
Definition or_else (s d : string) : string :=
  if String.eqb s "" then d else s.

(** [o || d] where [o] may be [undefined] or [null]. *)
Definition opt_or_else (o : option string) (d : string) : string :=
  match o with
  | Some s => or_else s d
  | None => d
  end.

(** [s.endsWith(suffix)] *)
Definition endsWith (s suffix : string) : bool :=
  let n := String.length s in
  let m := String.length suffix in
  (m <=? n)%nat && String.eqb (String.substring (n - m) m s) suffix.

(** [s.includes(q)] *)
Fixpoint includes (s q : string) : bool :=
  String.prefix q s ||
  match s with
  | EmptyString => false
  | String _ s' => includes s' q
  end.

(** What [JSON.parse] returns. *)
Inductive json :=
| JNull
| JBool (b : bool)
| JNum (x : float)
| JStr (s : string)
| JArr (items : list json)
| JObj (fields : list (string * json)).

(** The settled state of a promise, or the result of code that may throw. *)
Inductive outcome (A E : Type) :=
| Fulfilled (a : A)
| Rejected (e : E).
Arguments Fulfilled {A E} a.
Arguments Rejected {A E} e.

(** ** The DTOs of [types.ts] *)

Inductive UiState := ui_idle | ui_loading | ui_success | ui_error.

Module Source.
Record t := {
  document_id : Z;
  property_id : option Z;
  chunk_id : string;
  page : option Z;
  score : option float
}.
End Source.

Module DocumentItem.
Record t := {
  document_id : Z;
  property_id : Z;
  filename : string;
  uploaded_at : option string
}.
End DocumentItem.

Inductive DocumentStatus := doc_indexed | doc_processing | doc_error.

Inductive Role := role_user | role_assistant.

Module ChatMessage.
Record t := {
  id : string;
  role : Role;
  text : string;
  sources : option (list Source.t);
  sourceDetails : option (gmap string string)
}.
End ChatMessage.

Module TimelineItem.
Record t := {
  document_id : option Z;
  filename : option string;
  source : option string;
  source_quote : option string;
  title : string;
  date_iso : string;
  time_24h : option string;
  category : string;
  amount_eur : option float;
  description : string
}.
End TimelineItem.

Inductive ToastType := toast_success | toast_error | toast_warning.

Module Toast.
Record t := {
  id : string;
  type : ToastType;
  title : string;
  details : option string
}.
End Toast.

(** The browser's [File]: the three properties the upload code reads. *)
Module File.
Record t := {
  name : string;
  type : string;
  size : Z
}.
End File.

(** ** The browser interface *)

Class Runtime := {
  (** [String.prototype.toLowerCase] and [String.prototype.trim] *)
  toLowerCase : string → string;
  trim : string → string;
  (** [a.localeCompare(b)]: negative, zero or positive *)
  localeCompare : string → string → Z;
  (** [new Date(s).getTime()]: a millisecond timestamp, or [NaN] *)
  Date_getTime : string → number;
  (** [d.setHours(0, 0, 0, 0)] and [d.setDate(d.getDate() + n)], on timestamps *)
  startOfDay : Z → Z;
  addDays : Z → Z → Z;
  (** [JSON.parse]; [None] when it throws a [SyntaxError] *)
  JSON_parse : string → option json;
  (** [String(v)] for a value that is not a string *)
  stringify_value : json → string;
  (** [Number(s)] when the result is finite and, as every id is, an integer *)
  Number_finite : string → option Z;
  (** [JSON.stringify] and [JSON.parse] followed by [Array.isArray], at the
      type [ChatMessage[]] of the chat history *)
  JSON_stringify_history : list ChatMessage.t → string;
  JSON_parse_history : string → option (list ChatMessage.t);
  (** what the [n]-th call of [uuid()] returns, from the clock and
      [Math.random] *)
  uuid_value : nat → string;
  (** the build-time setting [import.meta.env.VITE_API_BASE_URL] *)
  VITE_API_BASE_URL : option string
}.

(** ** Categories ([App.tsx], [normalizeCategory] and [timelinePriority]) *)

Definition categories : list string :=
  ["meeting"; "payment"; "deadline"; "info"; "tax"].

Definition normalizeCategory (category : string) : string :=
  if existsb (String.eqb category) categories then category else "info".

Definition timelinePriority (category : string) : Z :=
  let normalized := normalizeCategory category in
  if String.eqb normalized "deadline" then 0
  else if String.eqb normalized "payment" then 1
  else if String.eqb normalized "meeting" then 2
  else if String.eqb normalized "info" then 3
  else 4.

(** ** Upload validation ([App.tsx], [validateFiles]) *)

Definition MAX_FILE_SIZE : Z := 20 * 1024 * 1024.

Definition zipTypes : list string :=
  ["application/zip"; "application/x-zip-compressed"].

Section upload.
Context `{!Runtime}.

Definition isPdfType (file : File.t) : bool :=
  String.eqb (File.type file) "application/pdf".
Definition hasPdfExt (file : File.t) : bool :=
  endsWith (toLowerCase (File.name file)) ".pdf".
Definition isZipType (file : File.t) : bool :=
  existsb (String.eqb (File.type file)) zipTypes.
Definition hasZipExt (file : File.t) : bool :=
  endsWith (toLowerCase (File.name file)) ".zip".

Definition wrongTypeMessage (file : File.t) : string :=
  File.name file +:+ ": nur PDF- oder ZIP-Dateien sind erlaubt.".
Definition tooLargeMessage (file : File.t) : string :=
  File.name file +:+ ": Datei ist größer als 20 MB.".

Record Validation := {
  valid : list File.t;
  errors : list string
}.

(** One turn of the [for] loop: either branch ends in [continue]. *)
Definition validateFiles_step (acc : Validation) (file : File.t) : Validation :=
  if (negb (isPdfType file) && negb (hasPdfExt file)) &&
     (negb (isZipType file) && negb (hasZipExt file))
  then {| valid := valid acc; errors := errors acc ++ [wrongTypeMessage file] |}
  else if MAX_FILE_SIZE <? File.size file
  then {| valid := valid acc; errors := errors acc ++ [tooLargeMessage file] |}
  else {| valid := valid acc ++ [file]; errors := errors acc |}.

Definition validateFiles (files : list File.t) : Validation :=
  fold_left validateFiles_step files {| valid := []; errors := [] |}.

End upload.

(** ** [Array.prototype.sort]

    ECMAScript asks for a stable sort and reads the comparator through
    [SortCompare], where a [NaN] result counts as [+0].  For a consistent
    comparator the result is the stable sorted permutation, which the
    insertion sort below computes; for an inconsistent one the standard
    leaves the order to the engine, and the model is one such engine. *)

Section array_sort.
Context {A : Type} (comparefn : A → A → number).

Definition SortCompare (x y : A) : Z := default 0 (comparefn x y).

Fixpoint sort_insert (x : A) (sorted : list A) : list A :=
  match sorted with
  | [] => [x]
  | y :: rest =>
      if SortCompare x y <=? 0 then x :: y :: rest
      else y :: sort_insert x rest
  end.

Definition Array_sort (l : list A) : list A := foldr sort_insert [] l.

End array_sort.

(** ** An insertion-ordered [Map] with string keys *)

Section js_map.
Context {V : Type}.

Definition Map_has (key : string) (m : list (string * V)) : bool :=
  existsb (λ kv, String.eqb (fst kv) key) m.

Fixpoint Map_get (key : string) (m : list (string * V)) : option V :=
  match m with
  | [] => None
  | (k, v) :: rest => if String.eqb k key then Some v else Map_get key rest
  end.

(** [map.set(key, v)]: an existing key keeps its place, a new one goes last. *)
Fixpoint Map_set (key : string) (v : V) (m : list (string * V)) : list (string * V) :=
  match m with
  | [] => [(key, v)]
  | (k, w) :: rest =>
      if String.eqb k key then (k, v) :: rest else (k, w) :: Map_set key v rest
  end.

(** An in-place update of the value stored under [key], as
    [map.get(key).push(x)] does to the stored array. *)
Fixpoint Map_update (key : string) (f : V → V) (m : list (string * V)) : list (string * V) :=
  match m with
  | [] => []
  | (k, w) :: rest =>
      if String.eqb k key then (k, f w) :: rest else (k, w) :: Map_update key f rest
  end.

End js_map.

(** ** The timeline pipeline ([App.tsx]) *)

(** A timeline item is an object; arrays, the [Set] and the [Map] hold
    references to it. *)
Definition ref := nat.

Section timeline.
Context `{!Runtime}.
Context (heap : ref → TimelineItem.t).

(** The comparator of [filteredTimeline]: priority, then date, then time. *)
Definition compareItems (a b : ref) : number :=
  let pa := timelinePriority (or_else (TimelineItem.category (heap a)) "info") in
  let pb := timelinePriority (or_else (TimelineItem.category (heap b)) "info") in
  if negb (pa =? pb) then Some (pa - pb)
  else
    let da := Date_getTime (TimelineItem.date_iso (heap a)) in
    let db := Date_getTime (TimelineItem.date_iso (heap b)) in
    if strict_ne da db then minus da db
    else Some (localeCompare (opt_or_else (TimelineItem.time_24h (heap a)) "99:99")
                             (opt_or_else (TimelineItem.time_24h (heap b)) "99:99")).

(** The filter of [filteredTimeline]: the chosen category and the search text. *)
Definition matchesFilter (timelineCategory timelineSearch : string) (item : ref) : bool :=
  let category := normalizeCategory (TimelineItem.category (heap item)) in
  if negb (String.eqb timelineCategory "") && negb (String.eqb category timelineCategory)
  then false
  else
    let q := toLowerCase (trim timelineSearch) in
    if String.eqb q "" then true
    else includes
           (toLowerCase (or_else (TimelineItem.title (heap item)) "" +:+ " " +:+
                         or_else (TimelineItem.description (heap item)) ""))
           q.

Definition filteredTimeline
    (timelineItems : list ref) (timelineCategory timelineSearch : string) : list ref :=
  let sorted := Array_sort compareItems timelineItems in
  filter (λ item, matchesFilter timelineCategory timelineSearch item) sorted.

(** The first version of the component sorts by date before priority and
    knows four categories only. *)
Definition normalizeCategory_legacy (category : string) : string :=
  if existsb (String.eqb category) ["meeting"; "payment"; "deadline"; "info"]
  then category else "info".

Definition timelinePriority_legacy (category : string) : Z :=
  let normalized := normalizeCategory_legacy category in
  if String.eqb normalized "deadline" then 0
  else if String.eqb normalized "payment" then 1
  else if String.eqb normalized "meeting" then 2
  else 3.

Definition compareItems_legacy (a b : ref) : number :=
  let da := Date_getTime (TimelineItem.date_iso (heap a)) in
  let db := Date_getTime (TimelineItem.date_iso (heap b)) in
  if strict_ne da db then minus da db
  else
    let pa := timelinePriority_legacy (or_else (TimelineItem.category (heap a)) "info") in
    let pb := timelinePriority_legacy (or_else (TimelineItem.category (heap b)) "info") in
    if negb (pa =? pb) then Some (pa - pb)
    else Some (localeCompare (opt_or_else (TimelineItem.time_24h (heap a)) "99:99")
                             (opt_or_else (TimelineItem.time_24h (heap b)) "99:99")).

Definition matchesFilter_legacy (timelineCategory timelineSearch : string) (item : ref) : bool :=
  let category := normalizeCategory_legacy (TimelineItem.category (heap item)) in
  if negb (String.eqb timelineCategory "") && negb (String.eqb category timelineCategory)
  then false
  else
    let q := toLowerCase (trim timelineSearch) in
    if String.eqb q "" then true
    else includes
           (toLowerCase (or_else (TimelineItem.title (heap item)) "" +:+ " " +:+
                         or_else (TimelineItem.description (heap item)) ""))
           q.

Definition filteredTimeline_legacy
    (timelineItems : list ref) (timelineCategory timelineSearch : string) : list ref :=
  let sorted := Array_sort compareItems_legacy timelineItems in
  filter (λ item, matchesFilter_legacy timelineCategory timelineSearch item) sorted.

(** [timelineCurrentItems]: [now] is the reading of the clock by [new Date()]. *)
Definition isCurrent (now : Z) (item : ref) : bool :=
  let start := startOfDay now in
  let next60 := addDays start 60 in
  let last14 := addDays start (-14) in
  let infoNearFuture := addDays start 7 in
  match Date_getTime (TimelineItem.date_iso (heap item)) with
  | None => false
  | Some dt =>
      let category := normalizeCategory (or_else (TimelineItem.category (heap item)) "info") in
      let isInfo := String.eqb category "info" in
      let isUpcomingNonInfo := negb isInfo && (start <=? dt) in
      let isDeadlineOrPaymentSoon :=
        (String.eqb category "deadline" || String.eqb category "payment")
        && (start <=? dt) && (dt <=? next60) in
      let isRecentlyRelevant := (dt <? start) && (last14 <=? dt) in
      let isInfoNearFuture := isInfo && (start <=? dt) && (dt <=? infoNearFuture) in
      if isInfo then isInfoNearFuture || isRecentlyRelevant
      else isUpcomingNonInfo || isDeadlineOrPaymentSoon || isRecentlyRelevant
  end.

Definition timelineCurrentItems (now : Z) (filtered : list ref) : list ref :=
  filter (λ item, isCurrent now item) filtered.

(** [timelineArchiveItems]: the [Set] holds references, [has] compares them. *)
Definition timelineArchiveItems (filtered current : list ref) : list ref :=
  let currentSet : gset ref := list_to_set current in
  filter (λ item, item ∉ currentSet) filtered.

(** [groupTimelineByDate] *)
Definition groupKey (item : ref) : string :=
  or_else (TimelineItem.date_iso (heap item)) "Unbekannt".

Definition groupTimeline_step (map : list (string * list ref)) (item : ref)
    : list (string * list ref) :=
  let key := groupKey item in
  let map := if negb (Map_has key map) then Map_set key [] map else map in
  Map_update key (λ group, group ++ [item]) map.

Definition groupTimelineByDate (items : list ref) : list (string * list ref) :=
  fold_left groupTimeline_step items [].

End timeline.

(** ** The HTTP wrapper ([lib/api.ts]) *)

Module ApiError.
Record t := {
  message : string;
  status : option Z;
  isTimeout : bool;
  latencyMs : option Z
}.
End ApiError.

(** What a [catch] clause can receive. *)
Inductive thrown :=
| ThrownApiError (e : ApiError.t)
    (** an instance of [ApiError]; its [name] is ["ApiError"] *)
| ThrownError (name message : string)
    (** any other [Error]: a [TypeError], a [DOMException], ... *)
| ThrownValue (name message : option string).
    (** a value that is no [Error], with its [name] and [message] if any *)

Definition thrown_name (e : thrown) : option string :=
  match e with
  | ThrownApiError _ => Some "ApiError"
  | ThrownError name _ => Some name
  | ThrownValue name _ => name
  end.

Definition thrown_message (e : thrown) : option string :=
  match e with
  | ThrownApiError a => Some (ApiError.message a)
  | ThrownError _ message => Some message
  | ThrownValue _ message => message
  end.

(** The rejection of an aborted [fetch]. *)
Definition AbortError : thrown :=
  ThrownError "AbortError" "The operation was aborted.".

(** An [AbortSignal], by the time in milliseconds after the start of the call
    at which it fires, if it ever does. *)
Definition AbortSignal := option Z.

Definition aborted (signal : AbortSignal) (t : Z) : bool :=
  match signal with
  | Some a => a <=? t
  | None => false
  end.

Definition abort_time (signal : AbortSignal) : Z :=
  Z.max 0 (default 0 signal).

(** A settled promise together with the time at which it settled. *)
Definition timed (A : Type) : Type := Z * outcome A thrown.

Module Response.
Record t := {
  ok : bool;
  status : Z;
  text : timed string
}.
End Response.

(** What the network does with one request, signals aside: when and how the
    head of the response arrives, and when and how the body is read. *)
Record Exchange := {
  head_at : Z;
  head : outcome (bool * Z) thrown;
  body_at : Z;
  body : outcome string thrown
}.

(** [fetch(url, { signal })]: an abort that fires while the head or the body is
    pending rejects that promise with an [AbortError]. *)
Definition fetch (signal : AbortSignal) (x : Exchange) : timed Response.t :=
  if aborted signal (head_at x) then (abort_time signal, Rejected AbortError)
  else
    match head x with
    | Rejected e => (head_at x, Rejected e)
    | Fulfilled (ok, status) =>
        (head_at x,
         Fulfilled {| Response.ok := ok;
                      Response.status := status;
                      Response.text :=
                        if aborted signal (body_at x)
                        then (abort_time signal, Rejected AbortError)
                        else (body_at x, body x) |})
    end.

Module ApiCallOptions.
Record t := {
  timeoutMs : option Z;
  signal : option AbortSignal
}.
End ApiCallOptions.

Module ApiResult.
Record t := {
  data : json;
  latencyMs : Z;
  status : Z
}.
End ApiResult.

(** Truthiness of a value that may be [undefined]. *)
Definition truthy (v : option json) : bool :=
  match v with
  | None | Some JNull => false
  | Some (JBool b) => b
  | Some (JNum x) => negb (PrimFloat.eqb x 0 || PrimFloat.is_nan x)
  | Some (JStr s) => negb (String.eqb s "")
  | Some (JArr _) | Some (JObj _) => true
  end.

(** [v.key]: reading a property of [null] throws; primitives and arrays have
    none of the properties read here. *)
Definition getProperty (v : json) (key : string) : outcome (option json) thrown :=
  match v with
  | JNull =>
      Rejected (ThrownError "TypeError"
                  ("Cannot read properties of null (reading '" +:+ key +:+ "')"))
  | JObj fields => Fulfilled (Map_get key fields)
  | _ => Fulfilled None
  end.

(** The [TypeError] of reading the property [key] of [null]. *)
Definition readOfNull (key : string) : thrown :=
  ThrownError "TypeError"
    ("Cannot read properties of null (reading '" +:+ key +:+ "')").

Section api.
Context `{!Runtime}.

Definition ToString (v : json) : string :=
  match v with
  | JStr s => s
  | _ => stringify_value v
  end.

Definition parseResponse (raw : string) : json :=
  if String.eqb raw "" then JObj []
  else match JSON_parse raw with
       | Some v => v
       | None => JObj [("raw", JStr raw)]
       end.

(** [body.detail || body.error || body.raw || `HTTP ${status}`], as the
    message of the new [ApiError]. *)
Definition failureMessage (body : json) (status : Z) : outcome string thrown :=
  match getProperty body "detail" with
  | Rejected e => Rejected e
  | Fulfilled detail =>
      if truthy detail then Fulfilled (from_option ToString "" detail)
      else
        match getProperty body "error" with
        | Rejected e => Rejected e
        | Fulfilled err =>
            if truthy err then Fulfilled (from_option ToString "" err)
            else
              match getProperty body "raw" with
              | Rejected e => Rejected e
              | Fulfilled raw =>
                  if truthy raw then Fulfilled (from_option ToString "" raw)
                  else Fulfilled ("HTTP " +:+ pretty status)
              end
        end
  end.

(** [Math.max(1, Math.round(performance.now() - startedAt))] *)
Definition latency (elapsed : Z) : Z := Z.max 1 elapsed.

(** The [try] block, with the time at which it completes or throws. *)
Definition apiCall_try (signal : AbortSignal) (x : Exchange) : timed ApiResult.t :=
  match fetch signal x with
  | (t, Rejected e) => (t, Rejected e)
  | (_, Fulfilled resp) =>
      match Response.text resp with
      | (t, Rejected e) => (t, Rejected e)
      | (t, Fulfilled raw) =>
          let body := parseResponse raw in
          let latencyMs := latency t in
          if negb (Response.ok resp) then
            match failureMessage body (Response.status resp) with
            | Rejected e => (t, Rejected e)
            | Fulfilled message =>
                (t, Rejected (ThrownApiError
                       {| ApiError.message := message;
                          ApiError.status := Some (Response.status resp);
                          ApiError.isTimeout := false;
                          ApiError.latencyMs := Some latencyMs |}))
            end
          else
            (t, Fulfilled {| ApiResult.data := body;
                             ApiResult.latencyMs := latencyMs;
                             ApiResult.status := Response.status resp |})
      end
  end.

(** The [catch] block: what is thrown instead of [error]. *)
Definition apiCall_catch (elapsed : Z) (error : thrown) : thrown :=
  let latencyMs := latency elapsed in
  if bool_decide (thrown_name error = Some "AbortError") then
    ThrownApiError
      {| ApiError.message := "Zeitüberschreitung der Anfrage. Bitte erneut versuchen.";
         ApiError.status := None;
         ApiError.isTimeout := true;
         ApiError.latencyMs := Some latencyMs |}
  else
    match error with
    | ThrownApiError _ => error
    | _ =>
        ThrownApiError
          {| ApiError.message := opt_or_else (thrown_message error) "Netzwerkfehler";
             ApiError.status := None;
             ApiError.isTimeout := false;
             ApiError.latencyMs := Some latencyMs |}
    end.

(** The delay of the timer that aborts the controller. *)
Definition effective_timeout (options : ApiCallOptions.t) : Z :=
  default 15000 (ApiCallOptions.timeoutMs options).

(** [requestOptions.signal || controller.signal]: the controller's signal
    fires when the timer does. *)
Definition effective_signal (options : ApiCallOptions.t) : AbortSignal :=
  default (Some (Z.max 0 (effective_timeout options))) (ApiCallOptions.signal options).

Definition apiCall (x : Exchange) (options : ApiCallOptions.t)
    : outcome ApiResult.t thrown :=
  match apiCall_try (effective_signal options) x with
  | (_, Fulfilled r) => Fulfilled r
  | (t, Rejected error) => Rejected (apiCall_catch t error)
  end.

Definition normalizeApiError (error : thrown) (fallback : string) : string :=
  match error with
  | ThrownApiError e => or_else (ApiError.message e) fallback
  | ThrownError _ message => or_else message fallback
  | ThrownValue _ _ => fallback
  end.

End api.

(** ** A signal of the caller that is aborted with a reason

    [fetch] and [apiCall] above take a signal by the time at which it fires
    and reject an aborted request with an [AbortError].  That is what the
    signal of the controller does, and a signal of the caller that is aborted
    without a reason.  A caller can also abort with a reason of its own, and
    [AbortSignal.timeout] aborts with a [TimeoutError]: the platform then
    rejects the pending promise with that reason, whatever value it is. *)

(** The reason of [AbortSignal.timeout]. *)
Definition TimeoutError : thrown :=
  ThrownError "TimeoutError" "signal timed out".

(** [fetch(url, { signal })] for a signal that is aborted with [reason]. *)
Definition fetch_reason (signal : AbortSignal) (reason : thrown) (x : Exchange)
    : timed Response.t :=
  if aborted signal (head_at x) then (abort_time signal, Rejected reason)
  else
    match head x with
    | Rejected e => (head_at x, Rejected e)
    | Fulfilled (ok, status) =>
        (head_at x,
         Fulfilled {| Response.ok := ok;
                      Response.status := status;
                      Response.text :=
                        if aborted signal (body_at x)
                        then (abort_time signal, Rejected reason)
                        else (body_at x, body x) |})
    end.

Section api_signal.
Context `{!Runtime}.

(** The [try] block of [apiCall] from the settling of [fetch] on. *)
Definition apiCall_fetched (fetched : timed Response.t) : timed ApiResult.t :=
  match fetched with
  | (t, Rejected e) => (t, Rejected e)
  | (_, Fulfilled resp) =>
      match Response.text resp with
      | (t, Rejected e) => (t, Rejected e)
      | (t, Fulfilled raw) =>
          let body := parseResponse raw in
          let latencyMs := latency t in
          if negb (Response.ok resp) then
            match failureMessage body (Response.status resp) with
            | Rejected e => (t, Rejected e)
            | Fulfilled message =>
                (t, Rejected (ThrownApiError
                       {| ApiError.message := message;
                          ApiError.status := Some (Response.status resp);
                          ApiError.isTimeout := false;
                          ApiError.latencyMs := Some latencyMs |}))
            end
          else
            (t, Fulfilled {| ApiResult.data := body;
                             ApiResult.latencyMs := latencyMs;
                             ApiResult.status := Response.status resp |})
      end
  end.

(** [apiCall(url, { signal })] for a signal of the caller that is aborted with
    [reason]: the signal of the controller is not passed on, so that the timer
    has no effect. *)
Definition apiCall_signal (x : Exchange) (signal : AbortSignal) (reason : thrown)
    : outcome ApiResult.t thrown :=
  match apiCall_fetched (fetch_reason signal reason x) with
  | (_, Fulfilled r) => Fulfilled r
  | (t, Rejected error) => Rejected (apiCall_catch t error)
  end.

End api_signal.

(** ** Component state ([App.tsx], the [useState] hooks)

    The hooks are grouped by the card they serve.  A handler is a state
    transformer: each [setX] call is one step, and an updater function
    [prev => ...] is applied to the state at that step. *)

Module AuthUser.
Record t := {
  id : Z;
  email : string;
  created_at : option string
}.
End AuthUser.

Module PropertyItem.
Record t := {
  id : Z;
  user_id : Z;
  name : string;
  address_optional : option string;
  created_at : option string
}.
End PropertyItem.

Inductive AppLanguage := lang_de | lang_en | lang_fr.

Record Session := {
  apiBase : string;
  selectedLanguage : AppLanguage;
  currentUser : option AuthUser.t;
  properties : list PropertyItem.t;
  activePropertyId : option Z
}.

Record UploadUi := {
  uploadState : UiState;
  uploadMessage : string;
  uploadDetails : string;
  selectedFiles : list File.t;
  uploadErrors : list string;
  documents : list DocumentItem.t;
  documentStatuses : gmap Z DocumentStatus
}.

Record ChatUi := {
  chatState : UiState;
  chatMessage : string;
  chatDetails : string;
  chatQuestion : string;
  chatPending : bool;
  chatHistory : list ChatMessage.t;
  lastChatQuestion : string
}.

Record AppState := {
  session : Session;
  upload : UploadUi;
  chat : ChatUi;
  toasts : list Toast.t;
  uuid_calls : nat
}.

Definition Handler (A : Type) : Type := AppState → A * AppState.

#[export] Instance Handler_ret : MRet Handler := λ A a st, (a, st).
#[export] Instance Handler_bind : MBind Handler :=
  λ A B f m st, let '(a, st') := m st in f a st'.

Definition get_state : Handler AppState := λ st, (st, st).
Definition exec {A} (h : Handler A) (st : AppState) : AppState := snd (h st).

Definition update_session (f : Session → Session) : Handler unit :=
  λ st, (tt, {| session := f (session st); upload := upload st; chat := chat st;
                toasts := toasts st; uuid_calls := uuid_calls st |}).
Definition update_upload (f : UploadUi → UploadUi) : Handler unit :=
  λ st, (tt, {| session := session st; upload := f (upload st); chat := chat st;
                toasts := toasts st; uuid_calls := uuid_calls st |}).
Definition update_chat (f : ChatUi → ChatUi) : Handler unit :=
  λ st, (tt, {| session := session st; upload := upload st; chat := f (chat st);
                toasts := toasts st; uuid_calls := uuid_calls st |}).
Definition setToasts (f : list Toast.t → list Toast.t) : Handler unit :=
  λ st, (tt, {| session := session st; upload := upload st; chat := chat st;
                toasts := f (toasts st); uuid_calls := uuid_calls st |}).

Definition setCurrentUser (v : option AuthUser.t) : Handler unit :=
  update_session (λ s,
    {| apiBase := apiBase s; selectedLanguage := selectedLanguage s; currentUser := v;
       properties := properties s; activePropertyId := activePropertyId s |}).
Definition setProperties (v : list PropertyItem.t) : Handler unit :=
  update_session (λ s,
    {| apiBase := apiBase s; selectedLanguage := selectedLanguage s;
       currentUser := currentUser s; properties := v;
       activePropertyId := activePropertyId s |}).
Definition setActivePropertyId (v : option Z) : Handler unit :=
  update_session (λ s,
    {| apiBase := apiBase s; selectedLanguage := selectedLanguage s;
       currentUser := currentUser s; properties := properties s;
       activePropertyId := v |}).

Definition setUploadState (v : UiState) : Handler unit :=
  update_upload (λ u,
    {| uploadState := v; uploadMessage := uploadMessage u; uploadDetails := uploadDetails u;
       selectedFiles := selectedFiles u; uploadErrors := uploadErrors u;
       documents := documents u; documentStatuses := documentStatuses u |}).
Definition setUploadMessage (v : string) : Handler unit :=
  update_upload (λ u,
    {| uploadState := uploadState u; uploadMessage := v; uploadDetails := uploadDetails u;
       selectedFiles := selectedFiles u; uploadErrors := uploadErrors u;
       documents := documents u; documentStatuses := documentStatuses u |}).
Definition setUploadDetails (v : string) : Handler unit :=
  update_upload (λ u,
    {| uploadState := uploadState u; uploadMessage := uploadMessage u; uploadDetails := v;
       selectedFiles := selectedFiles u; uploadErrors := uploadErrors u;
       documents := documents u; documentStatuses := documentStatuses u |}).
Definition setSelectedFiles (f : list File.t → list File.t) : Handler unit :=
  update_upload (λ u,
    {| uploadState := uploadState u; uploadMessage := uploadMessage u;
       uploadDetails := uploadDetails u; selectedFiles := f (selectedFiles u);
       uploadErrors := uploadErrors u; documents := documents u;
       documentStatuses := documentStatuses u |}).
Definition setUploadErrors (v : list string) : Handler unit :=
  update_upload (λ u,
    {| uploadState := uploadState u; uploadMessage := uploadMessage u;
       uploadDetails := uploadDetails u; selectedFiles := selectedFiles u;
       uploadErrors := v; documents := documents u;
       documentStatuses := documentStatuses u |}).
Definition setDocuments (v : list DocumentItem.t) : Handler unit :=
  update_upload (λ u,
    {| uploadState := uploadState u; uploadMessage := uploadMessage u;
       uploadDetails := uploadDetails u; selectedFiles := selectedFiles u;
       uploadErrors := uploadErrors u; documents := v;
       documentStatuses := documentStatuses u |}).
Definition setDocumentStatuses (f : gmap Z DocumentStatus → gmap Z DocumentStatus)
    : Handler unit :=
  update_upload (λ u,
    {| uploadState := uploadState u; uploadMessage := uploadMessage u;
       uploadDetails := uploadDetails u; selectedFiles := selectedFiles u;
       uploadErrors := uploadErrors u; documents := documents u;
       documentStatuses := f (documentStatuses u) |}).

Definition setChatState (v : UiState) : Handler unit :=
  update_chat (λ c,
    {| chatState := v; chatMessage := chatMessage c; chatDetails := chatDetails c;
       chatQuestion := chatQuestion c; chatPending := chatPending c;
       chatHistory := chatHistory c; lastChatQuestion := lastChatQuestion c |}).
Definition setChatMessage (v : string) : Handler unit :=
  update_chat (λ c,
    {| chatState := chatState c; chatMessage := v; chatDetails := chatDetails c;
       chatQuestion := chatQuestion c; chatPending := chatPending c;
       chatHistory := chatHistory c; lastChatQuestion := lastChatQuestion c |}).
Definition setChatDetails (v : string) : Handler unit :=
  update_chat (λ c,
    {| chatState := chatState c; chatMessage := chatMessage c; chatDetails := v;
       chatQuestion := chatQuestion c; chatPending := chatPending c;
       chatHistory := chatHistory c; lastChatQuestion := lastChatQuestion c |}).
Definition setChatQuestion (v : string) : Handler unit :=
  update_chat (λ c,
    {| chatState := chatState c; chatMessage := chatMessage c; chatDetails := chatDetails c;
       chatQuestion := v; chatPending := chatPending c;
       chatHistory := chatHistory c; lastChatQuestion := lastChatQuestion c |}).
Definition setChatPending (v : bool) : Handler unit :=
  update_chat (λ c,
    {| chatState := chatState c; chatMessage := chatMessage c; chatDetails := chatDetails c;
       chatQuestion := chatQuestion c; chatPending := v;
       chatHistory := chatHistory c; lastChatQuestion := lastChatQuestion c |}).
Definition setChatHistory (f : list ChatMessage.t → list ChatMessage.t) : Handler unit :=
  update_chat (λ c,
    {| chatState := chatState c; chatMessage := chatMessage c; chatDetails := chatDetails c;
       chatQuestion := chatQuestion c; chatPending := chatPending c;
       chatHistory := f (chatHistory c); lastChatQuestion := lastChatQuestion c |}).
Definition setLastChatQuestion (v : string) : Handler unit :=
  update_chat (λ c,
    {| chatState := chatState c; chatMessage := chatMessage c; chatDetails := chatDetails c;
       chatQuestion := chatQuestion c; chatPending := chatPending c;
       chatHistory := chatHistory c; lastChatQuestion := v |}).

(** [!activePropertyId] is false for a non-zero id only: [null] and [0] both
    count as no selection. *)
Definition selected (activePropertyId : option Z) : bool :=
  match activePropertyId with
  | Some id => negb (id =? 0)
  | None => false
  end.

(** What the render that follows a handler does.  An updater function that
    a handler passes to a setter runs when the component renders next; if it
    throws, the render throws, and the component, which has no error boundary
    around it, is taken down. *)
Inductive Render := Renders | RenderThrows (error : thrown).

(** ** The handlers of [App.tsx] *)

Module ChatReply.
Record t := {
  answer : option string;
  sources : option (list Source.t)
}.
End ChatReply.

Section handlers.
Context `{!Runtime}.

Definition uuid : Handler string :=
  λ st, (uuid_value (uuid_calls st),
         {| session := session st; upload := upload st; chat := chat st;
            toasts := toasts st; uuid_calls := S (uuid_calls st) |}).

(** [addToast]; the timer that removes the toast three seconds later is the
    separate event [expireToast]. *)
Definition addToast (type : ToastType) (title : string) (details : option string)
    : Handler unit :=
  id ← uuid;
  setToasts (λ prev, prev ++ [{| Toast.id := id; Toast.type := type;
                                 Toast.title := title; Toast.details := details |}]).

Definition expireToast (id : string) : Handler unit :=
  setToasts (filter (λ t, Toast.id t ≠ id)).

(** The object literal of a chat message; a property that the literal does
    not mention is [None]. *)
Definition newMessage (id : string) (role : Role) (text : string)
    (sources : option (list Source.t)) (sourceDetails : option (gmap string string))
    : ChatMessage.t :=
  {| ChatMessage.id := id; ChatMessage.role := role; ChatMessage.text := text;
     ChatMessage.sources := sources; ChatMessage.sourceDetails := sourceDetails |}.

(** [askChat] up to its [await]: [Some q] when the request for [q] is sent. *)
Definition askChat_start (question : string) : Handler (option string) :=
  st ← get_state;
  if negb (selected (activePropertyId (session st))) then
    setChatState ui_error;;
    setChatMessage "Keine Property gewählt";;
    setChatDetails "Bitte zuerst eine Property auswählen.";;
    addToast toast_error "Chat fehlgeschlagen" (Some "Keine Property ausgewählt.");;
    mret None
  else if String.eqb (trim question) "" then
    setChatState ui_error;;
    setChatMessage "Leere Frage";;
    addToast toast_error "Chat fehlgeschlagen" (Some "Bitte Frage eingeben.");;
    mret None
  else
    let q := trim question in
    setLastChatQuestion q;;
    id ← uuid;
    setChatHistory (λ prev, prev ++ [newMessage id role_user q None None]);;
    setChatQuestion "";;
    setChatPending true;;
    setChatState ui_loading;;
    setChatMessage "Frage läuft...";;
    mret (Some q).

(** The [catch] block of [askChat]. *)
Definition askChat_catch (e : thrown) : Handler unit :=
  let message := normalizeApiError e "Unbekannter Fehler" in
  id ← uuid;
  setChatHistory (λ prev,
    prev ++ [newMessage id role_assistant ("Fehler: " +:+ message) None None]);;
  setChatState ui_error;;
  setChatMessage "Chat fehlgeschlagen";;
  setChatDetails message;;
  addToast toast_error "Chat fehlgeschlagen" (Some (message +:+ " - mit Retry erneut senden.")).

(** [askChat] from the settling of the request on: the rest of the [try]
    block or the [catch] block, then [finally].  The data of a request that
    resolves is [None] when the reply is [null].

    For a reply of [null] the updater of the assistant message, which reads
    [data.answer], is queued; [data.sources?.length] then throws into the
    [catch] block, which queues its own updater behind the first.  The render
    that follows runs the first updater, which throws: neither message is
    appended, and the values that the other setters were given are never
    shown. *)
Definition askChat_settle (result : outcome (option ChatReply.t) thrown)
    : Handler Render :=
  rendered ←
    match result with
    | Fulfilled (Some data) =>
        let count := pretty (length (default [] (ChatReply.sources data))) in
        id ← uuid;
        setChatHistory (λ prev,
          prev ++ [newMessage id role_assistant
                     (opt_or_else (ChatReply.answer data) "")
                     (Some (default [] (ChatReply.sources data)))
                     (Some ∅)]);;
        setChatState ui_success;;
        setChatMessage "Antwort erhalten";;
        setChatDetails (count +:+ " Quellen im Kontext.");;
        addToast toast_success "Chat erfolgreich" (Some (count +:+ " Quellen"));;
        mret Renders
    | Fulfilled None =>
        setChatState ui_success;;
        setChatMessage "Antwort erhalten";;
        let message := normalizeApiError (readOfNull "sources") "Unbekannter Fehler" in
        setChatState ui_error;;
        setChatMessage "Chat fehlgeschlagen";;
        setChatDetails message;;
        addToast toast_error "Chat fehlgeschlagen"
          (Some (message +:+ " - mit Retry erneut senden."));;
        mret (RenderThrows (readOfNull "answer"))
    | Rejected e =>
        askChat_catch e;;
        mret Renders
    end;
  setChatPending false;;
  mret rendered.


(** [askChat question] when nothing else happens while the request is
    pending. *)
Definition askChat (question : string) (result : outcome (option ChatReply.t) thrown)
    : Handler Render :=
  sent ← askChat_start question;
  match sent with
  | Some _ => askChat_settle result
  | None => mret Renders
  end.


(** [addFiles] *)
Definition fileKey (file : File.t) : string :=
  File.name file +:+ ":" +:+ pretty (File.size file).

Definition mergeFiles (prev valid : list File.t) : list File.t :=
  let map := fold_left (λ m f, Map_set (fileKey f) f m) prev [] in
  let map := fold_left (λ m f, Map_set (fileKey f) f m) valid map in
  map.*2.

Definition addFiles (files : list File.t) : Handler unit :=
  let v := validateFiles files in
  setSelectedFiles (λ prev, mergeFiles prev (valid v));;
  setUploadErrors
    (errors v ++
     (if (0 <? length (valid v))%nat
      then [pretty (length (valid v)) +:+ " Datei(en) hinzugefügt."] else []));;
  if (0 <? length (errors v))%nat then
    setUploadState ui_error;;
    setUploadMessage "Ungültige Dateien erkannt";;
    setUploadDetails (pretty (length (errors v)) +:+ " Datei(en) abgelehnt.")
  else
    setUploadState ui_idle;;
    setUploadMessage "Bereit";;
    setUploadDetails "PDF oder ZIP auswählen und hochladen.".

(** [loadDocuments]; [result] is how the request to [/documents] settles, its
    data being [None] when it is not an array. *)
Definition defaultStatuses (docs : list DocumentItem.t) (prev : gmap Z DocumentStatus)
    : gmap Z DocumentStatus :=
  fold_left
    (λ next doc,
       match next !! DocumentItem.document_id doc with
       | Some _ => next
       | None => <[DocumentItem.document_id doc := doc_indexed]> next
       end)
    docs prev.

Definition loadDocuments (result : outcome (option (list DocumentItem.t)) thrown)
    : Handler (list DocumentItem.t) :=
  st ← get_state;
  if negb (bool_decide (is_Some (currentUser (session st))))
     || negb (selected (activePropertyId (session st)))
  then setDocuments [];; mret []
  else
    match result with
    | Fulfilled docs =>
        let normalized := default [] docs in
        setDocuments normalized;;
        setDocumentStatuses (defaultStatuses normalized);;
        mret normalized
    | Rejected e =>
        match e with
        | ThrownApiError a =>
            if bool_decide (ApiError.status a = Some 401) then
              setCurrentUser None;; setProperties [];; setActivePropertyId None
            else mret tt
        | _ => mret tt
        end;;
        mret []
    end.

(** The status that [UploadCard] shows for a document:
    [documentStatuses[doc.document_id] || "indexed"]. *)
Definition shownStatus (statuses : gmap Z DocumentStatus) (doc : DocumentItem.t)
    : DocumentStatus :=
  default doc_indexed (statuses !! DocumentItem.document_id doc).

End handlers.

(** ** The mirror in [localStorage] ([App.tsx], initialisers and effects) *)

Definition BASE_KEY : string := "ndiah_base_url".
Definition CHAT_HISTORY_KEY_PREFIX : string := "ndiah_chat_history".
Definition ACTIVE_PROPERTY_KEY : string := "ndiah_active_property_id".
Definition AUTH_TOKEN_KEY : string := "ndiah_firebase_id_token".
Definition LANGUAGE_KEY : string := "ndiah_language".

(** [s.replace(/\/+$/, "")] *)
Fixpoint dropSlashes (s : string) : string :=
  match s with
  | String "/"%char s' => dropSlashes s'
  | _ => s
  end.
Definition stripTrailingSlashes (s : string) : string :=
  String.rev (dropSlashes (String.rev s)).

Definition parseLanguage (raw : option string) : AppLanguage :=
  match raw with
  | Some "en" => lang_en
  | Some "fr" => lang_fr
  | _ => lang_de
  end.

Definition languageCode (l : AppLanguage) : string :=
  match l with
  | lang_de => "de"
  | lang_en => "en"
  | lang_fr => "fr"
  end.

(** The state variables that the storage effects depend on. *)
Inductive Dep := DepApiBase | DepLanguage | DepActiveProperty | DepChatHistory.

#[export] Instance Dep_eq_dec : EqDecision Dep.
Proof. solve_decision. Defined.

Section storage.
Context `{!Runtime}.

Definition DEFAULT_API_BASE : string :=
  stripTrailingSlashes (opt_or_else VITE_API_BASE_URL "http://127.0.0.1:8000").

(** The [useState] initialisers that read the storage. *)
Definition init_apiBase (ls : gmap string string) : string :=
  stripTrailingSlashes (opt_or_else (ls !! BASE_KEY) DEFAULT_API_BASE).

Definition init_selectedLanguage (ls : gmap string string) : AppLanguage :=
  parseLanguage (ls !! LANGUAGE_KEY).

Definition init_activePropertyId (ls : gmap string string) : option Z :=
  match ls !! ACTIVE_PROPERTY_KEY with
  | None => None
  | Some raw => if String.eqb raw "" then None else Number_finite raw
  end.

(** The state of the first render. *)
Definition initialState (ls : gmap string string) : AppState :=
  {| session := {| apiBase := init_apiBase ls;
                   selectedLanguage := init_selectedLanguage ls;
                   currentUser := None;
                   properties := [];
                   activePropertyId := init_activePropertyId ls |};
     upload := {| uploadState := ui_idle;
                  uploadMessage := "Bereit";
                  uploadDetails := "PDF oder ZIP auswählen und hochladen.";
                  selectedFiles := [];
                  uploadErrors := [];
                  documents := [];
                  documentStatuses := ∅ |};
     chat := {| chatState := ui_idle;
                chatMessage := "Bereit";
                chatDetails := "Frage zu indexierten Dokumenten stellen.";
                chatQuestion := "";
                chatPending := false;
                chatHistory := [];
                lastChatQuestion := "" |};
     toasts := [];
     uuid_calls := 0 |}.

Definition chatHistoryKey (id : Z) : string :=
  CHAT_HISTORY_KEY_PREFIX +:+ ":" +:+ pretty id.

(** The effects, in the order of the component.  Each reads the state of the
    render it belongs to. *)
Definition effect_apiBase (st : AppState) (ls : gmap string string) : gmap string string :=
  <[BASE_KEY := apiBase (session st)]> ls.

Definition effect_language (st : AppState) (ls : gmap string string) : gmap string string :=
  <[LANGUAGE_KEY := languageCode (selectedLanguage (session st))]> ls.

(** [forceLoggedOutOnBoot], as far as the storage goes. *)
Definition effect_boot (ls : gmap string string) : gmap string string :=
  delete AUTH_TOKEN_KEY ls.

Definition effect_activeProperty (st : AppState) (ls : gmap string string)
    : gmap string string :=
  match activePropertyId (session st) with
  | None => delete ACTIVE_PROPERTY_KEY ls
  | Some id => <[ACTIVE_PROPERTY_KEY := pretty id]> ls
  end.

Definition effect_saveHistory (st : AppState) (ls : gmap string string)
    : gmap string string :=
  match activePropertyId (session st) with
  | Some id =>
      if selected (Some id)
      then <[chatHistoryKey id := JSON_stringify_history (chatHistory (chat st))]> ls
      else ls
  | None => ls
  end.

(** The history that the loading effect passes to [setChatHistory]. *)
Definition effect_loadHistory (st : AppState) (ls : gmap string string)
    : list ChatMessage.t :=
  match activePropertyId (session st) with
  | Some id =>
      if selected (Some id) then
        match ls !! chatHistoryKey id with
        | None => []
        | Some raw =>
            if String.eqb raw "" then [] else default [] (JSON_parse_history raw)
        end
      else []
  | None => []
  end.

Definition runs (mounting : bool) (changed deps : list Dep) : bool :=
  mounting || existsb (λ d, bool_decide (d ∈ changed)) deps.

(** An effect that runs only when [b] holds. *)
Definition when {A} (b : bool) (effect : A → A) (a : A) : A :=
  if b then effect a else a.

(** One commit: the effects whose dependencies changed (all of them when the
    component mounts) run in order; the state that the loading effect sets is
    the state of the next render. *)
Definition commit (mounting : bool) (changed : list Dep)
    (st : AppState) (ls : gmap string string) : AppState * gmap string string :=
  let ls := when (runs mounting changed [DepApiBase]) (effect_apiBase st) ls in
  let ls := when (runs mounting changed [DepLanguage]) (effect_language st) ls in
  let ls := when mounting effect_boot ls in
  let ls := when (runs mounting changed [DepActiveProperty])
              (effect_activeProperty st) ls in
  let ls := when (runs mounting changed [DepChatHistory; DepActiveProperty])
              (effect_saveHistory st) ls in
  let st := when (runs mounting changed [DepActiveProperty])
              (exec (setChatHistory (λ _, effect_loadHistory st ls))) st in
  (st, ls).

(** Start-up: the mounting commit, then the commit of the render that the
    loading effect asked for. *)
Definition startup (ls : gmap string string) : AppState * gmap string string :=
  let '(st, ls) := commit true [] (initialState ls) ls in
  commit false [DepChatHistory] st ls.

End storage.

(** The properties that the type [DocumentItem] of [types.ts] declares. *)
Definition DocumentItem_properties : list string :=
  ["document_id"; "property_id"; "filename"; "uploaded_at"].

(** ** A runtime to run the model on examples

    [asciiRuntime] implements [Runtime] for ASCII text, ISO dates
    [YYYY-MM-DD] read as UTC midnight (with UTC as the local time zone), and
    JSON without escapes, fractions or exponents.  On the inputs of the
    examples of this file it returns what a browser returns. *)

Module AsciiRuntime.

Definition lower (c : ascii) : ascii :=
  let n := nat_of_ascii c in
  if (65 <=? n)%nat && (n <=? 90)%nat then ascii_of_nat (n + 32) else c.

Fixpoint toLowerCase (s : string) : string :=
  match s with
  | EmptyString => EmptyString
  | String c s' => String (lower c) (toLowerCase s')
  end.

Fixpoint dropSpaces (s : string) : string :=
  match s with
  | String c s' => if Ascii.is_space c then dropSpaces s' else s
  | EmptyString => EmptyString
  end.

Definition trim (s : string) : string :=
  String.rev (dropSpaces (String.rev (dropSpaces s))).

Definition localeCompare (a b : string) : Z :=
  match String.compare a b with
  | Lt => -1
  | Eq => 0
  | Gt => 1
  end.

Definition digit (c : ascii) : option Z :=
  let n := Z.of_nat (nat_of_ascii c) in
  if (48 <=? n) && (n <=? 57) then Some (n - 48) else None.

Fixpoint digits (acc : Z) (s : list ascii) : option Z :=
  match s with
  | [] => Some acc
  | c :: r => d ← digit c; digits (10 * acc + d) r
  end.

Definition isLeap (y : Z) : bool :=
  ((y mod 4 =? 0) && negb (y mod 100 =? 0)) || (y mod 400 =? 0).

Definition daysInMonth (y m : Z) : Z :=
  if m =? 2 then (if isLeap y then 29 else 28)
  else if (m =? 4) || (m =? 6) || (m =? 9) || (m =? 11) then 30 else 31.

(** Days from 1970-01-01 to the given day of the proleptic Gregorian calendar. *)
Definition daysFromCivil (y m d : Z) : Z :=
  let y' := if m <=? 2 then y - 1 else y in
  let era := y' / 400 in
  let yoe := y' - era * 400 in
  let doy := (153 * (if 2 <? m then m - 3 else m + 9) + 2) / 5 + d - 1 in
  let doe := yoe * 365 + yoe / 4 - yoe / 100 + doy in
  era * 146097 + doe - 719468.

Definition msPerDay : Z := 86400000.

Definition Date_getTime (s : string) : number :=
  match String.list_ascii_of_string s with
  | [y1; y2; y3; y4; "-"%char; m1; m2; "-"%char; d1; d2] =>
      y ← digits 0 [y1; y2; y3; y4];
      m ← digits 0 [m1; m2];
      d ← digits 0 [d1; d2];
      if (1 <=? m) && (m <=? 12) && (1 <=? d) && (d <=? daysInMonth y m)
      then Some (daysFromCivil y m d * msPerDay) else None
  | _ => None
  end.

Definition startOfDay (t : Z) : Z := t - t mod msPerDay.
Definition addDays (t n : Z) : Z := t + n * msPerDay.

Fixpoint skip_ws (s : list ascii) : list ascii :=
  match s with
  | c :: r => if Ascii.is_space c then skip_ws r else s
  | [] => []
  end.

(** The characters of a string literal up to its closing quote (code 34);
    a backslash (code 92) is not read. *)
Fixpoint read_string (acc : string) (s : list ascii) : option (string * list ascii) :=
  match s with
  | [] => None
  | c :: r =>
      if Ascii.eqb c "034" then Some (String.rev acc, r)
      else if Ascii.eqb c "092" then None
      else read_string (String c acc) r
  end.

Fixpoint read_digits (acc : Z) (s : list ascii) : Z * list ascii :=
  match s with
  | c :: r =>
      match digit c with
      | Some d => read_digits (10 * acc + d) r
      | None => (acc, s)
      end
  | [] => (acc, [])
  end.

Fixpoint read_value (fuel : nat) (s : list ascii) : option (json * list ascii) :=
  match fuel with
  | O => None
  | S fuel =>
      match skip_ws s with
      | "n"%char :: "u"%char :: "l"%char :: "l"%char :: r => Some (JNull, r)
      | "t"%char :: "r"%char :: "u"%char :: "e"%char :: r => Some (JBool true, r)
      | "f"%char :: "a"%char :: "l"%char :: "s"%char :: "e"%char :: r =>
          Some (JBool false, r)
      | "["%char :: r =>
          match skip_ws r with
          | "]"%char :: r' => Some (JArr [], r')
          | _ => '(items, r') ← read_items fuel r; Some (JArr items, r')
          end
      | "{"%char :: r =>
          match skip_ws r with
          | "}"%char :: r' => Some (JObj [], r')
          | _ => '(fields, r') ← read_fields fuel r; Some (JObj fields, r')
          end
      | c :: r =>
          if Ascii.eqb c "034" then
            '(str, r') ← read_string "" r; Some (JStr str, r')
          else if bool_decide (is_Some (digit c)) then
            let '(n, r') := read_digits 0 (c :: r) in
            Some (JNum (PrimFloat.of_uint63 (Uint63.of_Z n)), r')
          else None
      | [] => None
      end
  end
with read_items (fuel : nat) (s : list ascii) : option (list json * list ascii) :=
  match fuel with
  | O => None
  | S fuel =>
      '(v, r) ← read_value fuel s;
      match skip_ws r with
      | ","%char :: r' => '(vs, r'') ← read_items fuel r'; Some (v :: vs, r'')
      | "]"%char :: r' => Some ([v], r')
      | _ => None
      end
  end
with read_fields (fuel : nat) (s : list ascii) : option (list (string * json) * list ascii) :=
  match fuel with
  | O => None
  | S fuel =>
      match skip_ws s with
      | c :: r =>
          if Ascii.eqb c "034" then
            '(k, r) ← read_string "" r;
            match skip_ws r with
            | ":"%char :: r =>
                '(v, r) ← read_value fuel r;
                match skip_ws r with
                | ","%char :: r' =>
                    '(fs, r'') ← read_fields fuel r'; Some ((k, v) :: fs, r'')
                | "}"%char :: r' => Some ([(k, v)], r')
                | _ => None
                end
            | _ => None
            end
          else None
      | [] => None
      end
  end.

Definition JSON_parse (s : string) : option json :=
  '(v, r) ← read_value (2 * String.length s + 2) (String.list_ascii_of_string s);
  match skip_ws r with
  | [] => Some v
  | _ => None
  end.

Definition stringify_value (v : json) : string :=
  match v with
  | JNull => "null"
  | JBool true => "true"
  | JBool false => "false"
  | JStr s => s
  | JNum _ => "0"
  | JArr _ => ""
  | JObj _ => "[object Object]"
  end.

Definition Number_finite (s : string) : option Z :=
  match String.list_ascii_of_string s with
  | [] => Some 0
  | "-"%char :: r => Z.opp <$> digits 0 r
  | r => digits 0 r
  end.

(** The history codec covers the fields [id], [role] and [text]. *)
Definition quote (s : string) : string :=
  String "034" (s +:+ String "034" "").

Definition roleName (r : Role) : string :=
  match r with
  | role_user => "user"
  | role_assistant => "assistant"
  end.

Definition stringify_message (m : ChatMessage.t) : string :=
  "{" +:+ quote "id" +:+ ":" +:+ quote (ChatMessage.id m) +:+ "," +:+
  quote "role" +:+ ":" +:+ quote (roleName (ChatMessage.role m)) +:+ "," +:+
  quote "text" +:+ ":" +:+ quote (ChatMessage.text m) +:+ "}".

Fixpoint join (sep : string) (l : list string) : string :=
  match l with
  | [] => ""
  | [s] => s
  | s :: r => s +:+ sep +:+ join sep r
  end.

Definition JSON_stringify_history (h : list ChatMessage.t) : string :=
  "[" +:+ join "," (stringify_message <$> h) +:+ "]".

Definition read_message (v : json) : option ChatMessage.t :=
  match v with
  | JObj fields =>
      match Map_get "id" fields, Map_get "role" fields, Map_get "text" fields with
      | Some (JStr id), Some (JStr r), Some (JStr text) =>
          role ← (if String.eqb r "user" then Some role_user
                  else if String.eqb r "assistant" then Some role_assistant
                  else None);
          Some {| ChatMessage.id := id; ChatMessage.role := role;
                  ChatMessage.text := text; ChatMessage.sources := None;
                  ChatMessage.sourceDetails := None |}
      | _, _, _ => None
      end
  | _ => None
  end.

Definition JSON_parse_history (s : string) : option (list ChatMessage.t) :=
  v ← JSON_parse s;
  match v with
  | JArr items => mapM read_message items
  | _ => None
  end.

Definition uuid_value (n : nat) : string := "id-" +:+ pretty n.

End AsciiRuntime.

Definition asciiRuntime : Runtime :=
  {| toLowerCase := AsciiRuntime.toLowerCase;
     trim := AsciiRuntime.trim;
     localeCompare := AsciiRuntime.localeCompare;
     Date_getTime := AsciiRuntime.Date_getTime;
     startOfDay := AsciiRuntime.startOfDay;
     addDays := AsciiRuntime.addDays;
     JSON_parse := AsciiRuntime.JSON_parse;
     stringify_value := AsciiRuntime.stringify_value;
     Number_finite := AsciiRuntime.Number_finite;
     JSON_stringify_history := AsciiRuntime.JSON_stringify_history;
     JSON_parse_history := AsciiRuntime.JSON_parse_history;
     uuid_value := AsciiRuntime.uuid_value;
     VITE_API_BASE_URL := None |}.

(** ** The properties that the specification names *)

Section properties.
Context `{!Runtime}.
Context (heap : ref → TimelineItem.t).

(** A file that its MIME type or its lower-case extension identifies as a
    PDF or a ZIP archive. *)
Definition isPdfOrZip (file : File.t) : bool :=
  isPdfType file || hasPdfExt file || isZipType file || hasZipExt file.

Definition withinSizeLimit (file : File.t) : bool :=
  File.size file <=? 20 * 1024 * 1024.

Definition acceptable (file : File.t) : bool :=
  isPdfOrZip file && withinSizeLimit file.

(** The one message of a file that is not acceptable. *)
Definition rejectionMessage (file : File.t) : string :=
  if isPdfOrZip file then tooLargeMessage file else wrongTypeMessage file.

(** [l] is ordered by [R]: whatever precedes is related to what follows. *)
Definition ordered (R : ref → ref → Prop) (l : list ref) : Prop :=
  ∀ i j a b, (i < j)%nat → l !! i = Some a → l !! j = Some b → R a b.

Definition priorityOf (item : ref) : Z :=
  timelinePriority (or_else (TimelineItem.category (heap item)) "info").

Definition timestampOf (item : ref) : number :=
  Date_getTime (TimelineItem.date_iso (heap item)).

(** Both dates parse, and the first is not after the second. *)
Definition byDate (a b : ref) : Prop :=
  ∃ ta tb, timestampOf a = Some ta ∧ timestampOf b = Some tb ∧ ta ≤ tb.

Definition byPriorityThenDate (a b : ref) : Prop :=
  priorityOf a < priorityOf b ∨ (priorityOf a = priorityOf b ∧ byDate a b).

(** What the loop of [groupTimelineByDate] maintains, [items] being the items
    seen so far. *)
Definition grouped (items : list ref) (m : list (string * list ref)) : Prop :=
  NoDup m.*1 ∧
  concat m.*2 ≡ₚ items ∧
  (∀ k g, (k, g) ∈ m → g = filter (λ item, groupKey heap item = k) items) ∧
  (∀ item, item ∈ items → groupKey heap item ∈ m.*1).

End properties.

Section api_properties.
Context `{!Runtime}.

(** The configured timeout aborts the request: the caller passes no signal of
    its own, and the timer fires while the head or the body is pending. *)
Definition timedOut (x : Exchange) (options : ApiCallOptions.t) : Prop :=
  ApiCallOptions.signal options = None ∧
  (Z.max 0 (effective_timeout options) ≤ head_at x ∨
   ((∃ r, head x = Fulfilled r) ∧ Z.max 0 (effective_timeout options) ≤ body_at x)).

(** Whenever [fetch] delivers a response that is not OK, the call rejects
    with an [ApiError] that carries the status of the response. *)
Definition nonOkCarriesStatus (x : Exchange) (options : ApiCallOptions.t) : Prop :=
  ∀ t resp,
    fetch (effective_signal options) x = (t, Fulfilled resp) →
    Response.ok resp = false →
    ∃ e, apiCall x options = Rejected (ThrownApiError e) ∧
         ApiError.status e = Some (Response.status resp).

End api_properties.

Section state_properties.
Context `{!Runtime}.

(** Start-up restores the chat history that is stored for the selected
    property. *)
Definition restoresHistory (ls : gmap string string) : Prop :=
  ∀ id raw h,
    init_activePropertyId ls = Some id → selected (Some id) = true →
    ls !! chatHistoryKey id = Some raw → JSON_parse_history raw = Some h →
    chatHistory (chat (startup ls).1) = h.

(** The storage keys of the three mirrored values that the specification
    lists, and the statement that start-up writes no other key. *)
Definition mirroredKeys (id : Z) : gset string :=
  {[ BASE_KEY; ACTIVE_PROPERTY_KEY; chatHistoryKey id ]}.

Definition writesOnlyMirroredKeys (ls : gmap string string) : Prop :=
  ∀ id key,
    init_activePropertyId ls = Some id →
    key ∈ dom (startup ls).2 → key ∈ dom ls ∨ key ∈ mirroredKeys id.

(** No validation on the client: every file that is offered is selected. *)
Definition keepsEveryFile (st : AppState) (files : list File.t) : Prop :=
  ∀ file, file ∈ files → file ∈ selectedFiles (upload (exec (addFiles files) st)).



(** Every message of the chat history is the answer of a server reply. *)
Definition historyFromServer (replies : list ChatReply.t) (st : AppState) : Prop :=
  ∀ m, m ∈ chatHistory (chat st) →
       ∃ r, r ∈ replies ∧ ChatMessage.text m = opt_or_else (ChatReply.answer r) "".

(** The status of a document is part of the document: the status shown is
    a function of the DTO alone. *)
Definition statusCarriedByDocument : Prop :=
  ∃ status : DocumentItem.t → DocumentStatus,
    ∀ statuses doc, shownStatus statuses doc = status doc.

End state_properties.

(** ** Example inputs *)

Module Examples.

Definition item (category date_iso title : string) : TimelineItem.t :=
  {| TimelineItem.document_id := None;
     TimelineItem.filename := None;
     TimelineItem.source := None;
     TimelineItem.source_quote := None;
     TimelineItem.title := title;
     TimelineItem.date_iso := date_iso;
     TimelineItem.time_24h := None;
     TimelineItem.category := category;
     TimelineItem.amount_eur := None;
     TimelineItem.description := "" |}.

(** A payment in January and a deadline in December. *)
Definition twoItems (r : ref) : TimelineItem.t :=
  match r with
  | O => item "payment" "2026-01-01" "Hausgeld"
  | _ => item "deadline" "2026-12-01" "Widerspruchsfrist"
  end.

(** Three notes, the second without a readable date. *)
Definition threeNotes (r : ref) : TimelineItem.t :=
  match r with
  | O => item "info" "2026-05-01" "Begehung"
  | 1%nat => item "info" "demnächst" "Aushang"
  | _ => item "info" "2026-01-01" "Neujahr"
  end.

Definition defaults : ApiCallOptions.t :=
  {| ApiCallOptions.timeoutMs := None; ApiCallOptions.signal := None |}.

(** A 404 with the FastAPI error body [{ detail: Not found }], after 120 ms. *)
Definition notFound : Exchange :=
  {| head_at := 80;
     head := Fulfilled (false, 404);
     body_at := 120;
     body := Fulfilled ("{" +:+ AsciiRuntime.quote "detail" +:+ ":" +:+
                        AsciiRuntime.quote "Not found" +:+ "}") |}.

(** A 500 whose body is still being read when 15 s have passed. *)
Definition slowFailure : Exchange :=
  {| head_at := 100;
     head := Fulfilled (false, 500);
     body_at := 20000;
     body := Fulfilled "Internal Server Error" |}.

(** A 500 whose body is the JSON text [null]. *)
Definition nullFailure : Exchange :=
  {| head_at := 100;
     head := Fulfilled (false, 500);
     body_at := 150;
     body := Fulfilled "null" |}.

Definition greeting : ChatMessage.t :=
  {| ChatMessage.id := "m1"; ChatMessage.role := role_user;
     ChatMessage.text := "Hallo"; ChatMessage.sources := None;
     ChatMessage.sourceDetails := None |}.

(** The storage of a user who chatted about property 5 before. *)
Definition returningUser : gmap string string :=
  <[ACTIVE_PROPERTY_KEY := "5"]>
    (<[chatHistoryKey 5 := AsciiRuntime.JSON_stringify_history [greeting]]> ∅).

Definition notes : File.t :=
  {| File.name := "notes.txt"; File.type := "text/plain"; File.size := 120 |}.

Definition scan : File.t :=
  {| File.name := "Abrechnung.PDF"; File.type := ""; File.size := 4096 |}.

Definition statement : DocumentItem.t :=
  {| DocumentItem.document_id := 7; DocumentItem.property_id := 5;
     DocumentItem.filename := "Abrechnung.pdf"; DocumentItem.uploaded_at := None |}.

Definition tenant : AuthUser.t :=
  {| AuthUser.id := 1; AuthUser.email := "mieter@example.org";
     AuthUser.created_at := None |}.

Definition offline : thrown := ThrownError "TypeError" "Failed to fetch".

End Examples.

(** ** More of the timeline: the category choice ([App.tsx]) and the cards
    and the summary of [TimelineCard.tsx] *)

(** [Array.from(new Set(l))]: the elements in the order of their first
    occurrence. *)
Definition Set_from {A} `{EqDecision A} (l : list A) : list A :=
  fold_left (λ seen x, if decide (x ∈ seen) then seen else seen ++ [x]) l [].

(** The comparator of [sort()] without argument, on strings: the order of the
    code units, which for the ASCII names of the categories is that of
    [String.compare]. *)
Definition compareStrings (a b : string) : number :=
  Some (match String.compare a b with
        | Lt => -1
        | Eq => 0
        | Gt => 1
        end).

(** [Math.round(x / d)] on integers, for a positive [d]. *)
Definition roundDiv (x d : Z) : Z := (2 * x + d) / (2 * d).

Definition msPerDay : Z := 1000 * 60 * 60 * 24.

(** Two readable timestamps, the first not after the second. *)
Definition earlier (a b : number) : Prop :=
  ∃ x y, a = Some x ∧ b = Some y ∧ x ≤ y.

(** [categoryRank] of [TimelineCard.tsx], with [props.normalizeCategory]
    bound to [normalizeCategory] as [App.tsx] binds it. *)
Definition categoryRank (category : string) : Z :=
  let normalized := normalizeCategory (or_else category "info") in
  if String.eqb normalized "deadline" then 0
  else if String.eqb normalized "payment" then 1
  else if String.eqb normalized "meeting" then 2
  else if String.eqb normalized "info" then 3
  else 4.

Definition plural (n : nat) (one many : string) : string :=
  if (n =? 1)%nat then one else many.

Section timeline_card.
Context `{!Runtime}.
Context (heap : ref → TimelineItem.t).
(** [d.toLocaleDateString("de-DE")], on timestamps *)
Context (toLocaleDateString : Z → string).

Definition timelineCategories (timelineItems : list ref) : list string :=
  Array_sort compareStrings
    (Set_from ((λ x, normalizeCategory (or_else (TimelineItem.category (heap x)) "info"))
               <$> timelineItems)).

(** The order of the cards of one group in [renderGroupedCards]. *)
Definition compareCards (a b : ref) : number :=
  let pa := categoryRank (or_else (TimelineItem.category (heap a)) "info") in
  let pb := categoryRank (or_else (TimelineItem.category (heap b)) "info") in
  if negb (pa =? pb) then Some (pa - pb)
  else Some (localeCompare (opt_or_else (TimelineItem.time_24h (heap a)) "99:99")
                           (opt_or_else (TimelineItem.time_24h (heap b)) "99:99")).

Definition sortedItems (items : list ref) : list ref :=
  Array_sort compareCards items.

Definition formatGroupDate (dateIso : string) : string :=
  match Date_getTime dateIso with
  | None => dateIso
  | Some t => toLocaleDateString t
  end.

(** [props.timelineCurrentGrouped.flatMap(([, items]) => items)] *)
Definition visibleItems (grouped : list (string * list ref)) : list ref :=
  concat grouped.*2.

(** The test of [openDeadlines] and of [openPayments]: the date is readable
    and not before [today], and the category is the given one. *)
Definition isOpen (today : Z) (category : string) (item : ref) : bool :=
  match Date_getTime (TimelineItem.date_iso (heap item)) with
  | None => false
  | Some dt =>
      (today <=? dt) &&
      String.eqb (normalizeCategory (or_else (TimelineItem.category (heap item)) "info"))
                 category
  end.

Definition openDeadlines (today : Z) (visible : list ref) : nat :=
  length (filter (λ item, isOpen today "deadline" item) visible).

Definition openPayments (today : Z) (visible : list ref) : nat :=
  length (filter (λ item, isOpen today "payment" item) visible).

Definition isUpcoming (today : Z) (dt : number) : bool :=
  match dt with
  | None => false
  | Some t => today <=? t
  end.

(** The dates of [nextEventDays], earliest first. *)
Definition upcoming (today : Z) (visible : list ref) : list number :=
  Array_sort minus
    (filter (λ dt, isUpcoming today dt)
       ((λ item, Date_getTime (TimelineItem.date_iso (heap item))) <$> visible)).

Definition nextEventDays (today : Z) (visible : list ref) : option Z :=
  match upcoming today visible with
  | Some t :: _ => Some (roundDiv (t - today) msPerDay)
  | _ => None
  end.

Definition deadlineDates (visible : list ref) : list number :=
  Array_sort minus
    (filter (λ dt : number, is_Some dt)
       ((λ item, Date_getTime (TimelineItem.date_iso (heap item))) <$>
        filter (λ item,
                  normalizeCategory (or_else (TimelineItem.category (heap item)) "info")
                  = "deadline")
               visible)).

(** [...sort(...)[0]]: [None] is [undefined]. *)
Definition nextDeadline (visible : list ref) : option number :=
  match deadlineDates visible with
  | next :: _ => Some next
  | [] => None
  end.

Definition isDueIn30 (today : Z) (item : ref) : bool :=
  let category := normalizeCategory (or_else (TimelineItem.category (heap item)) "info") in
  if negb (String.eqb category "payment") then false
  else
    match Date_getTime (TimelineItem.date_iso (heap item)) with
    | None => false
    | Some dt =>
        let in30 := addDays today 30 in
        (today <=? dt) && (dt <=? in30)
    end.

Definition duePayments30d (today : Z) (visible : list ref) : nat :=
  length (filter (λ item, isDueIn30 today item) visible).

Definition deadlinesSummary (today : Z) (visible : list ref) : string :=
  let n := openDeadlines today visible in
  if (0 <? n)%nat
  then pretty n +:+ " Frist" +:+ plural n "" "en" +:+ " " +:+
       plural n "steht" "stehen" +:+ " an"
  else "Keine offenen Fristen".

Definition paymentsSummary (today : Z) (visible : list ref) : string :=
  let n := openPayments today visible in
  if (0 <? n)%nat
  then pretty n +:+ " offene Zahlung" +:+ plural n "" "en"
  else "Keine offenen Zahlungen".

Definition nextEventSummary (today : Z) (visible : list ref) : string :=
  match nextEventDays today visible with
  | None => "Kein kommender Termin"
  | Some days =>
      if days =? 0 then "Nächster Termin heute"
      else "Nächster Termin in " +:+ pretty days +:+ " Tag" +:+
           (if days =? 1 then "" else "en")
  end.

(** The text of a date that is [NaN] is whatever the runtime prints for an
    invalid date; [nextDeadline] never is one, as the filter removes them. *)
Definition dateText (dt : number) : string :=
  match dt with
  | Some t => toLocaleDateString t
  | None => "Invalid Date"
  end.

Definition actionSummary (today : Z) (visible : list ref) : string :=
  let deadlines := openDeadlines today visible in
  let due := duePayments30d today visible in
  match (0 <? deadlines)%nat, nextDeadline visible with
  | true, Some next =>
      pretty deadlines +:+ " Frist" +:+ plural deadlines "" "en" +:+
      " stehen an (nächste: " +:+ dateText next +:+ ")."
  | _, _ =>
      if (0 <? due)%nat then
        pretty due +:+ " Zahlung" +:+ plural due "" "en" +:+
        " fällig innerhalb von 30 Tagen."
      else if (deadlines =? 0)%nat then
        "Keine offenen Fristen. " +:+ nextEventSummary today visible +:+ "."
      else deadlinesSummary today visible +:+ ". " +:+
           paymentsSummary today visible +:+ "."
  end.

End timeline_card.

(** ** The upload request ([lib/api.ts], [uploadWithProgress]) *)

(** How the [XMLHttpRequest] ends: [onerror], [ontimeout], or [onload] with
    the status and the text of the response. *)
Inductive XhrCompletion :=
| XhrError
| XhrTimeout
| XhrLoad (status : Z) (responseText : string).

Section upload_request.
Context `{!Runtime}.

(** The [data] of [onload]: a body that is empty or does not parse leaves the
    initial [{}]. *)
Definition uploadData (responseText : string) : json :=
  if String.eqb responseText "" then JObj []
  else match JSON_parse responseText with
       | Some v => v
       | None => JObj []
       end.

(** How the promise settles; [None] when the handler throws before it calls
    [resolve] or [reject], so that the promise stays pending. *)
Definition uploadWithProgress (completion : XhrCompletion)
    : option (outcome json thrown) :=
  match completion with
  | XhrError =>
      Some (Rejected (ThrownApiError
              {| ApiError.message := "Netzwerkfehler beim Upload.";
                 ApiError.status := None;
                 ApiError.isTimeout := false;
                 ApiError.latencyMs := None |}))
  | XhrTimeout =>
      Some (Rejected (ThrownApiError
              {| ApiError.message := "Upload hat zu lange gedauert. Bitte erneut versuchen.";
                 ApiError.status := None;
                 ApiError.isTimeout := true;
                 ApiError.latencyMs := None |}))
  | XhrLoad status responseText =>
      let data := uploadData responseText in
      if (status <? 200) || (300 <=? status) then
        match getProperty data "detail" with
        | Rejected _ => None
        | Fulfilled detail =>
            Some (Rejected (ThrownApiError
                    {| ApiError.message :=
                         if truthy detail then from_option ToString "" detail
                         else "HTTP " +:+ pretty status;
                       ApiError.status := Some status;
                       ApiError.isTimeout := false;
                       ApiError.latencyMs := None |}))
        end
      else Some (Fulfilled data)
  end.

(** [fetchJson] *)
Definition fetchJson (x : Exchange) (signal : option AbortSignal)
    : outcome json thrown :=
  match apiCall x {| ApiCallOptions.timeoutMs := None;
                     ApiCallOptions.signal := signal |} with
  | Fulfilled r => Fulfilled (ApiResult.data r)
  | Rejected e => Rejected e
  end.

End upload_request.

(** ** More handlers of [App.tsx] *)

Section more_handlers.
Context `{!Runtime}.

(** [retryChat] *)
Definition retryChat (result : outcome (option ChatReply.t) thrown) : Handler Render :=
  st ← get_state;
  if String.eqb (lastChatQuestion (chat st)) "" then mret Renders
  else askChat (lastChatQuestion (chat st)) result.

End more_handlers.

(** The request resolved with a reply that is not [null]. *)
Definition answered {A E} (result : outcome (option A) E) : bool :=
  match result with
  | Fulfilled (Some _) => true
  | _ => false
  end.

(** The request failed with an [ApiError] of status 401. *)
Definition unauthorized {A} (result : outcome A thrown) : bool :=
  match result with
  | Rejected (ThrownApiError a) => bool_decide (ApiError.status a = Some 401)
  | _ => false
  end.

(** A run of [n] slashes, what [/\/+$/] matches. *)
Fixpoint slashes (n : nat) : string :=
  match n with
  | O => ""
  | S n => String "/" (slashes n)
  end.

(** ** Session and properties ([App.tsx]) *)


(** The selected property, if any, is one of the loaded properties. *)
Definition activeListed (st : AppState) : Prop :=
  match activePropertyId (session st) with
  | None => True
  | Some id => id ∈ PropertyItem.id <$> properties (session st)
  end.

Section property_handlers.
Context `{!Runtime}.

(** [loadMe]; the data of a request that resolves is [None] when the reply
    is [null]. *)
Definition loadMe (result : outcome (option AuthUser.t) thrown)
    : Handler (option AuthUser.t) :=
  match result with
  | Fulfilled data => setCurrentUser data;; mret data
  | Rejected _ => setCurrentUser None;; mret None
  end.

(** [list.some((p) => p.id === activePropertyId)] *)
Definition lists (list : list PropertyItem.t) (activePropertyId : option Z) : bool :=
  existsb (λ p, bool_decide (Some (PropertyItem.id p) = activePropertyId)) list.

(** [loadProperties]; the data of the result is [None] when it is not an
    array.  [activePropertyId] is the value of the render that created the
    handler. *)
Definition loadProperties (result : outcome (option (list PropertyItem.t)) thrown)
    : Handler (list PropertyItem.t) :=
  st ← get_state;
  match result with
  | Fulfilled data =>
      let list := default [] data in
      setProperties list;;
      (if negb (lists list (activePropertyId (session st)))
       then setActivePropertyId (PropertyItem.id <$> list !! 0%nat)
       else mret tt);;
      mret list
  | Rejected e =>
      setProperties [];;
      setActivePropertyId None;;
      addToast toast_error "Properties konnten nicht geladen werden"
        (Some (normalizeApiError e "Unbekannter Fehler"));;
      mret []
  end.

(** The [boot] effect. *)
Definition boot (me : outcome (option AuthUser.t) thrown)
    (props : outcome (option (list PropertyItem.t)) thrown) : Handler unit :=
  st ← get_state;
  me ← loadMe me;
  match me with
  | None => mret tt
  | Some _ =>
      props ← loadProperties props;
      let activePropertyId := activePropertyId (session st) in
      let targetPropertyId :=
        if selected activePropertyId && lists props activePropertyId
        then activePropertyId
        else PropertyItem.id <$> props !! 0%nat in
      if bool_decide (is_Some targetPropertyId) &&
         negb (bool_decide (targetPropertyId = activePropertyId))
      then setActivePropertyId targetPropertyId
      else mret tt
  end.


End property_handlers.

(** ** Sources of an answer ([App.tsx], [ChatCard.tsx]) *)

(** The key [`${source.document_id}:${source.chunk_id}`], which the handler
    writes and the card reads. *)
Definition sourceKey (source : Source.t) : string :=
  pretty (Source.document_id source) +:+ ":" +:+ Source.chunk_id source.

(** The callback of [prev.map] in [loadSourceSnippet]. *)
Definition addSnippet (messageId : string) (source : Source.t) (snippet : string)
    (msg : ChatMessage.t) : ChatMessage.t :=
  if bool_decide (ChatMessage.id msg ≠ messageId) then msg
  else
    {| ChatMessage.id := ChatMessage.id msg;
       ChatMessage.role := ChatMessage.role msg;
       ChatMessage.text := ChatMessage.text msg;
       ChatMessage.sources := ChatMessage.sources msg;
       ChatMessage.sourceDetails :=
         Some (<[sourceKey source := snippet]>
                 (default ∅ (ChatMessage.sourceDetails msg))) |}.

(** [documentsById]: [Object.fromEntries], where a later entry replaces an
    earlier one with the same key. *)
Definition documentsById (documents : list DocumentItem.t) : gmap Z DocumentItem.t :=
  fold_left (λ m doc, <[DocumentItem.document_id doc := doc]> m) documents ∅.

(** [ChatCard]: [doc?.filename || `Dokument ${s.document_id}`] *)
Definition sourceLabel (documentsById : gmap Z DocumentItem.t) (s : Source.t) : string :=
  opt_or_else (DocumentItem.filename <$> documentsById !! Source.document_id s)
    ("Dokument " +:+ pretty (Source.document_id s)).

(** [ChatCard]: the sources listed below a message.  The list is rendered for
    a message of the assistant that has at least one source, with one row for
    each source. *)
Definition sourceRows (msg : ChatMessage.t) : list Source.t :=
  match ChatMessage.role msg with
  | role_assistant => default [] (ChatMessage.sources msg)
  | role_user => []
  end.

(** [ChatCard]: the snippet in the row of a source, if the row has one:
    [msg.sourceDetails?.[key] ? ... : null]. *)
Definition rowSnippet (msg : ChatMessage.t) (s : Source.t) : option string :=
  match ChatMessage.sourceDetails msg with
  | None => None
  | Some details =>
      match details !! sourceKey s with
      | Some snippet => if String.eqb snippet "" then None else Some snippet
      | None => None
      end
  end.

(** [ChatCard]: what is rendered below a message: its source rows, each with
    the snippet it shows. *)
Definition shownSnippets (msg : ChatMessage.t) : list (Source.t * option string) :=
  (λ s, (s, rowSnippet msg s)) <$> sourceRows msg.

Section snippet_handler.
Context `{!Runtime}.

(** [loadSourceSnippet]; the data of a request that resolves is [None] when
    the reply is [null], and [data.snippet] otherwise.  The updater reads
    [data.snippet] for the messages with the given id only: for a reply of
    [null] it throws, in the render that runs it, if there is such a
    message. *)
Definition loadSourceSnippet (messageId : string) (source : Source.t)
    (result : outcome (option (option string)) thrown) : Handler Render :=
  match result with
  | Fulfilled (Some snippet) =>
      setChatHistory (fmap (addSnippet messageId source (opt_or_else snippet "")));;
      mret Renders
  | Fulfilled None =>
      st ← get_state;
      if existsb (λ msg, String.eqb (ChatMessage.id msg) messageId)
           (chatHistory (chat st))
      then mret (RenderThrows (readOfNull "snippet"))
      else mret Renders
  | Rejected e =>
      addToast toast_error "Snippet konnte nicht geladen werden"
        (Some (normalizeApiError e "Unbekannter Fehler"));;
      mret Renders
  end.

End snippet_handler.

(** ** The timeline handlers ([App.tsx]) *)

Inductive TimelineAction := action_raw | action_load.

#[export] Instance TimelineAction_eq_dec : EqDecision TimelineAction.
Proof. solve_decision. Defined.

(** The [useState] hooks of the timeline card. *)
Record TimelineUi := {
  timelineState : UiState;
  timelineMessage : string;
  timelineDetails : string;
  timelineInput : string;
  timelineItems : list ref;
  timelineRenderSeed : Z;
  lastTimelineAction : option TimelineAction
}.

Definition setTimelineState (v : UiState) (tl : TimelineUi) : TimelineUi :=
  {| timelineState := v; timelineMessage := timelineMessage tl;
     timelineDetails := timelineDetails tl; timelineInput := timelineInput tl;
     timelineItems := timelineItems tl; timelineRenderSeed := timelineRenderSeed tl;
     lastTimelineAction := lastTimelineAction tl |}.
Definition setTimelineMessage (v : string) (tl : TimelineUi) : TimelineUi :=
  {| timelineState := timelineState tl; timelineMessage := v;
     timelineDetails := timelineDetails tl; timelineInput := timelineInput tl;
     timelineItems := timelineItems tl; timelineRenderSeed := timelineRenderSeed tl;
     lastTimelineAction := lastTimelineAction tl |}.
Definition setTimelineDetails (v : string) (tl : TimelineUi) : TimelineUi :=
  {| timelineState := timelineState tl; timelineMessage := timelineMessage tl;
     timelineDetails := v; timelineInput := timelineInput tl;
     timelineItems := timelineItems tl; timelineRenderSeed := timelineRenderSeed tl;
     lastTimelineAction := lastTimelineAction tl |}.
Definition setTimelineItems (v : list ref) (tl : TimelineUi) : TimelineUi :=
  {| timelineState := timelineState tl; timelineMessage := timelineMessage tl;
     timelineDetails := timelineDetails tl; timelineInput := timelineInput tl;
     timelineItems := v; timelineRenderSeed := timelineRenderSeed tl;
     lastTimelineAction := lastTimelineAction tl |}.
Definition setTimelineRenderSeed (f : Z → Z) (tl : TimelineUi) : TimelineUi :=
  {| timelineState := timelineState tl; timelineMessage := timelineMessage tl;
     timelineDetails := timelineDetails tl; timelineInput := timelineInput tl;
     timelineItems := timelineItems tl; timelineRenderSeed := f (timelineRenderSeed tl);
     lastTimelineAction := lastTimelineAction tl |}.
Definition setLastTimelineAction (v : option TimelineAction) (tl : TimelineUi)
    : TimelineUi :=
  {| timelineState := timelineState tl; timelineMessage := timelineMessage tl;
     timelineDetails := timelineDetails tl; timelineInput := timelineInput tl;
     timelineItems := timelineItems tl; timelineRenderSeed := timelineRenderSeed tl;
     lastTimelineAction := v |}.

(** The state of the first render. *)
Definition initialTimeline : TimelineUi :=
  {| timelineState := ui_idle;
     timelineMessage := "Bereit";
     timelineDetails := "Rohtext einfügen und Termine extrahieren.";
     timelineInput := "";
     timelineItems := [];
     timelineRenderSeed := 0;
     lastTimelineAction := None |}.

Section timeline_handlers.
Context `{!Runtime}.

(** The steps that the three handlers share once the items are there. *)
Definition showItems (items : list ref) (message details : string) (tl : TimelineUi)
    : TimelineUi :=
  let tl := setTimelineItems items tl in
  let tl := setTimelineRenderSeed (λ prev, prev + 1) tl in
  let tl := setTimelineState ui_success tl in
  let tl := setTimelineMessage message tl in
  setTimelineDetails details tl.

Definition showFailure (message details : string) (tl : TimelineUi) : TimelineUi :=
  let tl := setTimelineState ui_error tl in
  let tl := setTimelineMessage message tl in
  setTimelineDetails details tl.

(** The [catch] block of [extractTimeline]. *)
Definition extractTimeline_catch (e : thrown) (tl : TimelineUi) : Handler TimelineUi :=
  let message := normalizeApiError e "Unbekannter Fehler" in
  let tl := showFailure "Extraktion fehlgeschlagen" message tl in
  addToast toast_error "Timeline fehlgeschlagen"
    (Some (message +:+ " - bitte Retry nutzen."));;
  mret tl.

(** [extractTimeline]; the data of a request that resolves is [None] when the
    reply is [null], and [data.items] otherwise, which in turn is [None] when
    it is not an array.  Reading [data.items] of [null] throws into the
    [catch] block. *)
Definition extractTimeline (result : outcome (option (option (list ref))) thrown)
    (tl : TimelineUi) : Handler TimelineUi :=
  if String.eqb (trim (timelineInput tl)) "" then
    let tl := setTimelineState ui_error tl in
    let tl := setTimelineMessage "Kein Text" tl in
    addToast toast_error "Timeline fehlgeschlagen" (Some "Bitte Text einfügen.");;
    mret tl
  else
    let tl := setLastTimelineAction (Some action_raw) tl in
    let tl := setTimelineState ui_loading tl in
    let tl := setTimelineMessage "Extraktion läuft..." tl in
    match result with
    | Fulfilled (Some data) =>
        let items := default [] data in
        let tl := showItems items "Timeline extrahiert"
                    (pretty (length items) +:+ " Einträge gefunden.") tl in
        addToast toast_success "Timeline extrahiert"
          (Some (pretty (length items) +:+ " Einträge"));;
        mret tl
    | Fulfilled None => extractTimeline_catch (readOfNull "items") tl
    | Rejected e => extractTimeline_catch e tl
    end.

(** [loadTimelineFromStore]; the data of the result is [None] when it is not
    an array. *)
Definition loadTimelineFromStore (validateHasDocuments : bool)
    (result : outcome (option (list ref)) thrown) (tl : TimelineUi)
    : Handler TimelineUi :=
  st ← get_state;
  if negb (selected (activePropertyId (session st))) then
    mret (showFailure "Keine Property gewählt" "Bitte zuerst eine Property auswählen." tl)
  else if validateHasDocuments && (length (documents (upload st)) =? 0)%nat then
    let tl := showFailure "Keine Dokumente"
                "Bitte zuerst mindestens ein PDF hochladen." tl in
    addToast toast_error "Timeline fehlgeschlagen"
      (Some "Keine hochgeladenen Dokumente gefunden.");;
    mret tl
  else
    let tl := setLastTimelineAction (Some action_load) tl in
    let tl := setTimelineState ui_loading tl in
    let tl := setTimelineMessage "Lade gespeicherte Timeline..." tl in
    let tl := setTimelineDetails
                (pretty (length (documents (upload st))) +:+ " Dokument(e) im Bestand.")
                tl in
    match result with
    | Fulfilled data =>
        let items := default [] data in
        let tl := showItems items "Timeline geladen"
                    (pretty (length items) +:+ " Einträge aus persistierter Timeline.")
                    tl in
        addToast toast_success "Timeline geladen"
          (Some (pretty (length items) +:+ " Einträge"));;
        mret tl
    | Rejected e =>
        let message := normalizeApiError e "Unbekannter Fehler" in
        let tl := showFailure "Timeline laden fehlgeschlagen" message tl in
        addToast toast_error "Timeline laden fehlgeschlagen"
          (Some (message +:+ " - mit Retry erneut versuchen."));;
        mret tl
    end.

(** The [catch] block of [rebuildTimeline]. *)
Definition rebuildTimeline_catch (fromUpload : bool) (e : thrown) (tl : TimelineUi)
    : Handler (option bool * TimelineUi) :=
  let message := normalizeApiError e "Unbekannter Fehler" in
  if fromUpload then
    addToast toast_warning "Timeline konnte nicht automatisch aktualisiert werden"
      (Some message);;
    mret (Some false, tl)
  else
    let tl := showFailure "Timeline-Aktualisierung fehlgeschlagen" message tl in
    addToast toast_error "Timeline fehlgeschlagen" (Some message);;
    mret (Some false, tl).

(** [rebuildTimeline]; the result stands for the two requests in a row: the
    reply of the rebuild, [None] when it is [null] and its [items_count]
    otherwise, and the list that is loaded after it, [None] when it is not an
    array; or the error of the first request that fails.  The value returned
    is [None] for [undefined].

    The reply of the rebuild is read only after the items are shown: if it
    is [null], [data.items_count] throws into the [catch] block with the new
    items, the raised seed, the state and the message already set. *)
Definition rebuildTimeline (fromUpload : bool)
    (result : outcome (option Z * option (list ref)) thrown) (tl : TimelineUi)
    : Handler (option bool * TimelineUi) :=
  st ← get_state;
  if negb (selected (activePropertyId (session st))) then
    mret (None, showFailure "Keine Property gewählt"
                  "Bitte zuerst eine Property auswählen." tl)
  else if (length (documents (upload st)) =? 0)%nat then
    mret (None, showFailure "Keine Dokumente"
                  "Bitte zuerst mindestens ein PDF hochladen." tl)
  else
    let tl := setLastTimelineAction (Some action_load) tl in
    let tl := setTimelineState ui_loading tl in
    let tl := setTimelineMessage "Timeline wird aktualisiert..." tl in
    let tl := setTimelineDetails "Kann bei vielen Dokumenten bis zu 3 Minuten dauern." tl in
    match result with
    | Fulfilled (Some items_count, list) =>
        let items := default [] list in
        let tl := showItems items "Timeline aktualisiert"
                    (pretty items_count +:+ " neu berechnet, " +:+
                     pretty (length items) +:+ " sichtbar.") tl in
        (if fromUpload then
           addToast toast_success "Timeline automatisch aktualisiert"
             (Some (pretty items_count +:+ " Items neu berechnet"))
         else
           addToast toast_success "Timeline aktualisiert"
             (Some (pretty items_count +:+ " Items neu berechnet")));;
        mret (Some true, tl)
    | Fulfilled (None, list) =>
        let items := default [] list in
        let tl := setTimelineItems items tl in
        let tl := setTimelineRenderSeed (λ prev, prev + 1) tl in
        let tl := setTimelineState ui_success tl in
        let tl := setTimelineMessage "Timeline aktualisiert" tl in
        rebuildTimeline_catch fromUpload (readOfNull "items_count") tl
    | Rejected e => rebuildTimeline_catch fromUpload e tl
    end.

(** [retryTimeline] *)
Definition retryTimeline (extracted : outcome (option (option (list ref))) thrown)
    (rebuilt : outcome (option Z * option (list ref)) thrown) (tl : TimelineUi)
    : Handler TimelineUi :=
  match lastTimelineAction tl with
  | Some action_raw => extractTimeline extracted tl
  | _ => r ← rebuildTimeline false rebuilt tl; mret r.2
  end.

End timeline_handlers.

(** A reply of [/chat] with an answer and no sources. *)
Definition sampleReply : ChatReply.t :=
  {| ChatReply.answer := Some "Am 1. Juli."; ChatReply.sources := Some [] |}.

(** A toast that is added while another one is on screen. *)
Definition sampleToast : Toast.t :=
  {| Toast.id := "id-2"; Toast.type := toast_warning;
     Toast.title := "ZIP wird verarbeitet"; Toast.details := None |}.

(** A property to run the session handlers on. *)
Definition sampleProperty : PropertyItem.t :=
  {| PropertyItem.id := 5; PropertyItem.user_id := 1;
     PropertyItem.name := "Gartenstrasse 3";
     PropertyItem.address_optional := None;
     PropertyItem.created_at := None |}.

(** A property that the server numbered 0. *)
Definition unnumbered : PropertyItem.t :=
  {| PropertyItem.id := 0; PropertyItem.user_id := 1;
     PropertyItem.name := "Neu";
     PropertyItem.address_optional := None;
     PropertyItem.created_at := None |}.

(** An answer of the assistant that cites one source. *)
Definition sampleAnswer : ChatMessage.t :=
  {| ChatMessage.id := "m2"; ChatMessage.role := role_assistant;
     ChatMessage.text := "Am 1. Juli.";
     ChatMessage.sources :=
       Some [{| Source.document_id := 7; Source.property_id := Some 5;
                Source.chunk_id := "c2"; Source.page := None;
                Source.score := None |}];
     ChatMessage.sourceDetails := Some ∅ |}.

(** A source of an answer. *)
Definition sampleSource : Source.t :=
  {| Source.document_id := 7; Source.property_id := Some 5;
     Source.chunk_id := "c2"; Source.page := None; Source.score := None |}.

(** * Theorems *)

(** ** Strings and categories *)

Lemma existsb_eqb_elem_of (x : string) (l : list string) :
  existsb (String.eqb x) l = true ↔ x ∈ l.
Proof.
  induction l as [|y l IH]; simpl.
  - split; [discriminate | by intros ?%elem_of_nil].
  - rewrite orb_true_iff, IH, elem_of_cons, String.eqb_eq. done.
Qed.

Lemma normalizeCategory_elem_of (category : string) :
  normalizeCategory category ∈ categories.
Proof.
  unfold normalizeCategory.
  destruct (existsb (String.eqb category) categories) eqn:E.
  - by apply existsb_eqb_elem_of.
  - unfold categories. set_solver.
Qed.

Lemma normalizeCategory_fixed (category : string) :
  category ∈ categories → normalizeCategory category = category.
Proof.
  intros Hin%existsb_eqb_elem_of. unfold normalizeCategory. by rewrite Hin.
Qed.

Lemma timelinePriority_range (category : string) :
  0 ≤ timelinePriority category ≤ 4.
Proof. unfold timelinePriority. repeat case_match; lia. Qed.

(** C8: [normalizeCategory] returns its argument when it is one of the five
    categories and ["info"] otherwise; its result always is one of the five,
    the function is idempotent, and [timelinePriority] returns one of 0, 1, 2,
    3, 4. *)
Theorem normalizeCategory_spec (category : string) :
  (category ∈ ["meeting"; "payment"; "deadline"; "info"; "tax"] →
   normalizeCategory category = category) ∧
  (category ∉ ["meeting"; "payment"; "deadline"; "info"; "tax"] →
   normalizeCategory category = "info") ∧
  normalizeCategory category ∈ ["meeting"; "payment"; "deadline"; "info"; "tax"] ∧
  normalizeCategory (normalizeCategory category) = normalizeCategory category ∧
  timelinePriority category ∈ [0; 1; 2; 3; 4].
Proof.
  split_and!.
  - apply normalizeCategory_fixed.
  - intros Hnot. unfold normalizeCategory.
    destruct (existsb (String.eqb category) categories) eqn:E; [|done].
    by apply existsb_eqb_elem_of in E.
  - apply normalizeCategory_elem_of.
  - apply normalizeCategory_fixed, normalizeCategory_elem_of.
  - pose proof (timelinePriority_range category) as Hr.
    assert (timelinePriority category = 0 ∨ timelinePriority category = 1 ∨
            timelinePriority category = 2 ∨ timelinePriority category = 3 ∨
            timelinePriority category = 4) as Hc by lia.
    rewrite !elem_of_cons. lia.
Qed.

Lemma normalizeCategory_spec_witness :
  normalizeCategory "tax" = "tax" ∧ normalizeCategory "rent" = "info".
Proof.
  split.
  - apply (proj1 (normalizeCategory_spec "tax")).
    rewrite !elem_of_cons. auto 10.
  - apply (proj1 (proj2 (normalizeCategory_spec "rent"))).
    rewrite !elem_of_cons, elem_of_nil. intuition discriminate.
Defined.

(** ** Upload validation *)

Section upload_facts.
Context `{!Runtime}.

Lemma validateFiles_step_acceptable (acc : Validation) (file : File.t) :
  validateFiles_step acc file =
    if acceptable file
    then {| valid := valid acc ++ [file]; errors := errors acc |}
    else {| valid := valid acc; errors := errors acc ++ [rejectionMessage file] |}.
Proof.
  unfold validateFiles_step, acceptable, rejectionMessage, isPdfOrZip,
    withinSizeLimit, MAX_FILE_SIZE.
  destruct (isPdfType file), (hasPdfExt file), (isZipType file), (hasZipExt file);
    simpl;
    destruct (Z.ltb_spec (20 * 1024 * 1024) (File.size file));
    destruct (Z.leb_spec (File.size file) (20 * 1024 * 1024)); try lia; done.
Qed.

Lemma validateFiles_fold (files : list File.t) (acc : Validation) :
  fold_left validateFiles_step files acc =
    {| valid := valid acc ++ filter (λ f, acceptable f) files;
       errors := errors acc ++
                 (rejectionMessage <$> filter (λ f, ¬ acceptable f) files) |}.
Proof.
  revert acc. induction files as [|file files IH]; intros acc; simpl.
  - rewrite !app_nil_r. by destruct acc.
  - rewrite IH, validateFiles_step_acceptable, !filter_cons.
    destruct (acceptable file) eqn:E; simpl; rewrite <- !app_assoc; simpl.
    all: done.
Qed.


End upload_facts.

(** ** Sorting *)

Section sort_facts.
Context {A : Type} (comparefn : A → A → number).

Lemma sort_insert_Permutation (x : A) (l : list A) :
  sort_insert comparefn x l ≡ₚ x :: l.
Proof.
  induction l as [|y l IH]; simpl; [done|].
  case_match; [done|]. rewrite IH. apply Permutation_swap.
Qed.

Lemma Array_sort_Permutation (l : list A) : Array_sort comparefn l ≡ₚ l.
Proof.
  induction l as [|x l IH]; simpl; [done|].
  by rewrite sort_insert_Permutation, IH.
Qed.

(** A comparator that decides a transitive relation [R] on the elements that
    satisfy [P] sorts every list of such elements by [R]. *)
Context (R : relation A) (P : A → Prop).
Hypothesis R_trans : ∀ x y z, R x y → R y z → R x z.
Hypothesis compare_le : ∀ x y, P x → P y → SortCompare comparefn x y ≤ 0 → R x y.
Hypothesis compare_gt : ∀ x y, P x → P y → 0 < SortCompare comparefn x y → R y x.

Lemma sort_insert_sorted (x : A) (l : list A) :
  P x → Forall P l → StronglySorted R l →
  StronglySorted R (sort_insert comparefn x l).
Proof.
  intros Hx. induction l as [|y l IH]; intros HP Hs; simpl.
  - repeat constructor.
  - apply Forall_cons in HP as [Hy HP].
    apply StronglySorted_cons in Hs as [Hyl Hs].
    destruct (Z.leb_spec (SortCompare comparefn x y) 0) as [Hle|Hgt].
    + apply StronglySorted_cons. split; [|by apply StronglySorted_cons].
      assert (R x y) as Hxy by auto.
      constructor; [done|].
      eapply Forall_impl; [exact Hyl|]. eauto.
    + apply StronglySorted_cons. split; [|auto].
      rewrite sort_insert_Permutation. constructor; auto.
Qed.

Lemma Array_sort_sorted (l : list A) :
  Forall P l → StronglySorted R (Array_sort comparefn l).
Proof.
  induction l as [|x l IH]; intros HP; simpl; [constructor|].
  apply Forall_cons in HP as [Hx HP].
  apply sort_insert_sorted; [done| |auto].
  by rewrite Array_sort_Permutation.
Qed.

End sort_facts.

Lemma StronglySorted_filter {A} (R : relation A) (P : A → Prop)
    `{!∀ x, Decision (P x)} (l : list A) :
  StronglySorted R l → StronglySorted R (filter P l).
Proof.
  induction 1 as [|x l Hs IH Hx]; [constructor|].
  rewrite filter_cons. case_decide; [|done].
  constructor; [done|].
  apply Forall_forall. intros y [_ Hy]%list_elem_of_filter.
  by eapply Forall_forall in Hx.
Qed.

Lemma StronglySorted_lookup {A} (R : relation A) (l : list A) (i j : nat) (a b : A) :
  StronglySorted R l → (i < j)%nat → l !! i = Some a → l !! j = Some b → R a b.
Proof.
  intros Hs. revert i j. induction Hs as [|x l Hs IH Hx]; intros i j Hij Hi Hj.
  - by rewrite lookup_nil in Hi.
  - destruct j as [|j]; [lia|]. simpl in Hj. destruct i as [|i]; simpl in Hi.
    + injection Hi as ->. eapply Forall_forall in Hx; [done|].
      by eapply list_elem_of_lookup_2.
    + eapply (IH i j); [lia|done..].
Qed.

(** ** The filtered timeline *)

Section timeline_order.
Context `{!Runtime}.
Context (heap : ref → TimelineItem.t).

Lemma byPriorityThenDate_trans (a b c : ref) :
  byPriorityThenDate heap a b → byPriorityThenDate heap b c →
  byPriorityThenDate heap a c.
Proof.
  unfold byPriorityThenDate, byDate.
  intros [?|[? (ta & tb & Ha & Hb & ?)]] [?|[? (tb' & tc & Hb' & Hc & ?)]];
    [left; lia..|].
  right. split; [lia|]. exists ta, tc. split_and!; [done..|].
  rewrite Hb in Hb'. injection Hb' as <-. lia.
Qed.

Lemma compareItems_le (a b : ref) :
  is_Some (timestampOf heap a) → is_Some (timestampOf heap b) →
  SortCompare (compareItems heap) a b ≤ 0 → byPriorityThenDate heap a b.
Proof.
  unfold SortCompare, compareItems, byPriorityThenDate, byDate, timestampOf, priorityOf.
  intros [ta ->] [tb ->]. simpl.
  destruct (Z.eqb_spec (timelinePriority (or_else (TimelineItem.category (heap a)) "info"))
                       (timelinePriority (or_else (TimelineItem.category (heap b)) "info")))
    as [Hp|Hp]; simpl; [|intros; left; lia].
  destruct (Z.eqb_spec ta tb) as [->|Ht]; simpl; intros Hc; right;
    (split; [done|]); do 2 eexists; (split_and!; [reflexivity..|lia]).
Qed.

Lemma compareItems_gt (a b : ref) :
  is_Some (timestampOf heap a) → is_Some (timestampOf heap b) →
  0 < SortCompare (compareItems heap) a b → byPriorityThenDate heap b a.
Proof.
  unfold SortCompare, compareItems, byPriorityThenDate, byDate, timestampOf, priorityOf.
  intros [ta ->] [tb ->]. simpl.
  destruct (Z.eqb_spec (timelinePriority (or_else (TimelineItem.category (heap a)) "info"))
                       (timelinePriority (or_else (TimelineItem.category (heap b)) "info")))
    as [Hp|Hp]; simpl; [|intros; left; lia].
  destruct (Z.eqb_spec ta tb) as [->|Ht]; simpl; intros Hc; right;
    (split; [done|]); do 2 eexists; (split_and!; [reflexivity..|lia]).
Qed.

(** C1, as amended: when every [date_iso] of the list parses, the filtered
    timeline is ordered by category priority first and by date within one
    priority: if A precedes B in it, then A's priority is smaller than B's,
    or the priorities are equal and A's timestamp is at most B's. *)
Theorem filteredTimeline_byPriorityThenDate
    (timelineItems : list ref) (timelineCategory timelineSearch : string) :
  Forall (λ item, is_Some (timestampOf heap item)) timelineItems →
  ordered (byPriorityThenDate heap)
    (filteredTimeline heap timelineItems timelineCategory timelineSearch).
Proof.
  intros Hdates i j a b Hij Ha Hb. unfold filteredTimeline in *.
  eapply StronglySorted_lookup; [|done..].
  apply StronglySorted_filter.
  eapply (Array_sort_sorted _ _ (λ item, is_Some (timestampOf heap item)));
    eauto using byPriorityThenDate_trans, compareItems_le, compareItems_gt.
Qed.

(** The filtered timeline is a selection of the items: the ones that pass
    the category and the search filter, each as often as in the input. *)
Lemma filteredTimeline_Permutation
    (timelineItems : list ref) (timelineCategory timelineSearch : string) :
  filteredTimeline heap timelineItems timelineCategory timelineSearch ≡ₚ
  filter (λ item, matchesFilter heap timelineCategory timelineSearch item) timelineItems.
Proof.
  unfold filteredTimeline. by rewrite Array_sort_Permutation.
Qed.

Lemma byDate_trans (a b c : ref) :
  byDate heap a b → byDate heap b c → byDate heap a c.
Proof.
  intros (ta & tb & Ha & Hb & ?) (tb' & tc & Hb' & Hc & ?).
  exists ta, tc. split_and!; [done..|].
  rewrite Hb in Hb'. injection Hb' as <-. lia.
Qed.

(** The first version of the component did sort by date first. *)
Lemma filteredTimeline_legacy_byDate
    (timelineItems : list ref) (timelineCategory timelineSearch : string) :
  Forall (λ item, is_Some (timestampOf heap item)) timelineItems →
  ordered (byDate heap)
    (filteredTimeline_legacy heap timelineItems timelineCategory timelineSearch).
Proof.
  intros Hdates i j a b Hij Ha Hb. unfold filteredTimeline_legacy in *.
  eapply StronglySorted_lookup; [|done..].
  apply StronglySorted_filter.
  eapply (Array_sort_sorted _ _ (λ item, is_Some (timestampOf heap item)));
    eauto using byDate_trans.
  - unfold SortCompare, compareItems_legacy, byDate, timestampOf.
    intros x y [tx Hx] [ty Hy]. rewrite Hx, Hy. simpl.
    destruct (Z.eqb_spec tx ty) as [->|?]; simpl; intros; do 2 eexists;
      (split_and!; [reflexivity..|lia]).
  - unfold SortCompare, compareItems_legacy, byDate, timestampOf.
    intros x y [tx Hx] [ty Hy]. rewrite Hx, Hy. simpl.
    destruct (Z.eqb_spec tx ty) as [->|?]; simpl; intros; do 2 eexists;
      (split_and!; [reflexivity..|lia]).
Qed.

End timeline_order.

Lemma filteredTimeline_byPriorityThenDate_witness :
  byPriorityThenDate (H := asciiRuntime) Examples.twoItems 1%nat 0%nat.
Proof.
  apply (filteredTimeline_byPriorityThenDate (H := asciiRuntime)
           Examples.twoItems [0%nat; 1%nat] "" "" ltac:(repeat constructor; by eexists)
           0%nat 1%nat 1%nat 0%nat); [lia|reflexivity..].
Defined.

(** C1, as stated, fails: the deadline of December precedes the payment of
    January, both dates being readable; and an unreadable date lets May
    precede January among items of one priority. *)
Lemma filteredTimeline_not_byDate :
  ¬ ordered (byDate (H := asciiRuntime) Examples.twoItems)
      (filteredTimeline (H := asciiRuntime) Examples.twoItems [0%nat; 1%nat] "" "") ∧
  ¬ ordered (byDate (H := asciiRuntime) Examples.threeNotes)
      (filteredTimeline (H := asciiRuntime) Examples.threeNotes
         [0%nat; 1%nat; 2%nat] "" "").
Proof.
  split.
  - intros Hord.
    destruct (Hord 0%nat 1%nat 1%nat 0%nat) as (ta & tb & Ha & Hb & Hle);
      [lia|reflexivity..|].
    vm_compute in Ha, Hb. injection Ha as <-. injection Hb as <-. lia.
  - intros Hord.
    destruct (Hord 0%nat 2%nat 0%nat 2%nat) as (ta & tb & Ha & Hb & Hle);
      [lia|reflexivity..|].
    vm_compute in Ha, Hb. injection Ha as <-. injection Hb as <-. lia.
Qed.

(** ** Current and archived items *)

Lemma filter_ext_elem_of {A} (P Q : A → Prop)
    `{!∀ x, Decision (P x), !∀ x, Decision (Q x)} (l : list A) :
  (∀ x, x ∈ l → P x ↔ Q x) → filter P l = filter Q l.
Proof.
  induction l as [|x l IH]; intros Hext; [done|].
  rewrite !filter_cons.
  assert (P x ↔ Q x) as Hx by (apply Hext; left).
  rewrite IH by (intros; apply Hext; by right).
  repeat case_decide; tauto.
Qed.

Lemma filter_none {A} (P : A → Prop) `{!∀ x, Decision (P x)} (l : list A) :
  (∀ x, x ∈ l → ¬ P x) → filter P l = [].
Proof.
  induction l as [|x l IH]; intros Hnone; [done|].
  rewrite filter_cons, decide_False by (apply Hnone; left).
  apply IH. intros; apply Hnone; by right.
Qed.

Section timeline_split.
Context `{!Runtime}.
Context (heap : ref → TimelineItem.t).

Lemma timelineArchiveItems_complement (now : Z) (filtered : list ref) :
  timelineArchiveItems filtered (timelineCurrentItems heap now filtered) =
  filter (λ item, ¬ isCurrent heap now item) filtered.
Proof.
  unfold timelineArchiveItems, timelineCurrentItems.
  apply filter_ext_elem_of. intros item Hin.
  rewrite elem_of_list_to_set, list_elem_of_filter. tauto.
Qed.

Lemma isCurrent_unreadable (now : Z) (item : ref) :
  timestampOf heap item = None → isCurrent heap now item = false.
Proof. unfold isCurrent, timestampOf. by intros ->. Qed.

(** C9: on a list of pairwise distinct items, the current and the archived
    items partition the list: every item is in exactly one of the two, once,
    and an item whose [date_iso] does not parse is archived. *)
Theorem timeline_partition (now : Z) (filtered : list ref) :
  NoDup filtered →
  let current := timelineCurrentItems heap now filtered in
  let archive := timelineArchiveItems filtered current in
  (∀ item, item ∈ filtered →
     (item ∈ current ∧ item ∉ archive) ∨ ((item ∉ current) ∧ item ∈ archive)) ∧
  current ++ archive ≡ₚ filtered ∧
  NoDup (current ++ archive) ∧
  (∀ item, item ∈ filtered → timestampOf heap item = None →
     item ∈ archive ∧ item ∉ current).
Proof.
  intros Hnodup current archive. subst archive current.
  rewrite timelineArchiveItems_complement. unfold timelineCurrentItems.
  assert (filter (λ item, isCurrent heap now item) filtered ++
          filter (λ item, ¬ isCurrent heap now item) filtered ≡ₚ filtered) as Hperm
    by apply filter_app_complement.
  split_and!.
  - intros item Hin. rewrite !list_elem_of_filter.
    destruct (isCurrent heap now item); simpl; tauto.
  - done.
  - by rewrite Hperm.
  - intros item Hin Hnan. rewrite !list_elem_of_filter.
    rewrite (isCurrent_unreadable now item Hnan). simpl. tauto.
Qed.

End timeline_split.

Lemma timeline_partition_witness :
  timelineCurrentItems (H := asciiRuntime) Examples.threeNotes 1777593600000
    [0%nat; 1%nat; 2%nat] ++
  timelineArchiveItems [0%nat; 1%nat; 2%nat]
    (timelineCurrentItems (H := asciiRuntime) Examples.threeNotes 1777593600000
       [0%nat; 1%nat; 2%nat])
  ≡ₚ [0%nat; 1%nat; 2%nat].
Proof.
  apply (timeline_partition (H := asciiRuntime) Examples.threeNotes 1777593600000
           [0%nat; 1%nat; 2%nat]).
  repeat constructor; rewrite ?elem_of_cons, ?elem_of_nil; lia.
Defined.

(** ** Grouping by date *)

Section js_map_facts.
Context {V : Type}.
Implicit Types (m : list (string * V)) (key : string).

Lemma Map_has_elem_of key m : Map_has key m = true ↔ key ∈ m.*1.
Proof.
  unfold Map_has. induction m as [|[k v] m IH]; simpl.
  - split; [discriminate | by intros ?%elem_of_nil].
  - rewrite orb_true_iff, IH, elem_of_cons, String.eqb_eq.
    split; (intros [?|?]; [left|right]); done.
Qed.

Lemma Map_set_fresh key (v : V) m :
  key ∉ m.*1 → Map_set key v m = m ++ [(key, v)].
Proof.
  induction m as [|[k w] m IH]; simpl; intros Hfresh; [done|].
  apply not_elem_of_cons in Hfresh as [Hne Hfresh].
  destruct (String.eqb_spec k key); [congruence|]. by rewrite IH.
Qed.

Lemma Map_update_present key (f : V → V) m :
  key ∈ m.*1 →
  ∃ m1 v m2, m = m1 ++ (key, v) :: m2 ∧ (key ∉ m1.*1) ∧
             Map_update key f m = m1 ++ (key, f v) :: m2.
Proof.
  induction m as [|[k w] m IH]; simpl; intros Hin.
  - by apply elem_of_nil in Hin.
  - destruct (String.eqb_spec k key) as [->|Hne].
    + exists [], w, m. split_and!; [done| |done]. apply not_elem_of_nil.
    + apply elem_of_cons in Hin as [?|Hin]; [congruence|].
      destruct (IH Hin) as (m1 & v & m2 & -> & Hfresh & ->).
      exists ((k, w) :: m1), v, m2. split_and!; [done| |done].
      simpl. apply not_elem_of_cons. auto.
Qed.

Lemma Map_entry_last key (v g : V) m m1 m2 :
  key ∉ m.*1 → key ∉ m1.*1 →
  m ++ [(key, v)] = m1 ++ (key, g) :: m2 → m1 = m ∧ g = v ∧ m2 = [].
Proof.
  revert m1. induction m as [|[k w] m IH]; intros m1 Hm Hm1 Heq.
  - destruct m1 as [|[k1 w1] m1]; simpl in *.
    + injection Heq as <- <-. done.
    + injection Heq as <- <- Heq. apply not_elem_of_cons in Hm1 as [? _]. done.
  - apply not_elem_of_cons in Hm as [Hne Hm].
    destruct m1 as [|[k1 w1] m1]; simpl in *.
    + injection Heq as -> -> Heq. done.
    + injection Heq as <- <- Heq. apply not_elem_of_cons in Hm1 as [_ Hm1].
      destruct (IH m1 Hm Hm1 Heq) as (-> & -> & ->). done.
Qed.

End js_map_facts.

Section grouping.
Context `{!Runtime}.
Context (heap : ref → TimelineItem.t).

(** One turn of the loop either extends the group of the key or opens a new
    group at the end. *)
Lemma groupTimeline_step_cases (m : list (string * list ref)) (item : ref) :
  ((groupKey heap item ∉ m.*1) ∧
   groupTimeline_step heap m item = m ++ [(groupKey heap item, [item])]) ∨
  (∃ m1 g m2, m = m1 ++ (groupKey heap item, g) :: m2 ∧
              (groupKey heap item ∉ m1.*1) ∧
              groupTimeline_step heap m item =
                m1 ++ (groupKey heap item, g ++ [item]) :: m2).
Proof.
  unfold groupTimeline_step.
  destruct (Map_has (groupKey heap item) m) eqn:Hhas; simpl.
  - right. apply Map_has_elem_of in Hhas.
    destruct (Map_update_present (groupKey heap item) (λ group, group ++ [item]) m Hhas)
      as (m1 & g & m2 & ? & ? & ?).
    by exists m1, g, m2.
  - left. assert (groupKey heap item ∉ m.*1) as Hfresh.
    { intros Hin%Map_has_elem_of. congruence. }
    split; [done|]. rewrite (Map_set_fresh _ _ _ Hfresh).
    destruct (Map_update_present (groupKey heap item) (λ group, group ++ [item])
                (m ++ [(groupKey heap item, [])]))
      as (m1 & g & m2 & Heq & Hm1 & ->).
    { rewrite fmap_app. set_solver. }
    by destruct (Map_entry_last _ _ _ _ _ _ Hfresh Hm1 Heq) as (-> & -> & ->).
Qed.

Lemma grouped_step (items : list ref) (m : list (string * list ref)) (item : ref) :
  grouped heap items m →
  grouped heap (items ++ [item]) (groupTimeline_step heap m item).
Proof.
  intros (Hnodup & Hperm & Hgroups & Hkeys).
  destruct (groupTimeline_step_cases m item)
    as [[Hfresh ->]|(m1 & g & m2 & -> & Hm1 & ->)].
  - split_and!.
    + rewrite fmap_app. simpl. apply NoDup_app. split_and!; [done| |apply NoDup_singleton].
      intros k Hk ->%list_elem_of_singleton. done.
    + rewrite fmap_app, concat_app. simpl. by rewrite Hperm.
    + intros k g [Hin|Heq%list_elem_of_singleton]%elem_of_app.
      * rewrite filter_app, filter_cons, filter_nil.
        rewrite decide_False; [rewrite app_nil_r; by apply Hgroups|].
        intros <-. apply Hfresh. apply list_elem_of_fmap. by exists (groupKey heap item, g).
      * injection Heq as -> ->.
        rewrite filter_app, filter_cons, filter_nil.
        rewrite decide_True by done.
        replace (filter (λ item0, groupKey heap item0 = groupKey heap item) items)
          with (@nil ref); [done|].
        symmetry. apply filter_none.
        intros x Hx Heq. apply Hfresh. rewrite <- Heq. by apply Hkeys.
    + intros x [Hx|Hx%list_elem_of_singleton]%elem_of_app; rewrite fmap_app.
      * apply elem_of_app. left. by apply Hkeys.
      * subst x. apply elem_of_app. right. simpl. left.
  - rewrite fmap_app in Hnodup. simpl in Hnodup.
    split_and!.
    + by rewrite fmap_app.
    + rewrite fmap_app, concat_app in Hperm |- *. simpl in *.
      rewrite <- Hperm, <- !app_assoc.
      do 2 apply Permutation_app_head.
      apply (Permutation_app_comm [item]).
    + intros k g' Hin.
      rewrite filter_app, filter_cons, filter_nil.
      apply elem_of_app in Hin as [Hin|Hin].
      * rewrite decide_False; [rewrite app_nil_r; apply Hgroups; set_solver|].
        intros <-. apply Hm1. apply list_elem_of_fmap. by exists (groupKey heap item, g').
      * apply elem_of_cons in Hin as [Heq|Hin].
        -- injection Heq as -> ->. rewrite decide_True by done.
           f_equal. apply Hgroups. set_solver.
        -- rewrite decide_False; [rewrite app_nil_r; apply Hgroups; set_solver|].
           intros <-. apply NoDup_app in Hnodup as (_ & _ & Hnodup).
           apply NoDup_cons in Hnodup as [Hnotin _]. apply Hnotin.
           apply list_elem_of_fmap. by exists (groupKey heap item, g').
    + intros x [Hx|Hx%list_elem_of_singleton]%elem_of_app.
      * specialize (Hkeys x Hx). by rewrite fmap_app in Hkeys |- *.
      * subst x. rewrite fmap_app. apply elem_of_app. right. simpl. left.
Qed.

Lemma grouped_fold (items seen : list ref) (m : list (string * list ref)) :
  grouped heap seen m →
  grouped heap (seen ++ items) (fold_left (groupTimeline_step heap) items m).
Proof.
  revert seen m. induction items as [|item items IH]; intros seen m Hm; simpl.
  - by rewrite app_nil_r.
  - rewrite (assoc_L (++) seen [item] items : seen ++ item :: items = _).
    by apply IH, grouped_step.
Qed.

(** C10: [groupTimelineByDate] keeps content and order.  The groups together
    hold the input items, each as often as the input does; the items of the
    group with key [k] are, in input order, the input items whose [date_iso]
    is [k], or is empty if [k] is ["Unbekannt"]; no key occurs twice; and an
    item of the group with key [k] has a [date_iso] that is not empty and
    equal to [k], or an empty [date_iso] with [k] being ["Unbekannt"]. *)
Theorem groupTimelineByDate_spec (items : list ref) :
  concat (groupTimelineByDate heap items).*2 ≡ₚ items ∧
  (∀ k g, (k, g) ∈ groupTimelineByDate heap items →
     g = filter (λ item,
                   (if String.eqb (TimelineItem.date_iso (heap item)) ""
                    then "Unbekannt" else TimelineItem.date_iso (heap item)) = k)
           items) ∧
  NoDup (groupTimelineByDate heap items).*1 ∧
  (∀ k g item, (k, g) ∈ groupTimelineByDate heap items → item ∈ g →
     (TimelineItem.date_iso (heap item) ≠ "" ∧ TimelineItem.date_iso (heap item) = k) ∨
     (TimelineItem.date_iso (heap item) = "" ∧ k = "Unbekannt")) ∧
  (∀ item, item ∈ items → TimelineItem.date_iso (heap item) = "" →
     ∃ g, ("Unbekannt", g) ∈ groupTimelineByDate heap items ∧ item ∈ g).
Proof.
  assert (grouped heap items (groupTimelineByDate heap items))
    as (Hnodup & Hperm & Hgroups & Hkeys).
  { apply (grouped_fold items [] []). split_and!; try done.
    - constructor.
    - intros k g Hin. by apply elem_of_nil in Hin.
    - intros item Hin. by apply elem_of_nil in Hin. }
  split_and!; [done|exact Hgroups|done| |].
  - intros k g item Hin Hitem. rewrite (Hgroups k g Hin) in Hitem.
    apply list_elem_of_filter in Hitem as [<- _]. unfold groupKey, or_else.
    destruct (String.eqb_spec (TimelineItem.date_iso (heap item)) ""); auto.
  - intros item Hitem Hempty.
    pose proof (Hkeys item Hitem) as Hkey.
    apply list_elem_of_fmap in Hkey as ([k g] & Hk & Hentry). simpl in Hk.
    assert (k = "Unbekannt") as ->.
    { rewrite <- Hk. unfold groupKey, or_else. by rewrite Hempty. }
    exists g. split; [done|]. rewrite (Hgroups _ g Hentry).
    apply list_elem_of_filter. split; [|done].
    unfold groupKey, or_else. by rewrite Hempty.
Qed.

End grouping.

(** ** The HTTP wrapper *)

Section api_facts.
Context `{!Runtime}.

Lemma apiCall_catch_ApiError (t : Z) (error : thrown) :
  ∃ e, apiCall_catch t error = ThrownApiError e.
Proof.
  unfold apiCall_catch. case_bool_decide; [by eexists|].
  destruct error; by eexists.
Qed.

Lemma apiCall_catch_abort (t : Z) :
  ∃ e, apiCall_catch t AbortError = ThrownApiError e ∧ ApiError.isTimeout e = true.
Proof. unfold apiCall_catch, AbortError, thrown_name. case_bool_decide; [by eexists|done]. Qed.

Lemma apiCall_catch_rethrow (t : Z) (e : ApiError.t) :
  apiCall_catch t (ThrownApiError e) = ThrownApiError e.
Proof. unfold apiCall_catch, thrown_name. by case_bool_decide. Qed.

Lemma failureMessage_not_null (body : json) (status : Z) :
  body ≠ JNull → ∃ message, failureMessage body status = Fulfilled message.
Proof.
  intros Hbody. unfold failureMessage.
  destruct body; try done; simpl; repeat case_match; by eexists.
Qed.

(** How a call that resolves came about. *)
Lemma apiCall_Fulfilled (x : Exchange) (options : ApiCallOptions.t) (r : ApiResult.t) :
  apiCall x options = Fulfilled r →
  ∃ t0 resp t raw,
    fetch (effective_signal options) x = (t0, Fulfilled resp) ∧
    Response.ok resp = true ∧
    Response.text resp = (t, Fulfilled raw) ∧
    r = {| ApiResult.data := parseResponse raw;
           ApiResult.latencyMs := latency t;
           ApiResult.status := Response.status resp |}.
Proof.
  unfold apiCall, apiCall_try.
  destruct (fetch (effective_signal options) x) as [t0 [resp|e]]; [|done].
  destruct (Response.text resp) as [t [raw|e]] eqn:Htext; [|done].
  destruct (Response.ok resp) eqn:Hok; simpl.
  - intros [= <-]. by exists t0, resp, t, raw.
  - by destruct (failureMessage _ _).
Qed.

Lemma apiCall_timedOut (x : Exchange) (options : ApiCallOptions.t) :
  timedOut x options →
  ∃ e, apiCall x options = Rejected (ThrownApiError e) ∧ ApiError.isTimeout e = true.
Proof.
  intros [Hsig Htime]. unfold apiCall, apiCall_try, fetch, effective_signal.
  rewrite Hsig. simpl.
  destruct (Z.leb_spec (Z.max 0 (effective_timeout options)) (head_at x)) as [Hh|Hh].
  - destruct (apiCall_catch_abort (abort_time (Some (Z.max 0 (effective_timeout options)))))
      as (e & -> & ?). by exists e.
  - destruct Htime as [?|[[[ok status] Hhead] Hb]]; [lia|].
    rewrite Hhead. simpl.
    destruct (Z.leb_spec (Z.max 0 (effective_timeout options)) (body_at x)); [|lia].
    destruct (apiCall_catch_abort (abort_time (Some (Z.max 0 (effective_timeout options)))))
      as (e & -> & ?). by exists e.
Qed.

Lemma apiCall_nonOk (x : Exchange) (options : ApiCallOptions.t)
    (t0 t : Z) (resp : Response.t) (raw : string) :
  fetch (effective_signal options) x = (t0, Fulfilled resp) →
  Response.ok resp = false →
  Response.text resp = (t, Fulfilled raw) →
  parseResponse raw ≠ JNull →
  ∃ e, apiCall x options = Rejected (ThrownApiError e) ∧
       ApiError.status e = Some (Response.status resp) ∧
       ApiError.isTimeout e = false.
Proof.
  intros Hfetch Hok Htext Hbody. unfold apiCall, apiCall_try.
  rewrite Hfetch, Htext, Hok. simpl.
  destruct (failureMessage_not_null _ (Response.status resp) Hbody) as [message ->].
  rewrite apiCall_catch_rethrow. by eexists.
Qed.

(** C3, as amended: a call through [apiCall] either resolves with the parsed
    body of a response that is OK, or rejects with an [ApiError]; when the
    configured timeout (15000 ms unless given) aborts the request, the
    [ApiError] has [isTimeout = true]; and a response that is not OK, whose
    body is read before any abort and does not parse to [null], rejects with
    an [ApiError] that carries the status of the response. *)
Theorem apiCall_spec (x : Exchange) (options : ApiCallOptions.t) :
  ((∃ t0 resp t raw,
      fetch (effective_signal options) x = (t0, Fulfilled resp) ∧
      Response.ok resp = true ∧
      Response.text resp = (t, Fulfilled raw) ∧
      apiCall x options =
        Fulfilled {| ApiResult.data := parseResponse raw;
                     ApiResult.latencyMs := latency t;
                     ApiResult.status := Response.status resp |}) ∨
   (∃ e, apiCall x options = Rejected (ThrownApiError e))) ∧
  effective_timeout
    {| ApiCallOptions.timeoutMs := None;
       ApiCallOptions.signal := ApiCallOptions.signal options |} = 15000 ∧
  (timedOut x options →
   ∃ e, apiCall x options = Rejected (ThrownApiError e) ∧ ApiError.isTimeout e = true) ∧
  (∀ t0 resp t raw,
     fetch (effective_signal options) x = (t0, Fulfilled resp) →
     Response.ok resp = false →
     Response.text resp = (t, Fulfilled raw) →
     parseResponse raw ≠ JNull →
     ∃ e, apiCall x options = Rejected (ThrownApiError e) ∧
          ApiError.status e = Some (Response.status resp)).
Proof.
  split_and!.
  - destruct (apiCall x options) as [r|error] eqn:Hcall.
    + left. destruct (apiCall_Fulfilled _ _ _ Hcall) as (t0 & resp & t & raw & ? & ? & ? & ->).
      by exists t0, resp, t, raw.
    + right. unfold apiCall in Hcall.
      destruct (apiCall_try _ _) as [t [r|error']]; [done|].
      injection Hcall as <-.
      destruct (apiCall_catch_ApiError t error') as [e ->]. by exists e.
  - done.
  - apply apiCall_timedOut.
  - intros t0 resp t raw Hfetch Hok Htext Hbody.
    destruct (apiCall_nonOk _ _ _ _ _ _ Hfetch Hok Htext Hbody) as (e & ? & ? & ?).
    by exists e.
Qed.

End api_facts.

Lemma apiCall_spec_witness :
  (∃ e, apiCall (H := asciiRuntime) Examples.slowFailure Examples.defaults =
          Rejected (ThrownApiError e) ∧ ApiError.isTimeout e = true) ∧
  (∃ e, apiCall (H := asciiRuntime) Examples.notFound Examples.defaults =
          Rejected (ThrownApiError e) ∧ ApiError.status e = Some 404).
Proof.
  split.
  - apply (apiCall_spec (H := asciiRuntime) Examples.slowFailure Examples.defaults).
    split; [reflexivity|]. right. split; [by eexists|]. vm_compute. discriminate.
  - refine (proj2 (proj2 (proj2
      (apiCall_spec (H := asciiRuntime) Examples.notFound Examples.defaults)))
      80 _ 120 _ eq_refl eq_refl eq_refl _).
    vm_compute. discriminate.
Defined.

(** The 404 of the example carries the [detail] of its body as message. *)
Example apiCall_notFound :
  apiCall (H := asciiRuntime) Examples.notFound Examples.defaults =
  Rejected (ThrownApiError {| ApiError.message := "Not found";
                              ApiError.status := Some 404;
                              ApiError.isTimeout := false;
                              ApiError.latencyMs := Some 120 |}).
Proof. vm_compute. reflexivity. Qed.

(** C3, as stated, fails: a 500 whose body is cut off by the timeout rejects
    with the timeout error, which carries no status; and a 500 whose body is
    [null] rejects with the error of reading [null.detail], without status. *)
Lemma apiCall_nonOk_without_status :
  ¬ nonOkCarriesStatus (H := asciiRuntime) Examples.slowFailure Examples.defaults ∧
  ¬ nonOkCarriesStatus (H := asciiRuntime) Examples.nullFailure Examples.defaults.
Proof.
  split; intros Hclaim.
  - destruct (Hclaim 100 _ eq_refl eq_refl) as (e & Hcall & Hstatus).
    vm_compute in Hcall. injection Hcall as <-. discriminate.
  - destruct (Hclaim 100 _ eq_refl eq_refl) as (e & Hcall & Hstatus).
    vm_compute in Hcall. injection Hcall as <-. discriminate.
Qed.

Example apiCall_slowFailure :
  apiCall (H := asciiRuntime) Examples.slowFailure Examples.defaults =
  Rejected (ThrownApiError
    {| ApiError.message := "Zeitüberschreitung der Anfrage. Bitte erneut versuchen.";
       ApiError.status := None;
       ApiError.isTimeout := true;
       ApiError.latencyMs := Some 15000 |}).
Proof. vm_compute. reflexivity. Qed.

Example apiCall_nullFailure :
  apiCall (H := asciiRuntime) Examples.nullFailure Examples.defaults =
  Rejected (ThrownApiError
    {| ApiError.message := "Cannot read properties of null (reading 'detail')";
       ApiError.status := None;
       ApiError.isTimeout := false;
       ApiError.latencyMs := Some 150 |}).
Proof. vm_compute. reflexivity. Qed.

(** ** Handlers *)

Lemma exec_bind {A B} (m : Handler A) (f : A → Handler B) (st : AppState) :
  exec (m ≫= f) st = exec (f (m st).1) (m st).2.
Proof. unfold exec, mbind, Handler_bind. by destruct (m st). Qed.

Lemma exec_ret {A} (a : A) (st : AppState) : exec (mret a) st = st.
Proof. done. Qed.

(** ** The chat handler *)

Section chat_facts.
Context `{!Runtime}.


Lemma askChat_settle_null (st : AppState) :
  (askChat_settle (Fulfilled None) st).1 = RenderThrows (readOfNull "answer") ∧
  chatHistory (chat (exec (askChat_settle (Fulfilled None)) st)) = chatHistory (chat st).
Proof. done. Qed.



End chat_facts.



(** ** The mirror in [localStorage] *)

Section storage_facts.
Context `{!Runtime}.

Lemma chatHistoryKey_fresh (id : Z) :
  chatHistoryKey id ≠ BASE_KEY ∧ chatHistoryKey id ≠ LANGUAGE_KEY ∧
  chatHistoryKey id ≠ ACTIVE_PROPERTY_KEY ∧ chatHistoryKey id ≠ AUTH_TOKEN_KEY.
Proof.
  assert (∃ rest, chatHistoryKey id = String "n" (String "d" (String "i" (String "a"
            (String "h" (String "_" (String "c" rest))))))) as [rest ->]
    by (eexists; reflexivity).
  split_and!; discriminate.
Qed.

Lemma runs_elem_of (mounting : bool) (changed deps : list Dep) (d : Dep) :
  d ∈ changed → d ∈ deps → runs mounting changed deps = true.
Proof.
  intros Hc Hd. unfold runs. apply orb_true_iff. right.
  apply existsb_exists. exists d. split; [by apply list_elem_of_In|].
  by apply bool_decide_eq_true.
Qed.

Lemma when_other (b : bool) (effect : gmap string string → gmap string string)
    (ls : gmap string string) (key : string) :
  (∀ l, effect l !! key = l !! key) → when b effect ls !! key = ls !! key.
Proof. intros Hother. by destruct b. Qed.

Lemma effect_apiBase_other (st : AppState) (ls : gmap string string) (key : string) :
  key ≠ BASE_KEY → effect_apiBase st ls !! key = ls !! key.
Proof. intros. unfold effect_apiBase. by rewrite lookup_insert_ne. Qed.

Lemma effect_language_other (st : AppState) (ls : gmap string string) (key : string) :
  key ≠ LANGUAGE_KEY → effect_language st ls !! key = ls !! key.
Proof. intros. unfold effect_language. by rewrite lookup_insert_ne. Qed.

Lemma effect_boot_other (ls : gmap string string) (key : string) :
  key ≠ AUTH_TOKEN_KEY → effect_boot ls !! key = ls !! key.
Proof. intros. unfold effect_boot. by rewrite lookup_delete_ne. Qed.

Lemma effect_activeProperty_lookup (st : AppState) (ls : gmap string string) :
  effect_activeProperty st ls !! ACTIVE_PROPERTY_KEY =
  pretty <$> activePropertyId (session st).
Proof.
  unfold effect_activeProperty. destruct (activePropertyId (session st)); simpl.
  - by rewrite lookup_insert_eq.
  - by rewrite lookup_delete_eq.
Qed.

Lemma effect_activeProperty_other (st : AppState) (ls : gmap string string) (key : string) :
  key ≠ ACTIVE_PROPERTY_KEY → effect_activeProperty st ls !! key = ls !! key.
Proof.
  intros Hkey. unfold effect_activeProperty.
  destruct (activePropertyId (session st)).
  - by rewrite lookup_insert_ne.
  - by rewrite lookup_delete_ne.
Qed.

Lemma effect_saveHistory_lookup (st : AppState) (ls : gmap string string) (id : Z) :
  activePropertyId (session st) = Some id → id ≠ 0 →
  effect_saveHistory st ls !! chatHistoryKey id =
  Some (JSON_stringify_history (chatHistory (chat st))).
Proof.
  intros Hid Hnz. unfold effect_saveHistory. rewrite Hid. simpl.
  destruct (Z.eqb_spec id 0); [done|]. simpl. by rewrite lookup_insert_eq.
Qed.

Lemma effect_saveHistory_other (st : AppState) (ls : gmap string string) (key : string) :
  (∀ id, key ≠ chatHistoryKey id) → effect_saveHistory st ls !! key = ls !! key.
Proof.
  intros Hkey. unfold effect_saveHistory.
  destruct (activePropertyId (session st)) as [id|]; [|done].
  destruct (selected (Some id)); [|done]. by rewrite lookup_insert_ne.
Qed.

Lemma fixed_key_not_chatHistoryKey (key : string) :
  key ∈ [BASE_KEY; LANGUAGE_KEY; ACTIVE_PROPERTY_KEY; AUTH_TOKEN_KEY] →
  ∀ id, key ≠ chatHistoryKey id.
Proof.
  intros Hkey id. destruct (chatHistoryKey_fresh id) as (? & ? & ? & ?).
  rewrite !elem_of_cons, elem_of_nil in Hkey. intuition congruence.
Qed.

Lemma commit_session (mounting : bool) (changed : list Dep)
    (st : AppState) (ls : gmap string string) :
  session (commit mounting changed st ls).1 = session st.
Proof. unfold commit, when. simpl. by case_match. Qed.

(** The storage after a commit, key by key: the effects that write other
    keys are stepped over, last effect first. *)
Ltac skip_effects :=
  repeat first
    [ rewrite when_other
        by (intros; apply effect_saveHistory_other, fixed_key_not_chatHistoryKey;
            set_solver)
    | rewrite when_other by (by intros; apply effect_activeProperty_other)
    | rewrite when_other by (by intros; apply effect_boot_other)
    | rewrite when_other by (by intros; apply effect_language_other) ].

Lemma commit_lookup_base (mounting : bool) (changed : list Dep)
    (st : AppState) (ls : gmap string string) :
  runs mounting changed [DepApiBase] = true →
  (commit mounting changed st ls).2 !! BASE_KEY = Some (apiBase (session st)).
Proof.
  intros Hruns. unfold commit. cbn [snd]. rewrite Hruns.
  skip_effects. apply lookup_insert_eq.
Qed.

Lemma commit_lookup_language (mounting : bool) (changed : list Dep)
    (st : AppState) (ls : gmap string string) :
  runs mounting changed [DepLanguage] = true →
  (commit mounting changed st ls).2 !! LANGUAGE_KEY =
  Some (languageCode (selectedLanguage (session st))).
Proof.
  intros Hruns. unfold commit. cbn [snd]. rewrite Hruns.
  skip_effects. apply lookup_insert_eq.
Qed.

Lemma commit_lookup_activeProperty (mounting : bool) (changed : list Dep)
    (st : AppState) (ls : gmap string string) :
  runs mounting changed [DepActiveProperty] = true →
  (commit mounting changed st ls).2 !! ACTIVE_PROPERTY_KEY =
  pretty <$> activePropertyId (session st).
Proof.
  intros Hruns. unfold commit. cbn [snd]. rewrite Hruns.
  skip_effects. apply effect_activeProperty_lookup.
Qed.

Lemma commit_lookup_history (mounting : bool) (changed : list Dep)
    (st : AppState) (ls : gmap string string) (id : Z) :
  runs mounting changed [DepChatHistory; DepActiveProperty] = true →
  activePropertyId (session st) = Some id → id ≠ 0 →
  (commit mounting changed st ls).2 !! chatHistoryKey id =
  Some (JSON_stringify_history (chatHistory (chat st))).
Proof.
  intros Hruns Hid Hnz. unfold commit. cbn [snd]. rewrite Hruns.
  by apply effect_saveHistory_lookup.
Qed.

(** The history that the mounting commit loads is read from the storage as
    the saving effect of the same commit left it. *)
Lemma commit_mount_history (st : AppState) (ls : gmap string string) :
  chatHistory (chat (commit true [] st ls).1) =
  effect_loadHistory st (commit true [] st ls).2.
Proof. reflexivity. Qed.

(** The slip in the order of the effects: at start-up the saving effect runs
    before the loading effect, with the empty history of the first render, so
    that the stored history of the selected property is overwritten before it
    is read: what start-up loads and stores again is the empty history as
    the storage gives it back. *)
Lemma startup_overwrites_history (ls : gmap string string) (id : Z) :
  init_activePropertyId ls = Some id → id ≠ 0 →
  chatHistory (chat (startup ls).1) =
    (if String.eqb (JSON_stringify_history []) "" then []
     else default [] (JSON_parse_history (JSON_stringify_history []))) ∧
  (startup ls).2 !! chatHistoryKey id =
    Some (JSON_stringify_history (chatHistory (chat (startup ls).1))).
Proof.
  intros Hid Hnz.
  pose proof (commit_lookup_history true [] (initialState ls) ls id eq_refl Hid Hnz)
    as Hsaved.
  pose proof (commit_mount_history (initialState ls) ls) as Hloaded.
  pose proof (commit_session true [] (initialState ls) ls) as Hsession.
  unfold startup.
  destruct (commit true [] (initialState ls) ls) as [st1 ls1].
  cbn [fst snd] in *.
  assert (chatHistory (chat st1) =
          (if String.eqb (JSON_stringify_history []) "" then []
           else default [] (JSON_parse_history (JSON_stringify_history [])))) as Hhist.
  { rewrite Hloaded. unfold effect_loadHistory.
    change (activePropertyId (session (initialState ls)))
      with (init_activePropertyId ls).
    rewrite Hid. simpl selected. destruct (Z.eqb_spec id 0); [done|].
    simpl negb. cbv iota. by rewrite Hsaved. }
  split; [done|].
  rewrite commit_lookup_history with (id := id); [done..| |done].
  by rewrite Hsession.
Qed.

(** C5, as amended: the front end mirrors four values in [localStorage].
    After a change of the API base URL, of the language, or of the selected
    property, the commit writes the value under its key (and removes the key
    of the property when none is selected); after a change of the chat history
    while a property is selected, it writes the history under the key of that
    property.  At start-up the API base URL, the language and the selected
    property are initialised from the stored values. *)
Theorem storage_mirror (mounting : bool) (changed : list Dep)
    (st : AppState) (ls : gmap string string) :
  (DepApiBase ∈ changed →
   (commit mounting changed st ls).2 !! BASE_KEY = Some (apiBase (session st))) ∧
  (DepLanguage ∈ changed →
   (commit mounting changed st ls).2 !! LANGUAGE_KEY =
     Some (languageCode (selectedLanguage (session st)))) ∧
  (DepActiveProperty ∈ changed →
   (commit mounting changed st ls).2 !! ACTIVE_PROPERTY_KEY =
     pretty <$> activePropertyId (session st)) ∧
  (DepChatHistory ∈ changed →
   ∀ id, activePropertyId (session st) = Some id → id ≠ 0 →
     (commit mounting changed st ls).2 !! chatHistoryKey id =
       Some (JSON_stringify_history (chatHistory (chat st)))) ∧
  apiBase (session (startup ls).1) =
    stripTrailingSlashes (opt_or_else (ls !! BASE_KEY) DEFAULT_API_BASE) ∧
  selectedLanguage (session (startup ls).1) = parseLanguage (ls !! LANGUAGE_KEY) ∧
  (ls !! ACTIVE_PROPERTY_KEY = None → activePropertyId (session (startup ls).1) = None) ∧
  (∀ raw, ls !! ACTIVE_PROPERTY_KEY = Some raw → raw ≠ "" →
     activePropertyId (session (startup ls).1) = Number_finite raw).
Proof.
  assert (session (startup ls).1 = session (initialState ls)) as Hstart.
  { pose proof (commit_session true [] (initialState ls) ls) as Hsession.
    unfold startup.
    destruct (commit true [] (initialState ls) ls) as [st1 ls1].
    rewrite commit_session. exact Hsession. }
  rewrite Hstart. split_and!.
  - intros Hdep. apply commit_lookup_base. eapply runs_elem_of; [done|set_solver].
  - intros Hdep. apply commit_lookup_language. eapply runs_elem_of; [done|set_solver].
  - intros Hdep. apply commit_lookup_activeProperty.
    eapply runs_elem_of; [done|set_solver].
  - intros Hdep id Hid Hnz. apply commit_lookup_history; [|done..].
    eapply runs_elem_of; [done|set_solver].
  - done.
  - done.
  - intros Hnone. simpl. unfold init_activePropertyId. by rewrite Hnone.
  - intros raw Hraw Hne. simpl. unfold init_activePropertyId. rewrite Hraw.
    by destruct (String.eqb_spec raw "").
Qed.

End storage_facts.

Lemma storage_mirror_witness :
  (commit (H := asciiRuntime) false [DepChatHistory]
     (exec (askChat (H := asciiRuntime) " Hallo " (Rejected Examples.offline))
        (startup (H := asciiRuntime) Examples.returningUser).1)
     (startup (H := asciiRuntime) Examples.returningUser).2).2
    !! chatHistoryKey 5 =
  Some (JSON_stringify_history (Runtime := asciiRuntime)
          (chatHistory (chat
             (exec (askChat (H := asciiRuntime) " Hallo " (Rejected Examples.offline))
                (startup (H := asciiRuntime) Examples.returningUser).1)))).
Proof.
  apply (storage_mirror (H := asciiRuntime) false [DepChatHistory]).
  - set_solver.
  - reflexivity.
  - discriminate.
Defined.

(** C5, as stated, fails: start-up writes a fourth key, that of the language;
    and the history stored for the selected property is not restored but
    overwritten by the empty history. *)
Lemma storage_mirror_not_three :
  ¬ writesOnlyMirroredKeys (H := asciiRuntime) Examples.returningUser ∧
  ¬ restoresHistory (H := asciiRuntime) Examples.returningUser ∧
  (startup (H := asciiRuntime) Examples.returningUser).2 !! chatHistoryKey 5 = Some "[]".
Proof.
  split_and!.
  - intros Hclaim.
    destruct (Hclaim 5 LANGUAGE_KEY) as [Hin|Hin].
    + reflexivity.
    + apply elem_of_dom. exists "de". vm_compute. reflexivity.
    + apply elem_of_dom in Hin as [v Hv]. vm_compute in Hv. discriminate.
    + unfold mirroredKeys in Hin. rewrite !elem_of_union, !elem_of_singleton in Hin.
      destruct (chatHistoryKey_fresh 5) as (_ & ? & _).
      destruct Hin as [[Hin|Hin]|Hin]; [discriminate..|congruence].
  - intros Hclaim.
    specialize (Hclaim 5 _ [Examples.greeting] eq_refl eq_refl eq_refl eq_refl).
    vm_compute in Hclaim. discriminate.
  - vm_compute. reflexivity.
Qed.

(** ** Documents and their status *)

Lemma defaultStatuses_lookup
    (docs : list DocumentItem.t) (prev : gmap Z DocumentStatus) (id : Z) :
  defaultStatuses docs prev !! id =
  match prev !! id with
  | Some s => Some s
  | None => if bool_decide (id ∈ DocumentItem.document_id <$> docs)
            then Some doc_indexed else None
  end.
Proof.
  unfold defaultStatuses. revert prev.
  induction docs as [|doc docs IH]; intros prev; simpl.
  - by destruct (prev !! id).
  - rewrite IH. clear IH.
    destruct (prev !! DocumentItem.document_id doc) as [s|] eqn:Hdoc.
    + destruct (prev !! id) as [s'|] eqn:Hid; [done|].
      assert (id ≠ DocumentItem.document_id doc) by congruence.
      repeat case_bool_decide; try done; rewrite elem_of_cons in *; tauto.
    + destruct (decide (id = DocumentItem.document_id doc)) as [->|Hne].
      * rewrite lookup_insert_eq, Hdoc.
        by rewrite bool_decide_eq_true_2 by left.
      * rewrite lookup_insert_ne by done.
        destruct (prev !! id); [done|].
        repeat case_bool_decide; try done; rewrite elem_of_cons in *; tauto.
Qed.

Lemma loadDocuments_Fulfilled (docs : list DocumentItem.t) (st : AppState) :
  is_Some (currentUser (session st)) →
  selected (activePropertyId (session st)) = true →
  documents (upload (exec (loadDocuments (Fulfilled (Some docs))) st)) = docs ∧
  documentStatuses (upload (exec (loadDocuments (Fulfilled (Some docs))) st)) =
    defaultStatuses docs (documentStatuses (upload st)).
Proof.
  intros Huser Hsel. unfold loadDocuments. rewrite exec_bind.
  cbn [get_state fst snd]. rewrite Hsel, bool_decide_eq_true_2 by done. done.
Qed.

(** C7, as amended: the [DocumentItem] that the server sends carries
    [document_id], [property_id], [filename] and, optionally, [uploaded_at],
    and no status.  The status is client state, kept per document id: when
    [loadDocuments] succeeds, the documents are stored as received and every
    one of them is shown with the status the client already held for its id,
    or with [indexed] if it held none. *)
Theorem loadDocuments_statuses (docs : list DocumentItem.t) (st : AppState) :
  is_Some (currentUser (session st)) →
  selected (activePropertyId (session st)) = true →
  ("status" ∉ DocumentItem_properties) ∧
  documents (upload (exec (loadDocuments (Fulfilled (Some docs))) st)) = docs ∧
  (∀ doc, doc ∈ docs →
     is_Some (documentStatuses (upload (exec (loadDocuments (Fulfilled (Some docs))) st))
                !! DocumentItem.document_id doc) ∧
     shownStatus
       (documentStatuses (upload (exec (loadDocuments (Fulfilled (Some docs))) st))) doc =
     default doc_indexed (documentStatuses (upload st) !! DocumentItem.document_id doc)).
Proof.
  intros Huser Hsel.
  destruct (loadDocuments_Fulfilled docs st Huser Hsel) as [Hdocs Hstatuses].
  split_and!.
  - unfold DocumentItem_properties. rewrite !elem_of_cons, elem_of_nil.
    intuition discriminate.
  - done.
  - intros doc Hdoc. unfold shownStatus.
    rewrite Hstatuses, defaultStatuses_lookup.
    destruct (documentStatuses (upload st) !! DocumentItem.document_id doc); [by eauto|].
    rewrite bool_decide_eq_true_2; [by eauto|].
    apply list_elem_of_fmap. by exists doc.
Qed.

Lemma loadDocuments_statuses_witness :
  shownStatus
    (documentStatuses
       (upload (exec (loadDocuments (Fulfilled (Some [Examples.statement])))
                  (exec (setCurrentUser (Some Examples.tenant))
                     (startup (H := asciiRuntime) Examples.returningUser).1))))
    Examples.statement = doc_indexed.
Proof.
  apply (loadDocuments_statuses [Examples.statement]
           (exec (setCurrentUser (Some Examples.tenant))
              (startup (H := asciiRuntime) Examples.returningUser).1)).
  - by eexists.
  - reflexivity.
  - left.
Defined.

(** C7, as stated, fails: the type declares no [status], and the status
    shown for one and the same document differs with the client state. *)
Lemma document_without_status :
  ("status" ∉ DocumentItem_properties) ∧ ¬ statusCarriedByDocument.
Proof.
  split.
  - unfold DocumentItem_properties. rewrite !elem_of_cons, elem_of_nil.
    intuition discriminate.
  - intros [status Hstatus].
    pose proof (Hstatus ∅ Examples.statement) as H1.
    pose proof (Hstatus {[7 := doc_error]} Examples.statement) as H2.
    rewrite <- H1 in H2. vm_compute in H2. discriminate.
Qed.

(** ** Client-side constraints *)

Section client_facts.
Context `{!Runtime}.

Lemma Map_set_values {V} (key : string) (v x : V) (m : list (string * V)) :
  x ∈ (Map_set key v m).*2 → x = v ∨ x ∈ m.*2.
Proof.
  induction m as [|[k w] m IH]; simpl.
  - intros ?%list_elem_of_singleton. by left.
  - destruct (String.eqb k key); simpl; rewrite !elem_of_cons; intuition.
Qed.

Lemma mergeFiles_fold (files : list File.t) (m : list (string * File.t)) (x : File.t) :
  x ∈ (fold_left (λ m f, Map_set (fileKey f) f m) files m).*2 →
  x ∈ files ∨ x ∈ m.*2.
Proof.
  revert m. induction files as [|file files IH]; intros m; simpl; [by right|].
  intros [Hin|[->|Hin]%Map_set_values]%IH.
  - left. by right.
  - left. by left.
  - by right.
Qed.

Lemma mergeFiles_elem_of (prev valid : list File.t) (x : File.t) :
  x ∈ mergeFiles prev valid → x ∈ prev ∨ x ∈ valid.
Proof.
  unfold mergeFiles. intros [Hin|[Hin|Hin]%mergeFiles_fold]%mergeFiles_fold; auto.
  by apply elem_of_nil in Hin.
Qed.

Lemma addFiles_selectedFiles (files : list File.t) (st : AppState) :
  selectedFiles (upload (exec (addFiles files) st)) =
  mergeFiles (selectedFiles (upload st)) (valid (validateFiles files)).
Proof.
  unfold addFiles. rewrite !exec_bind. cbn [fst snd].
  by destruct (0 <? length (errors (validateFiles files)))%nat.
Qed.

(** C6, as amended: what the server sends is kept as received (the document
    list is stored unchanged, and the filtered timeline consists of the very
    items that were loaded, categories being normalised on reading only), but
    the client does maintain a validation constraint of its own: every
    selected file is a PDF or a ZIP of at most 20 * 1024 * 1024 bytes, and
    comes from the previous selection or from the files offered. *)
Theorem client_state_constraints
    (st : AppState) (files : list File.t) (docs : list DocumentItem.t)
    (heap : ref → TimelineItem.t) (timelineItems : list ref)
    (timelineCategory timelineSearch : string) :
  Forall (λ file, acceptable file) (selectedFiles (upload st)) →
  Forall (λ file, acceptable file) (selectedFiles (upload (exec (addFiles files) st))) ∧
  (∀ file, file ∈ selectedFiles (upload (exec (addFiles files) st)) →
           file ∈ selectedFiles (upload st) ∨ file ∈ files) ∧
  (is_Some (currentUser (session st)) →
   selected (activePropertyId (session st)) = true →
   documents (upload (exec (loadDocuments (Fulfilled (Some docs))) st)) = docs) ∧
  (∀ item, item ∈ filteredTimeline heap timelineItems timelineCategory timelineSearch →
           item ∈ timelineItems).
Proof.
  intros Hprev. rewrite addFiles_selectedFiles.
  assert (valid (validateFiles files) = filter (λ f, acceptable f) files) as Hvalid.
  { unfold validateFiles. by rewrite validateFiles_fold. }
  split_and!.
  - apply Forall_forall. intros file [Hin|Hin]%mergeFiles_elem_of.
    + by eapply Forall_forall in Hprev.
    + rewrite Hvalid in Hin. by apply list_elem_of_filter in Hin as [? _].
  - intros file [Hin|Hin]%mergeFiles_elem_of; [by left|].
    right. rewrite Hvalid in Hin. by apply list_elem_of_filter in Hin as [_ ?].
  - intros Huser Hsel. by apply loadDocuments_Fulfilled.
  - intros item Hin. rewrite filteredTimeline_Permutation in Hin.
    by apply list_elem_of_filter in Hin as [_ ?].
Qed.

End client_facts.

Lemma client_state_constraints_witness :
  Forall (λ file, acceptable (H := asciiRuntime) file)
    (selectedFiles (upload (exec (addFiles (H := asciiRuntime)
                                    [Examples.notes; Examples.scan])
                              (initialState (H := asciiRuntime) ∅)))).
Proof.
  apply (client_state_constraints (H := asciiRuntime)
           (initialState (H := asciiRuntime) ∅) [Examples.notes; Examples.scan] []
           Examples.twoItems [] "" "").
  simpl. constructor.
Defined.

(** C6, as stated, fails: a text file that is offered is not selected, so
    the client does validate; and after a request that failed the chat
    history holds two messages, none of which the server sent. *)
Lemma client_validates_and_authors :
  ¬ keepsEveryFile (H := asciiRuntime) (initialState (H := asciiRuntime) ∅)
      [Examples.notes] ∧
  ¬ historyFromServer []
      (exec (askChat (H := asciiRuntime) " Hallo " (Rejected Examples.offline))
         (startup (H := asciiRuntime) Examples.returningUser).1).
Proof.
  split.
  - intros Hclaim. specialize (Hclaim Examples.notes ltac:(left)).
    vm_compute in Hclaim. by apply elem_of_nil in Hclaim.
  - intros Hclaim.
    destruct (Hclaim {| ChatMessage.id := "id-0"; ChatMessage.role := role_user;
                        ChatMessage.text := "Hallo"; ChatMessage.sources := None;
                        ChatMessage.sourceDetails := None |}) as (r & Hr & _).
    + vm_compute. left.
    + by apply elem_of_nil in Hr.
Qed.

(** * Further properties of the code *)

(** ** Categories and priorities *)

Lemma normalizeCategory_or_else (category : string) :
  normalizeCategory (or_else category "info") = normalizeCategory category.
Proof. unfold or_else. by destruct (String.eqb_spec category "") as [->|]. Qed.

Lemma timelinePriority_normalized (category : string) :
  timelinePriority (normalizeCategory category) = timelinePriority category.
Proof.
  unfold timelinePriority.
  by rewrite (normalizeCategory_fixed _ (normalizeCategory_elem_of category)).
Qed.

(** X1: two categories have the same priority exactly when they normalise to
    the same category, so that the sort of the timeline never mixes the items
    of two categories. *)
Theorem timelinePriority_inj (a b : string) :
  timelinePriority a = timelinePriority b ↔ normalizeCategory a = normalizeCategory b.
Proof.
  split.
  - rewrite <- (timelinePriority_normalized a), <- (timelinePriority_normalized b).
    pose proof (normalizeCategory_elem_of a) as Ha.
    pose proof (normalizeCategory_elem_of b) as Hb.
    unfold categories in *. rewrite !elem_of_cons, elem_of_nil in Ha, Hb.
    destruct Ha as [->|[->|[->|[->|[->|[]]]]]];
      destruct Hb as [->|[->|[->|[->|[->|[]]]]]]; vm_compute; congruence.
  - intros Heq. unfold timelinePriority. by rewrite Heq.
Qed.

(** ** The category choice *)

Section set_from.
Context {A : Type} `{EqDecision A}.

Lemma Set_from_fold (l seen : list A) :
  NoDup seen →
  NoDup (fold_left (λ seen x, if decide (x ∈ seen) then seen else seen ++ [x]) l seen) ∧
  ∀ x, x ∈ fold_left (λ seen x, if decide (x ∈ seen) then seen else seen ++ [x]) l seen
       ↔ x ∈ seen ∨ x ∈ l.
Proof.
  revert seen. induction l as [|y l IH]; intros seen Hseen; simpl.
  - split; [done|]. intros x. rewrite elem_of_nil. tauto.
  - destruct (decide (y ∈ seen)) as [Hy|Hy].
    + destruct (IH seen Hseen) as [Hnd Hin]. split; [done|].
      intros x. rewrite Hin, elem_of_cons. split; [tauto|].
      intros [?|[->|?]]; tauto.
    + destruct (IH (seen ++ [y])) as [Hnd Hin].
      { apply NoDup_app. split_and!; [done| |apply NoDup_singleton].
        intros x Hx ->%list_elem_of_singleton. done. }
      split; [done|]. intros x.
      rewrite Hin, elem_of_app, list_elem_of_singleton, elem_of_cons. tauto.
Qed.

Lemma Set_from_NoDup (l : list A) : NoDup (Set_from l).
Proof. apply Set_from_fold. constructor. Qed.

Lemma Set_from_elem_of (l : list A) (x : A) : x ∈ Set_from l ↔ x ∈ l.
Proof.
  unfold Set_from. destruct (Set_from_fold l []) as [_ Hin]; [constructor|].
  rewrite Hin, elem_of_nil. tauto.
Qed.

End set_from.

Lemma compareStrings_le (a b : string) :
  SortCompare compareStrings a b ≤ 0 → String.le a b.
Proof.
  unfold SortCompare, compareStrings, String.le, String.leb. simpl.
  destruct (String.compare a b); [done..|lia].
Qed.

Lemma compareStrings_gt (a b : string) :
  0 < SortCompare compareStrings a b → String.le b a.
Proof.
  intros Hgt. destruct (total String.le a b) as [Hle|Hle]; [|done].
  revert Hgt Hle. unfold SortCompare, compareStrings, String.le, String.leb. simpl.
  destruct (String.compare a b); simpl; [lia..|done].
Qed.

Lemma filter_all {A} (P : A → Prop) `{!∀ x, Decision (P x)} (l : list A) :
  (∀ x, x ∈ l → P x) → filter P l = l.
Proof.
  induction l as [|x l IH]; intros Hall; [done|].
  rewrite filter_cons, decide_True by (apply Hall; left).
  f_equal. apply IH. intros; apply Hall; by right.
Qed.

Section category_choice.
Context `{!Runtime}.
Context (heap : ref → TimelineItem.t).

Lemma timelineCategories_elem_of (timelineItems : list ref) (c : string) :
  c ∈ timelineCategories heap timelineItems ↔
  ∃ item, item ∈ timelineItems ∧
          normalizeCategory (TimelineItem.category (heap item)) = c.
Proof.
  unfold timelineCategories.
  rewrite Array_sort_Permutation, Set_from_elem_of, list_elem_of_fmap.
  split; intros (item & Heq & Hin).
  - exists item. by rewrite <- normalizeCategory_or_else.
  - exists item. by rewrite normalizeCategory_or_else.
Qed.

(** X2: the categories offered for filtering are the normalised categories
    of the loaded items, each once, in strictly ascending order; choosing one
    of them with a blank search never leaves the timeline empty. *)
Theorem timelineCategories_spec (timelineItems : list ref) :
  (∀ c, c ∈ timelineCategories heap timelineItems ↔
        ∃ item, item ∈ timelineItems ∧
                normalizeCategory (TimelineItem.category (heap item)) = c) ∧
  (∀ i j a b, (i < j)%nat →
     timelineCategories heap timelineItems !! i = Some a →
     timelineCategories heap timelineItems !! j = Some b →
     String.compare a b = Lt) ∧
  (∀ c search, c ∈ timelineCategories heap timelineItems →
     toLowerCase (trim search) = "" →
     filteredTimeline heap timelineItems c search ≠ []).
Proof.
  split_and!.
  - apply timelineCategories_elem_of.
  - intros i j a b Hij Ha Hb.
    assert (String.le a b) as Hle.
    { eapply (StronglySorted_lookup String.le); [|done..].
      unfold timelineCategories.
      eapply (Array_sort_sorted _ _ (λ _, True));
        eauto using compareStrings_le, compareStrings_gt.
      - intros x y z. apply transitivity.
      - by apply Forall_forall. }
    assert (NoDup (timelineCategories heap timelineItems)) as Hnd.
    { unfold timelineCategories. rewrite Array_sort_Permutation. apply Set_from_NoDup. }
    assert (a ≠ b) as Hne.
    { intros ->. assert (i = j) by by eapply NoDup_lookup. lia. }
    revert Hle Hne. unfold String.le, String.leb.
    destruct (String.compare a b) eqn:Hc; [|done..].
    by apply String.compare_eq_iff in Hc.
  - intros c search [item [Hin Hc]]%timelineCategories_elem_of Hblank Hempty.
    assert (item ∈ filteredTimeline heap timelineItems c search) as Hitem.
    { rewrite filteredTimeline_Permutation. apply list_elem_of_filter. split; [|done].
      unfold matchesFilter. rewrite Hc, String.eqb_refl, Hblank. simpl.
      by rewrite andb_false_r. }
    rewrite Hempty in Hitem. by apply elem_of_nil in Hitem.
Qed.

(** X3: the filtered timeline holds exactly the items that pass the category
    and the search filter, each as often as the input: none is lost or
    duplicated by the sort.  With a category chosen, every item shown has it;
    with none chosen and a blank search, every item is shown. *)
Theorem filteredTimeline_selection
    (timelineItems : list ref) (timelineCategory timelineSearch : string) :
  filteredTimeline heap timelineItems timelineCategory timelineSearch ≡ₚ
    filter (λ item, matchesFilter heap timelineCategory timelineSearch item)
      timelineItems ∧
  (timelineCategory ≠ "" →
   ∀ item, item ∈ filteredTimeline heap timelineItems timelineCategory timelineSearch →
           normalizeCategory (TimelineItem.category (heap item)) = timelineCategory) ∧
  (timelineCategory = "" → toLowerCase (trim timelineSearch) = "" →
   filteredTimeline heap timelineItems timelineCategory timelineSearch ≡ₚ timelineItems).
Proof.
  split_and!.
  - unfold filteredTimeline. by rewrite Array_sort_Permutation.
  - intros Hcat item Hin. unfold filteredTimeline in Hin.
    rewrite Array_sort_Permutation in Hin.
    apply list_elem_of_filter in Hin as [Hmatch _]. unfold matchesFilter in Hmatch.
    destruct (String.eqb_spec timelineCategory ""); [done|]. simpl in Hmatch.
    by destruct (String.eqb_spec
                   (normalizeCategory (TimelineItem.category (heap item)))
                   timelineCategory).
  - intros -> Hblank. unfold filteredTimeline.
    rewrite Array_sort_Permutation, filter_all; [done|].
    intros item _. unfold matchesFilter. by rewrite Hblank.
Qed.

(** X4: for an item with a readable date, and a clock for which fourteen
    days ago is not after today and today not after seven days ahead, the item
    is current exactly when its date is at most fourteen days past and, for an
    info item, at most seven days ahead.  The sixty-day window of deadlines and
    payments never changes the outcome. *)
Theorem isCurrent_window (now dt : Z) (item : ref) :
  Date_getTime (TimelineItem.date_iso (heap item)) = Some dt →
  addDays (startOfDay now) (-14) ≤ startOfDay now →
  startOfDay now ≤ addDays (startOfDay now) 7 →
  isCurrent heap now item =
    (addDays (startOfDay now) (-14) <=? dt) &&
    (if String.eqb (normalizeCategory (or_else (TimelineItem.category (heap item)) "info"))
                   "info"
     then dt <=? addDays (startOfDay now) 7 else true).
Proof.
  intros Hdt Hpast Hahead. unfold isCurrent. rewrite Hdt.
  set (c := normalizeCategory (or_else (TimelineItem.category (heap item)) "info")).
  destruct (String.eqb c "info"), (String.eqb c "deadline"), (String.eqb c "payment");
    simpl;
    repeat match goal with
           | |- context [?a <=? ?b] => destruct (Z.leb_spec a b)
           | |- context [?a <? ?b] => destruct (Z.ltb_spec a b)
           end; simpl; try reflexivity; lia.
Qed.

End category_choice.

Lemma timelineCategories_spec_witness :
  filteredTimeline (H := asciiRuntime) Examples.twoItems [0%nat; 1%nat] "payment" " " ≠ [].
Proof.
  apply (timelineCategories_spec (H := asciiRuntime) Examples.twoItems [0%nat; 1%nat]).
  - vm_compute. right. left.
  - reflexivity.
Defined.

Lemma filteredTimeline_selection_witness :
  filteredTimeline (H := asciiRuntime) Examples.twoItems [0%nat; 1%nat] "" " "
  ≡ₚ [0%nat; 1%nat].
Proof.
  apply (filteredTimeline_selection (H := asciiRuntime) Examples.twoItems
           [0%nat; 1%nat] "" " "); reflexivity.
Defined.

Lemma isCurrent_window_witness :
  isCurrent (H := asciiRuntime) Examples.twoItems 1767225600000 0%nat = true.
Proof.
  rewrite (isCurrent_window (H := asciiRuntime) Examples.twoItems
             1767225600000 1767225600000 0%nat); [reflexivity..|vm_compute|vm_compute];
    discriminate.
Defined.

(** ** Groups and cards *)

Section group_order.
Context `{!Runtime}.
Context (heap : ref → TimelineItem.t).

Lemma groupTimeline_keys_fold (items : list ref) (m : list (string * list ref)) :
  (fold_left (groupTimeline_step heap) items m).*1 =
  fold_left (λ seen x, if decide (x ∈ seen) then seen else seen ++ [x])
    (groupKey heap <$> items) m.*1.
Proof.
  revert m. induction items as [|item items IH]; intros m; simpl; [done|].
  rewrite IH. f_equal.
  destruct (groupTimeline_step_cases heap m item)
    as [[Hfresh ->]|(m1 & g & m2 & -> & Hm1 & ->)].
  - rewrite decide_False by done. by rewrite fmap_app.
  - rewrite decide_True; [by rewrite !fmap_app|].
    rewrite fmap_app. apply elem_of_app. right. left.
Qed.

(** X5: the groups of [groupTimelineByDate] come in the order in which their
    dates first occur in the input, and no group is empty. *)
Theorem groupTimelineByDate_order (items : list ref) :
  (groupTimelineByDate heap items).*1 = Set_from (groupKey heap <$> items) ∧
  (∀ k g, (k, g) ∈ groupTimelineByDate heap items → g ≠ []).
Proof.
  assert ((groupTimelineByDate heap items).*1 = Set_from (groupKey heap <$> items))
    as Hkeys by apply (groupTimeline_keys_fold items []).
  split; [done|]. intros k g Hin.
  assert (grouped heap items (groupTimelineByDate heap items)) as (_ & _ & Hgroups & _).
  { apply (grouped_fold heap items [] []). split_and!; try done.
    - constructor.
    - intros ? ? Hnil. by apply elem_of_nil in Hnil.
    - intros ? Hnil. by apply elem_of_nil in Hnil. }
  assert (k ∈ (groupTimelineByDate heap items).*1) as Hk.
  { apply list_elem_of_fmap. by exists (k, g). }
  rewrite Hkeys, Set_from_elem_of in Hk.
  apply list_elem_of_fmap in Hk as (item & -> & Hitem).
  rewrite (Hgroups _ _ Hin). intros Hempty.
  assert (item ∈ filter (λ item0, groupKey heap item0 = groupKey heap item) items) as Hi
    by by apply list_elem_of_filter.
  rewrite Hempty in Hi. by apply elem_of_nil in Hi.
Qed.

Lemma compareCards_le (a b : ref) :
  SortCompare (compareCards heap) a b ≤ 0 → priorityOf heap a ≤ priorityOf heap b.
Proof.
  unfold SortCompare, compareCards, priorityOf, categoryRank, timelinePriority.
  rewrite !normalizeCategory_or_else.
  set (pa := if String.eqb _ "deadline" then _ else _).
  set (pb := if String.eqb _ "deadline" then _ else _).
  destruct (Z.eqb_spec pa pb); simpl; lia.
Qed.

Lemma compareCards_gt (a b : ref) :
  0 < SortCompare (compareCards heap) a b → priorityOf heap b ≤ priorityOf heap a.
Proof.
  unfold SortCompare, compareCards, priorityOf, categoryRank, timelinePriority.
  rewrite !normalizeCategory_or_else.
  set (pa := if String.eqb _ "deadline" then _ else _).
  set (pb := if String.eqb _ "deadline" then _ else _).
  destruct (Z.eqb_spec pa pb); simpl; lia.
Qed.

(** X6: the cards of a group are the items of the group, each once, ordered
    by the priority that the timeline itself sorts by: the rank of
    [TimelineCard.tsx] and the priority of [App.tsx] agree, whatever the
    collation of the times does. *)
Theorem sortedItems_byPriority (items : list ref) :
  sortedItems heap items ≡ₚ items ∧
  ordered (λ a b, priorityOf heap a ≤ priorityOf heap b) (sortedItems heap items).
Proof.
  split; [apply Array_sort_Permutation|].
  intros i j a b Hij Ha Hb.
  eapply (StronglySorted_lookup (λ a b, priorityOf heap a ≤ priorityOf heap b));
    [|done..].
  eapply (Array_sort_sorted _ _ (λ _, True));
    eauto using compareCards_le, compareCards_gt.
  - intros x y z. lia.
  - by apply Forall_forall.
Qed.

End group_order.

(** ** The summary of the timeline card *)

Lemma filter_length_exclusive {A} (P Q : A → Prop)
    `{!∀ x, Decision (P x), !∀ x, Decision (Q x)} (l : list A) :
  (∀ x, P x → Q x → False) →
  (length (filter P l) + length (filter Q l) ≤ length l)%nat.
Proof.
  intros Hex. induction l as [|x l IH]; [done|].
  rewrite !filter_cons. repeat case_decide; simpl; try lia.
  exfalso. eauto.
Qed.

Lemma filter_length_impl {A} (P Q : A → Prop)
    `{!∀ x, Decision (P x), !∀ x, Decision (Q x)} (l : list A) :
  (∀ x, P x → Q x) → (length (filter P l) ≤ length (filter Q l))%nat.
Proof.
  intros Himpl. induction l as [|x l IH]; [done|].
  rewrite !filter_cons. repeat case_decide; simpl; try lia.
  exfalso. eauto.
Qed.

Lemma sort_minus_sorted (l : list number) :
  Forall is_Some l → StronglySorted earlier (Array_sort minus l).
Proof.
  intros Hl. eapply (Array_sort_sorted _ _ is_Some); [| | |done].
  - intros a b c (x & y & -> & -> & ?) (y' & z & [= <-] & -> & ?).
    exists x, z. split_and!; [done..|lia].
  - intros a b [x ->] [y ->]. unfold SortCompare. simpl. intros.
    exists x, y. split_and!; [done..|lia].
  - intros a b [x ->] [y ->]. unfold SortCompare. simpl. intros.
    exists y, x. split_and!; [done..|lia].
Qed.

Section summary.
Context `{!Runtime}.
Context (heap : ref → TimelineItem.t).
Context (toLocaleDateString : Z → string).

(** X7: the counters of the summary are bounded by what is visible: open
    deadlines and open payments together never exceed the visible items, and
    the payments due within thirty days are among the open payments. *)
Theorem summary_counts (today : Z) (visible : list ref) :
  (openDeadlines heap today visible + openPayments heap today visible ≤ length visible)%nat ∧
  (duePayments30d heap today visible ≤ openPayments heap today visible)%nat.
Proof.
  split.
  - apply filter_length_exclusive. intros item. unfold isOpen.
    destruct (Date_getTime _); [|done].
    destruct (today <=? z); [|done]. simpl.
    intros ->%Is_true_true%String.eqb_eq Hp%Is_true_true. discriminate.
  - apply filter_length_impl. intros item. unfold isDueIn30, isOpen.
    destruct (String.eqb _ "payment"); [|done]. simpl.
    destruct (Date_getTime _); [|done].
    destruct (today <=? z); [|done]. done.
Qed.

Lemma deadlineDates_readable (visible : list ref) :
  Forall is_Some (deadlineDates heap visible).
Proof.
  unfold deadlineDates. rewrite Array_sort_Permutation.
  apply Forall_forall. by intros dt [? _]%list_elem_of_filter.
Qed.

Lemma openDeadlines_nextDeadline (today : Z) (visible : list ref) :
  (0 < openDeadlines heap today visible)%nat →
  ∃ t, nextDeadline heap visible = Some (Some t).
Proof.
  intros Hopen. unfold openDeadlines in Hopen.
  destruct (filter (λ item, isOpen heap today "deadline" item) visible)
    as [|item rest] eqn:Hfilter; [simpl in Hopen; lia|].
  assert (item ∈ filter (λ item, isOpen heap today "deadline" item) visible) as Hitem
    by (rewrite Hfilter; left).
  apply list_elem_of_filter in Hitem as [Hisopen Hvis]. unfold isOpen in Hisopen.
  destruct (Date_getTime (TimelineItem.date_iso (heap item))) as [dt|] eqn:Hdt; [|done].
  apply andb_True in Hisopen as [_ Hcat%Is_true_true%String.eqb_eq].
  assert (Some dt ∈ deadlineDates heap visible) as Hin.
  { unfold deadlineDates. rewrite Array_sort_Permutation.
    apply list_elem_of_filter. split; [by eexists|].
    apply list_elem_of_fmap. exists item. split; [done|].
    by apply list_elem_of_filter. }
  pose proof (deadlineDates_readable visible) as Hreadable.
  unfold nextDeadline. destruct (deadlineDates heap visible) as [|next rest']; simpl.
  - by apply elem_of_nil in Hin.
  - apply Forall_cons in Hreadable as [[t ->] _]. by exists t.
Qed.

Lemma deadlineDates_elem_of (visible : list ref) (dt : number) :
  dt ∈ deadlineDates heap visible ↔
  ∃ item t, item ∈ visible ∧ dt = Some t ∧
            normalizeCategory (or_else (TimelineItem.category (heap item)) "info")
              = "deadline" ∧
            Date_getTime (TimelineItem.date_iso (heap item)) = Some t.
Proof.
  unfold deadlineDates.
  rewrite Array_sort_Permutation, list_elem_of_filter, list_elem_of_fmap. split.
  - intros [[t ->] (item & Hdate & [Hcat Hin]%list_elem_of_filter)].
    by exists item, t.
  - intros (item & t & Hin & -> & Hcat & Hdate). split; [by eexists|].
    exists item. split; [done|]. by apply list_elem_of_filter.
Qed.

Lemma deadlineDates_sorted (visible : list ref) :
  StronglySorted earlier (deadlineDates heap visible).
Proof.
  apply sort_minus_sorted, Forall_forall. by intros dt [? _]%list_elem_of_filter.
Qed.

(** X8: the text of the summary is one of three: when deadlines are open, the
    count with the earliest readable date of all visible deadlines, those
    before today included, which always exists then; otherwise the payments
    due within thirty days, if any; otherwise that no deadline is open.  The
    fourth text of the code, deadlines and payments side by side, is never
    produced. *)
Theorem actionSummary_cases (today : Z) (visible : list ref) :
  (0 < openDeadlines heap today visible)%nat ∧
  (∃ t, nextDeadline heap visible = Some (Some t) ∧
        (∃ item, item ∈ visible ∧
           normalizeCategory (or_else (TimelineItem.category (heap item)) "info")
             = "deadline" ∧
           Date_getTime (TimelineItem.date_iso (heap item)) = Some t) ∧
        (∀ item t', item ∈ visible →
           normalizeCategory (or_else (TimelineItem.category (heap item)) "info")
             = "deadline" →
           Date_getTime (TimelineItem.date_iso (heap item)) = Some t' → t ≤ t') ∧
        actionSummary heap toLocaleDateString today visible =
          pretty (openDeadlines heap today visible) +:+ " Frist" +:+
          plural (openDeadlines heap today visible) "" "en" +:+
          " stehen an (nächste: " +:+ toLocaleDateString t +:+ ").") ∨
  openDeadlines heap today visible = 0%nat ∧
  (0 < duePayments30d heap today visible)%nat ∧
  actionSummary heap toLocaleDateString today visible =
    pretty (duePayments30d heap today visible) +:+ " Zahlung" +:+
    plural (duePayments30d heap today visible) "" "en" +:+
    " fällig innerhalb von 30 Tagen." ∨
  openDeadlines heap today visible = 0%nat ∧
  duePayments30d heap today visible = 0%nat ∧
  actionSummary heap toLocaleDateString today visible =
    "Keine offenen Fristen. " +:+ nextEventSummary heap today visible +:+ ".".
Proof.
  unfold actionSummary.
  destruct (openDeadlines heap today visible) as [|n] eqn:Hopen.
  - right. simpl (0 <? 0)%nat. cbv iota.
    destruct (duePayments30d heap today visible) as [|d] eqn:Hdue.
    + right. done.
    + left. split_and!; [done|lia|done].
  - left. split; [lia|].
    destruct (openDeadlines_nextDeadline today visible) as [t Ht]; [lia|].
    exists t. rewrite Ht. split_and!; [done| | |done].
    + unfold nextDeadline in Ht.
      destruct (deadlineDates heap visible) as [|next rest] eqn:Hdates; [done|].
      injection Ht as ->.
      assert (Some t ∈ deadlineDates heap visible) as Hin by (rewrite Hdates; left).
      apply deadlineDates_elem_of in Hin as (item & t0 & ? & [= <-] & ? & ?).
      by exists item.
    + intros item t' Hitem Hcat Hdate.
      assert (Some t' ∈ deadlineDates heap visible) as Hin
        by (apply deadlineDates_elem_of; by exists item, t').
      pose proof (deadlineDates_sorted visible) as Hsorted.
      unfold nextDeadline in Ht.
      destruct (deadlineDates heap visible) as [|next rest] eqn:Hdates; [done|].
      injection Ht as ->.
      apply elem_of_cons in Hin as [[= ->]|Hrest]; [lia|].
      apply StronglySorted_cons in Hsorted as [Hall _].
      eapply Forall_forall in Hall as (x & y & Hx & Hy & ?); [|done].
      simplify_eq. lia.
Qed.

Lemma upcoming_sorted (today : Z) (visible : list ref) :
  StronglySorted earlier (upcoming heap today visible) ∧
  ∀ dt, dt ∈ upcoming heap today visible ↔
        ∃ item t, item ∈ visible ∧ dt = Some t ∧ today ≤ t ∧
                  Date_getTime (TimelineItem.date_iso (heap item)) = Some t.
Proof.
  split.
  - apply sort_minus_sorted, Forall_forall.
    intros [t|] [Hup _]%list_elem_of_filter; [by eexists|done].
  - intros dt. unfold upcoming.
    rewrite Array_sort_Permutation, list_elem_of_filter, list_elem_of_fmap.
    split.
    + intros [Hup (item & -> & Hin)].
      destruct (Date_getTime _) as [t|] eqn:Ht; [|done].
      exists item, t. split_and!; [done..| |done].
      simpl in Hup. by apply Is_true_true, Z.leb_le in Hup.
    + intros (item & t & Hin & -> & Ht & Hdate). split.
      * simpl. by apply Is_true_true, Z.leb_le.
      * exists item. by rewrite Hdate.
Qed.

(** X9: the days to the next event are absent exactly when no visible item
    has a readable date from today on; otherwise they are the rounded number
    of days from today to the earliest such date, and never negative. *)
Theorem nextEventDays_spec (today : Z) (visible : list ref) :
  (nextEventDays heap today visible = None ↔
   ∀ item t, item ∈ visible →
             Date_getTime (TimelineItem.date_iso (heap item)) = Some t → t < today) ∧
  (∀ days, nextEventDays heap today visible = Some days →
     0 ≤ days ∧
     ∃ item t, item ∈ visible ∧
       Date_getTime (TimelineItem.date_iso (heap item)) = Some t ∧ today ≤ t ∧
       days = roundDiv (t - today) msPerDay ∧
       ∀ item' t', item' ∈ visible →
         Date_getTime (TimelineItem.date_iso (heap item')) = Some t' →
         today ≤ t' → t ≤ t').
Proof.
  destruct (upcoming_sorted today visible) as [Hsorted Hin].
  unfold nextEventDays.
  destruct (upcoming heap today visible) as [|[t|] rest] eqn:Hup.
  - split; [|done]. split; [|done]. intros _ item t Hitem Hdate.
    destruct (Z.lt_ge_cases t today) as [?|Hge]; [done|].
    assert (Some t ∈ []) as Hnil by (apply Hin; by exists item, t).
    by apply elem_of_nil in Hnil.
  - assert (Some t ∈ Some t :: rest) as Hhead by left.
    apply Hin in Hhead as (item & t0 & Hitem & [= <-] & Hge & Hdate).
    split.
    + split; [done|]. intros Hall. specialize (Hall item t Hitem Hdate). lia.
    + intros days [= <-]. split.
      * unfold roundDiv, msPerDay. apply Z.div_pos; lia.
      * exists item, t. split_and!; [done..|].
        intros item' t' Hitem' Hdate' Hge'.
        assert (Some t' ∈ Some t :: rest) as Hin' by (apply Hin; by exists item', t').
        apply elem_of_cons in Hin' as [[= ->]|Hrest]; [lia|].
        apply StronglySorted_cons in Hsorted as [Hall _].
        eapply Forall_forall in Hall as (x & y & Hx & Hy & ?); [|done].
        simplify_eq. lia.
  - exfalso. assert (None ∈ None :: rest) as Hhead by left.
    apply Hin in Hhead as (? & ? & _ & ? & _). done.
Qed.

End summary.

(** ** More of the HTTP wrapper *)

Section api_more.
Context `{!Runtime}.

Lemma failureMessage_empty_body (status : Z) :
  failureMessage (parseResponse "") status = Fulfilled ("HTTP " +:+ pretty status).
Proof. reflexivity. Qed.

Lemma failureMessage_raw_body (raw : string) (status : Z) :
  raw ≠ "" → JSON_parse raw = None →
  failureMessage (parseResponse raw) status = Fulfilled raw.
Proof.
  intros Hraw Hparse. unfold parseResponse.
  destruct (String.eqb_spec raw ""); [done|]. rewrite Hparse.
  unfold failureMessage. cbn.
  by destruct (String.eqb_spec raw "").
Qed.

(** X10: the message of the [ApiError] of a response that is not OK follows
    the body: an empty body gives [HTTP] and the status, a body that is not
    JSON gives the body itself, and a JSON object with a non-empty string
    [detail] gives that detail. *)
Theorem apiCall_failure_message (x : Exchange) (options : ApiCallOptions.t)
    (t0 t : Z) (resp : Response.t) (raw : string) :
  fetch (effective_signal options) x = (t0, Fulfilled resp) →
  Response.ok resp = false →
  Response.text resp = (t, Fulfilled raw) →
  ∃ e, apiCall x options = Rejected (ThrownApiError e) ∧
    (raw = "" → ApiError.message e = "HTTP " +:+ pretty (Response.status resp)) ∧
    (raw ≠ "" → JSON_parse raw = None → ApiError.message e = raw) ∧
    (∀ fields detail, raw ≠ "" → JSON_parse raw = Some (JObj fields) →
       Map_get "detail" fields = Some (JStr detail) → detail ≠ "" →
       ApiError.message e = detail).
Proof.
  intros Hfetch Hok Htext. unfold apiCall, apiCall_try.
  rewrite Hfetch, Htext, Hok. simpl.
  destruct (failureMessage (parseResponse raw) (Response.status resp))
    as [message|error] eqn:Hmessage.
  - rewrite apiCall_catch_rethrow. eexists. split; [done|]. simpl. split_and!.
    + intros ->. rewrite failureMessage_empty_body in Hmessage. congruence.
    + intros Hraw Hparse. rewrite failureMessage_raw_body in Hmessage by done.
      congruence.
    + intros fields detail Hraw Hparse Hdetail Hne.
      unfold parseResponse, failureMessage in Hmessage.
      destruct (String.eqb_spec raw ""); [done|]. rewrite Hparse in Hmessage.
      simpl in Hmessage. rewrite Hdetail in Hmessage. simpl in Hmessage.
      destruct (String.eqb_spec detail ""); [done|]. simpl in Hmessage. congruence.
  - destruct (apiCall_catch_ApiError t error) as [e ->]. exists e.
    split; [done|]. split_and!.
    + intros ->. rewrite failureMessage_empty_body in Hmessage. congruence.
    + intros Hraw Hparse. rewrite failureMessage_raw_body in Hmessage by done.
      congruence.
    + intros fields detail Hraw Hparse Hdetail Hne.
      unfold parseResponse, failureMessage in Hmessage.
      destruct (String.eqb_spec raw ""); [done|]. rewrite Hparse in Hmessage.
      simpl in Hmessage. rewrite Hdetail in Hmessage. simpl in Hmessage.
      destruct (String.eqb_spec detail ""); [done|]. simpl in Hmessage. congruence.
Qed.

Lemma apiCall_signal_AbortError
    (x : Exchange) (signal : AbortSignal) (timeoutMs : option Z) :
  apiCall x {| ApiCallOptions.timeoutMs := timeoutMs;
               ApiCallOptions.signal := Some signal |} =
  apiCall_signal x signal AbortError.
Proof. reflexivity. Qed.

(** X11: a signal of the caller replaces the timeout: the outcome does not
    depend on [timeoutMs] then.  When that signal fires before the head of
    the response arrives, the call rejects with an [ApiError] that depends on
    the reason of the abort: a reason named [AbortError], as an abort without
    a reason gives, is reported with [isTimeout = true] although no timeout
    occurred; a reason that is an [ApiError] is thrown as it is; and any other
    reason, such as the [TimeoutError] of [AbortSignal.timeout], is reported
    with [isTimeout = false] and its own message. *)
Theorem apiCall_caller_signal
    (x : Exchange) (signal : AbortSignal) (reason : thrown)
    (timeout1 timeout2 : option Z) :
  apiCall x {| ApiCallOptions.timeoutMs := timeout1;
               ApiCallOptions.signal := Some signal |} =
  apiCall x {| ApiCallOptions.timeoutMs := timeout2;
               ApiCallOptions.signal := Some signal |} ∧
  apiCall x {| ApiCallOptions.timeoutMs := timeout1;
               ApiCallOptions.signal := Some signal |} =
  apiCall_signal x signal AbortError ∧
  (aborted signal (head_at x) = true →
   (thrown_name reason = Some "AbortError" →
    ∃ e, apiCall_signal x signal reason = Rejected (ThrownApiError e) ∧
         ApiError.isTimeout e = true ∧ ApiError.status e = None) ∧
   (∀ a, reason = ThrownApiError a →
         apiCall_signal x signal reason = Rejected (ThrownApiError a)) ∧
   (thrown_name reason ≠ Some "AbortError" →
    (∀ a, reason ≠ ThrownApiError a) →
    ∃ e, apiCall_signal x signal reason = Rejected (ThrownApiError e) ∧
         ApiError.isTimeout e = false ∧ ApiError.status e = None ∧
         ApiError.message e = opt_or_else (thrown_message reason) "Netzwerkfehler")) ∧
  (aborted signal (head_at x) = true →
   ∃ e, apiCall_signal x signal TimeoutError = Rejected (ThrownApiError e) ∧
        ApiError.isTimeout e = false).
Proof.
  assert (aborted signal (head_at x) = true →
          ∀ r, apiCall_signal x signal r =
               Rejected (apiCall_catch (abort_time signal) r)) as Hcall.
  { intros Haborted r. unfold apiCall_signal, fetch_reason. by rewrite Haborted. }
  split_and!; [done..| |].
  - intros Haborted. split_and!.
    + intros Hname. rewrite Hcall by done. unfold apiCall_catch.
      rewrite bool_decide_eq_true_2 by done. by eexists.
    + intros a ->. rewrite Hcall by done. apply f_equal, apiCall_catch_rethrow.
    + intros Hname Hnot. rewrite Hcall by done. unfold apiCall_catch.
      rewrite bool_decide_eq_false_2 by done.
      destruct reason as [a| |]; [by destruct (Hnot a)|by eexists..].
  - intros Haborted. rewrite Hcall by done. by eexists.
Qed.

(** X12: whatever happens, the latency that [apiCall] reports is at least one
    millisecond: in the result of a call that resolves, and in the [ApiError]
    of a call that rejects, as long as the network itself does not throw an
    [ApiError]. *)
Theorem apiCall_latency (x : Exchange) (options : ApiCallOptions.t) :
  (∀ a, head x ≠ Rejected (ThrownApiError a)) →
  (∀ a, body x ≠ Rejected (ThrownApiError a)) →
  match apiCall x options with
  | Fulfilled r => 1 ≤ ApiResult.latencyMs r
  | Rejected (ThrownApiError e) => ∃ l, ApiError.latencyMs e = Some l ∧ 1 ≤ l
  | Rejected _ => False
  end.
Proof.
  intros Hhead Hbody. unfold apiCall, apiCall_try, fetch.
  assert (∀ t, ∃ e l, apiCall_catch t AbortError = ThrownApiError e ∧
                      ApiError.latencyMs e = Some l ∧ 1 ≤ l) as Habort.
  { intros t. unfold apiCall_catch, AbortError, thrown_name.
    rewrite bool_decide_eq_true_2 by done. do 2 eexists. split_and!; [done..|].
    unfold latency. lia. }
  assert (∀ t error, (∀ a, error ≠ ThrownApiError a) →
            ∃ e l, apiCall_catch t error = ThrownApiError e ∧
                   ApiError.latencyMs e = Some l ∧ 1 ≤ l) as Hother.
  { intros t error Hnot. unfold apiCall_catch.
    case_bool_decide; [do 2 eexists; split_and!; [done..|unfold latency; lia]|].
    destruct error as [a| |]; [by destruct (Hnot a)|..];
      do 2 eexists; (split_and!; [done..|unfold latency; lia]). }
  destruct (aborted (effective_signal options) (head_at x)).
  { destruct (Habort (abort_time (effective_signal options))) as (e & l & -> & ? & ?).
    by exists l. }
  destruct (head x) as [[ok status]|error] eqn:Hh.
  2:{ destruct (Hother (head_at x) error) as (e & l & -> & ? & ?).
      - intros a ->. by destruct (Hhead a).
      - by exists l. }
  simpl. destruct (aborted (effective_signal options) (body_at x)).
  { destruct (Habort (abort_time (effective_signal options))) as (e & l & -> & ? & ?).
    by exists l. }
  destruct (body x) as [raw|error] eqn:Hb.
  2:{ destruct (Hother (body_at x) error) as (e & l & -> & ? & ?).
      - intros a ->. by destruct (Hbody a).
      - by exists l. }
  destruct ok; simpl.
  - unfold latency. lia.
  - destruct (failureMessage (parseResponse raw) status) as [message|error] eqn:Hm.
    + rewrite apiCall_catch_rethrow. eexists. split; [done|]. unfold latency. lia.
    + destruct (Hother (body_at x) error) as (e & l & -> & ? & ?); [|by exists l].
      intros a ->. unfold failureMessage in Hm.
      destruct (parseResponse raw); simpl in Hm; repeat case_match; congruence.
Qed.

(** X13: [normalizeApiError] never returns an empty text when the fallback is
    not empty; it returns the message of an [ApiError] or of another [Error]
    when that message is not empty, and the fallback for every thrown value
    that is no [Error], whatever [message] that value has. *)
Theorem normalizeApiError_spec (error : thrown) (fallback : string) :
  fallback ≠ "" →
  normalizeApiError error fallback ≠ "" ∧
  (∀ name message, error = ThrownError name message → message ≠ "" →
     normalizeApiError error fallback = message) ∧
  (∀ a, error = ThrownApiError a → ApiError.message a ≠ "" →
     normalizeApiError error fallback = ApiError.message a) ∧
  (∀ name message, error = ThrownValue name message →
     normalizeApiError error fallback = fallback).
Proof.
  intros Hfallback. unfold normalizeApiError, or_else. split_and!.
  - destruct error as [a|name message|]; [| |done].
    + by destruct (String.eqb_spec (ApiError.message a) "").
    + by destruct (String.eqb_spec message "").
  - intros name message -> Hm. by destruct (String.eqb_spec message "").
  - intros a -> Hm. by destruct (String.eqb_spec (ApiError.message a) "").
  - by intros name message ->.
Qed.

(** X14: an upload settles in every case but one.  A status from 200 to 299
    resolves with the parsed body, or with [{}] when the body is empty or not
    JSON; any other status rejects with an [ApiError] that carries it; only a
    body [null] with such a status leaves the promise pending, because the
    handler throws on [data.detail]. *)
Theorem uploadWithProgress_settles (status : Z) (responseText : string) :
  (200 ≤ status < 300 →
   uploadWithProgress (XhrLoad status responseText) =
     Some (Fulfilled (uploadData responseText))) ∧
  (¬ 200 ≤ status < 300 → uploadData responseText ≠ JNull →
   ∃ e, uploadWithProgress (XhrLoad status responseText) =
          Some (Rejected (ThrownApiError e)) ∧
        ApiError.status e = Some status ∧ ApiError.isTimeout e = false) ∧
  (uploadWithProgress (XhrLoad status responseText) = None ↔
   ¬ 200 ≤ status < 300 ∧ responseText ≠ "" ∧ JSON_parse responseText = Some JNull).
Proof.
  assert (¬ 200 ≤ status < 300 → (status <? 200) || (300 <=? status) = true)
    as Hout.
  { intros Hs. apply orb_true_iff. rewrite Z.ltb_lt, Z.leb_le. lia. }
  split_and!.
  - intros Hs. unfold uploadWithProgress.
    destruct (Z.ltb_spec status 200); [lia|].
    by destruct (Z.leb_spec 300 status); [lia|].
  - intros Hs Hdata. unfold uploadWithProgress. rewrite (Hout Hs).
    destruct (uploadData responseText); [done|..]; by eexists.
  - unfold uploadWithProgress. split.
    + destruct ((status <? 200) || (300 <=? status)) eqn:Hs; [|done].
      apply orb_true_iff in Hs. rewrite Z.ltb_lt, Z.leb_le in Hs.
      unfold uploadData. destruct (String.eqb_spec responseText ""); [done|].
      destruct (JSON_parse responseText) as [[]|]; try done.
      intros _. split_and!; [lia|done..].
    + intros (Hs & Hne & Hparse). rewrite (Hout Hs). unfold uploadData.
      destruct (String.eqb_spec responseText ""); [done|]. by rewrite Hparse.
Qed.

End api_more.

Lemma apiCall_failure_message_witness :
  ∃ e, apiCall (H := asciiRuntime) Examples.notFound Examples.defaults =
         Rejected (ThrownApiError e) ∧ ApiError.message e = "Not found".
Proof.
  destruct (apiCall_failure_message (H := asciiRuntime) Examples.notFound
              Examples.defaults 80 120 _ _ eq_refl eq_refl eq_refl)
    as (e & Hcall & _ & _ & Hdetail).
  exists e. split; [exact Hcall|].
  apply (Hdetail [("detail", JStr "Not found")]); [discriminate|reflexivity..|discriminate].
Defined.

Lemma apiCall_latency_witness :
  match apiCall (H := asciiRuntime) Examples.slowFailure Examples.defaults with
  | Fulfilled r => 1 ≤ ApiResult.latencyMs r
  | Rejected (ThrownApiError e) => ∃ l, ApiError.latencyMs e = Some l ∧ 1 ≤ l
  | Rejected _ => False
  end.
Proof.
  apply (apiCall_latency (H := asciiRuntime) Examples.slowFailure Examples.defaults);
    discriminate.
Defined.

Lemma normalizeApiError_spec_witness :
  normalizeApiError Examples.offline "Unbekannter Fehler" = "Failed to fetch".
Proof.
  destruct (normalizeApiError_spec Examples.offline "Unbekannter Fehler")
    as (_ & Hmessage & _); [discriminate|].
  apply (Hmessage "TypeError"); [reflexivity|discriminate].
Defined.

(** ** More of the handlers *)

Section handler_facts.
Context `{!Runtime}.

(** X15: when the request of [askChat] settles, whatever the state is by
    then, the chat card does not stay loading: the state is [success] exactly
    when the request resolved with a reply that is not [null], and [error]
    otherwise; the pending flag is off; exactly one toast is added, a success
    toast exactly in the first case; and the render that follows throws
    exactly when the reply is [null].  Before that, a question that is sent
    puts the card into the loading state with the pending flag on, clears the
    input and keeps the trimmed question for a retry, without a toast; a
    question that is not sent gives an error and one error toast, and leaves
    these fields and the history as they are. *)
Theorem askChat_bookkeeping
    (question : string) (result : outcome (option ChatReply.t) thrown)
    (st st1 : AppState) :
  chatState (chat (exec (askChat_settle result) st1)) =
    (if answered result then ui_success else ui_error) ∧
  chatPending (chat (exec (askChat_settle result) st1)) = false ∧
  (∃ t, toasts (exec (askChat_settle result) st1) = toasts st1 ++ [t] ∧
        Toast.type t = (if answered result then toast_success else toast_error)) ∧
  ((askChat_settle result st1).1 = Renders ↔ result ≠ Fulfilled None) ∧
  (if selected (activePropertyId (session st)) &&
      negb (String.eqb (trim question) "")
   then (askChat_start question st).1 = Some (trim question) ∧
        chatState (chat (askChat_start question st).2) = ui_loading ∧
        chatPending (chat (askChat_start question st).2) = true ∧
        chatQuestion (chat (askChat_start question st).2) = "" ∧
        lastChatQuestion (chat (askChat_start question st).2) = trim question ∧
        toasts (askChat_start question st).2 = toasts st
   else (askChat_start question st).1 = None ∧
        chatState (chat (askChat_start question st).2) = ui_error ∧
        (∃ t, toasts (askChat_start question st).2 = toasts st ++ [t] ∧
              Toast.type t = toast_error) ∧
        chatPending (chat (askChat_start question st).2) = chatPending (chat st) ∧
        chatQuestion (chat (askChat_start question st).2) = chatQuestion (chat st) ∧
        lastChatQuestion (chat (askChat_start question st).2) =
          lastChatQuestion (chat st) ∧
        chatHistory (chat (askChat_start question st).2) = chatHistory (chat st)).
Proof.
  split_and!.
  - by destruct result as [[data|]|e].
  - by destruct result as [[data|]|e].
  - destruct result as [[data|]|e]; by eexists.
  - destruct result as [[data|]|e]; simpl; split; done.
  - unfold askChat_start, mbind, Handler_bind, get_state.
    destruct (selected (activePropertyId (session st))); simpl.
    + destruct (String.eqb (trim question) ""); simpl.
      * split_and!; [done..|by eexists|done|done|done|done].
      * done.
    + split_and!; [done..|by eexists|done|done|done|done].
Qed.

Lemma askChat_sent
    (question : string) (result : outcome (option ChatReply.t) thrown) (st : AppState) :
  selected (activePropertyId (session st)) = true →
  trim question ≠ "" →
  result ≠ Fulfilled None →
  ∃ u a,
    chatHistory (chat (exec (askChat question result) st)) =
      chatHistory (chat st) ++ [u; a] ∧
    ChatMessage.role u = role_user ∧ ChatMessage.text u = trim question ∧
    ChatMessage.role a = role_assistant ∧
    session (exec (askChat question result) st) = session st ∧
    lastChatQuestion (chat (exec (askChat question result) st)) = trim question.
Proof.
  intros Hsel Hq Hnull.
  unfold askChat, askChat_start, exec, mbind, Handler_bind, get_state.
  rewrite Hsel. simpl. destruct (String.eqb_spec (trim question) ""); [done|].
  simpl. destruct result as [[data|]|e]; [|done|]; simpl.
  all: do 2 eexists; rewrite <- !app_assoc; simpl; split_and!; reflexivity.
Qed.

Lemma retryChat_exec
    (result : outcome (option ChatReply.t) thrown) (st : AppState) :
  exec (retryChat result) st =
  if String.eqb (lastChatQuestion (chat st)) "" then st
  else exec (askChat (lastChatQuestion (chat st)) result) st.
Proof.
  unfold retryChat, exec, mbind, Handler_bind, get_state.
  by destruct (String.eqb (lastChatQuestion (chat st)) "").
Qed.

(** X16: a retry asks the last question again: after a question was sent and
    its request settled, [retryChat] appends a second user message with the
    same trimmed text and one more assistant message, given that trimming
    twice is trimming once, that neither reply is [null], and that nothing
    else happens in between; and as long as no question was ever sent,
    [retryChat] does nothing. *)
Theorem retryChat_repeats
    (question : string) (result retried : outcome (option ChatReply.t) thrown)
    (st : AppState) :
  selected (activePropertyId (session st)) = true →
  trim question ≠ "" →
  trim (trim question) = trim question →
  result ≠ Fulfilled None →
  retried ≠ Fulfilled None →
  (∃ u1 a1 u2 a2,
     chatHistory (chat (exec (retryChat retried) (exec (askChat question result) st))) =
       chatHistory (chat st) ++ [u1; a1; u2; a2] ∧
     ChatMessage.role u1 = role_user ∧ ChatMessage.text u1 = trim question ∧
     ChatMessage.role u2 = role_user ∧ ChatMessage.text u2 = trim question ∧
     ChatMessage.role a1 = role_assistant ∧ ChatMessage.role a2 = role_assistant) ∧
  (∀ st0, lastChatQuestion (chat st0) = "" → exec (retryChat retried) st0 = st0).
Proof.
  intros Hsel Hq Htrim Hnull Hnull'. split.
  - destruct (askChat_sent question result st Hsel Hq Hnull)
      as (u1 & a1 & Hhist & Hrole1 & Htext1 & Hrole1' & Hsession & Hlast).
    rewrite retryChat_exec, Hlast.
    destruct (String.eqb_spec (trim question) ""); [done|].
    destruct (askChat_sent (trim question) retried
                (exec (askChat question result) st))
      as (u2 & a2 & Hhist2 & Hrole2 & Htext2 & Hrole2' & _).
    { by rewrite Hsession. }
    { by rewrite Htrim. }
    { done. }
    exists u1, a1, u2, a2. rewrite Hhist2, Hhist, <- app_assoc, Htext2, Htrim. done.
  - intros st0 Hlast. by rewrite retryChat_exec, Hlast.
Qed.

Lemma Map_set_keys {V} (key : string) (v : V) (m : list (string * V)) :
  (Map_set key v m).*1 = if Map_has key m then m.*1 else m.*1 ++ [key].
Proof.
  induction m as [|[k w] m IH]; [done|].
  unfold Map_has in *. cbn [Map_set existsb fst].
  destruct (String.eqb_spec k key) as [->|Hne]; rewrite !fmap_cons; cbn [fst orb];
    [done|].
  rewrite IH. by destruct (existsb _ m).
Qed.

Lemma Map_set_NoDup {V} (key : string) (v : V) (m : list (string * V)) :
  NoDup m.*1 → NoDup (Map_set key v m).*1.
Proof.
  intros Hm. rewrite Map_set_keys.
  destruct (Map_has key m) eqn:Hhas; [done|].
  apply NoDup_app. split_and!; [done| |apply NoDup_singleton].
  intros k Hk ->%list_elem_of_singleton.
  apply Map_has_elem_of in Hk. congruence.
Qed.

Lemma Map_set_keys_incl {V} (key k : string) (v : V) (m : list (string * V)) :
  k ∈ (Map_set key v m).*1 ↔ k = key ∨ k ∈ m.*1.
Proof.
  rewrite Map_set_keys. destruct (Map_has key m) eqn:Hhas.
  - apply Map_has_elem_of in Hhas. split; [by right|]. by intros [->|?].
  - rewrite elem_of_app, list_elem_of_singleton. tauto.
Qed.

Lemma Map_set_keyed (file : File.t) (m : list (string * File.t)) :
  Forall (λ kv, kv.1 = fileKey kv.2) m →
  Forall (λ kv, kv.1 = fileKey kv.2) (Map_set (fileKey file) file m).
Proof.
  induction 1 as [|[k w] m Hk Hm IH]; simpl.
  - by constructor.
  - destruct (String.eqb_spec k (fileKey file)) as [->|Hne]; by constructor.
Qed.

Lemma mergeFiles_fold_keys (files : list File.t) (m : list (string * File.t)) :
  NoDup m.*1 → Forall (λ kv, kv.1 = fileKey kv.2) m →
  let m' := fold_left (λ m f, Map_set (fileKey f) f m) files m in
  NoDup m'.*1 ∧ Forall (λ kv, kv.1 = fileKey kv.2) m' ∧
  (∀ k, k ∈ m'.*1 ↔ k ∈ fileKey <$> files ∨ k ∈ m.*1).
Proof.
  revert m. induction files as [|file files IH]; intros m Hm Hkeyed; simpl.
  - split_and!; [done..|]. intros k. rewrite elem_of_nil. tauto.
  - destruct (IH (Map_set (fileKey file) file m)) as (Hnodup & Hk & Hin).
    { by apply Map_set_NoDup. }
    { by apply Map_set_keyed. }
    split_and!; [done..|]. intros k.
    rewrite Hin, Map_set_keys_incl, elem_of_cons. tauto.
Qed.

Lemma keyed_values (m : list (string * File.t)) :
  Forall (λ kv, kv.1 = fileKey kv.2) m → fileKey <$> m.*2 = m.*1.
Proof.
  induction 1 as [|[k w] m Hk Hm IH]; [done|].
  rewrite !fmap_cons, IH. cbn [fst snd] in *. by rewrite Hk.
Qed.

Lemma addFiles_uploadState (files : list File.t) (st : AppState) :
  uploadState (upload (exec (addFiles files) st)) =
  if (0 <? length (errors (validateFiles files)))%nat then ui_error else ui_idle.
Proof.
  unfold addFiles. rewrite !exec_bind. cbn [fst snd].
  by destruct (0 <? length (errors (validateFiles files)))%nat.
Qed.

Lemma rejected_forallb (files : list File.t) :
  (0 <? length (filter (λ f, ¬ acceptable f) files))%nat =
  negb (forallb (λ file, acceptable file) files).
Proof.
  induction files as [|file files IH]; [done|].
  rewrite filter_cons. simpl forallb.
  destruct (acceptable file); simpl; [exact IH|done].
Qed.

(** X17: after [addFiles] no two selected files have the same name and size:
    the selection holds one file for every key [name:size] of the earlier
    selection and of the accepted files, and for no other key.  The upload
    card shows an error exactly when at least one offered file was rejected,
    and is idle otherwise. *)
Theorem addFiles_selection (files : list File.t) (st : AppState) :
  let st' := exec (addFiles files) st in
  NoDup (fileKey <$> selectedFiles (upload st')) ∧
  (∀ key, key ∈ fileKey <$> selectedFiles (upload st') ↔
          key ∈ fileKey <$> selectedFiles (upload st) ∨
          ∃ file, file ∈ files ∧ acceptable file = true ∧ key = fileKey file) ∧
  uploadState (upload st') =
    (if forallb (λ file, acceptable file) files then ui_idle else ui_error).
Proof.
  intros st'. unfold st'. rewrite addFiles_selectedFiles.
  assert (validateFiles files =
          {| valid := filter (λ f, acceptable f) files;
             errors := rejectionMessage <$> filter (λ f, ¬ acceptable f) files |})
    as Hvalidate.
  { unfold validateFiles. by rewrite validateFiles_fold. }
  unfold mergeFiles.
  destruct (mergeFiles_fold_keys (selectedFiles (upload st)) [])
    as (Hnodup1 & Hkeyed1 & Hin1); [constructor..|].
  destruct (mergeFiles_fold_keys (valid (validateFiles files)) _ Hnodup1 Hkeyed1)
    as (Hnodup2 & Hkeyed2 & Hin2).
  rewrite keyed_values by done. split_and!.
  - done.
  - intros key. rewrite Hin2, Hin1, Hvalidate. simpl.
    rewrite list_elem_of_fmap. setoid_rewrite list_elem_of_filter.
    rewrite elem_of_nil. split.
    + intros [(file & -> & Hok & Hfile)|[?|[]]]; [right|by left].
      exists file. split_and!; [done| |done]. by destruct (acceptable file).
    + intros [?|(file & Hfile & Hok & ->)]; [by right; left|left].
      exists file. split_and!; [done| |done]. by rewrite Hok.
  - rewrite addFiles_uploadState, Hvalidate. cbn [errors].
    rewrite length_fmap, rejected_forallb. by destruct (forallb _ files).
Qed.

(** X18: the timer of [addToast] removes the toast it added and nothing else,
    whatever toasts were added in the meantime, as long as no other toast on
    screen has the same id. *)
Theorem addToast_expires
    (type : ToastType) (title : string) (details : option string)
    (later : list Toast.t) (st : AppState) :
  uuid_value (uuid_calls st) ∉ Toast.id <$> (toasts st ++ later) →
  toasts (exec (expireToast (uuid_value (uuid_calls st)))
            (exec (setToasts (λ prev, prev ++ later))
               (exec (addToast type title details) st))) =
  toasts st ++ later.
Proof.
  intros Hfresh. unfold addToast, expireToast, uuid, setToasts, exec, mbind,
    Handler_bind. simpl.
  rewrite <- app_assoc, !filter_app. simpl.
  rewrite fmap_app, not_elem_of_app in Hfresh. destruct Hfresh as [Hold Hlater].
  rewrite filter_cons, decide_False by (by intros Hne; apply Hne).
  rewrite filter_nil. simpl. f_equal.
  - apply filter_all. intros t Ht Hid. apply Hold, list_elem_of_fmap. by exists t.
  - apply filter_all. intros t Ht Hid. apply Hlater, list_elem_of_fmap. by exists t.
Qed.

(** X19: [loadDocuments] never drops or changes a status that the client
    holds; a request that fails leaves the documents as they are; and the
    session is reset, user, properties and selection alike, exactly when the
    request was sent and failed with an [ApiError] of status 401. *)
Theorem loadDocuments_keeps
    (result : outcome (option (list DocumentItem.t)) thrown) (st : AppState) :
  let st' := exec (loadDocuments result) st in
  (∀ id s, documentStatuses (upload st) !! id = Some s →
           documentStatuses (upload st') !! id = Some s) ∧
  (∀ e, result = Rejected e →
        is_Some (currentUser (session st)) →
        selected (activePropertyId (session st)) = true →
        documents (upload st') = documents (upload st) ∧
        (loadDocuments result st).1 = []) ∧
  session st' =
    (if bool_decide (is_Some (currentUser (session st))) &&
        selected (activePropertyId (session st)) && unauthorized result
     then {| apiBase := apiBase (session st);
             selectedLanguage := selectedLanguage (session st);
             currentUser := None; properties := []; activePropertyId := None |}
     else session st).
Proof.
  unfold loadDocuments, exec, mbind, Handler_bind, get_state.
  destruct (bool_decide (is_Some (currentUser (session st)))) eqn:Huser;
    destruct (selected (activePropertyId (session st))) eqn:Hsel; simpl.
  2-4: split_and!; [done|intros; try done|done].
  2: by apply bool_decide_eq_false in Huser.
  destruct result as [docs|e]; simpl.
  - split_and!; [|done..]. intros id s Hs.
    by rewrite defaultStatuses_lookup, Hs.
  - destruct e as [a|name message|name message]; simpl; [|done..].
    by destruct (bool_decide (ApiError.status a = Some 401)).
Qed.

End handler_facts.

Lemma retryChat_repeats_witness :
  ∃ u1 a1 u2 a2,
    chatHistory (chat (exec (retryChat (H := asciiRuntime) (Fulfilled (Some sampleReply)))
                         (exec (askChat (H := asciiRuntime) " Hallo "
                                  (Rejected Examples.offline))
                            (startup (H := asciiRuntime) Examples.returningUser).1))) =
      [u1; a1; u2; a2] ∧
    ChatMessage.text u1 = "Hallo" ∧ ChatMessage.text u2 = "Hallo".
Proof.
  destruct (retryChat_repeats (H := asciiRuntime) " Hallo "
              (Rejected Examples.offline) (Fulfilled (Some sampleReply))
              (startup (H := asciiRuntime) Examples.returningUser).1)
    as [(u1 & a1 & u2 & a2 & Hhist & _ & Hu1 & _ & Hu2 & _) _].
  - reflexivity.
  - vm_compute. discriminate.
  - vm_compute. reflexivity.
  - discriminate.
  - discriminate.
  - exists u1, a1, u2, a2. split_and!; [exact Hhist|exact Hu1|exact Hu2].
Defined.

Lemma addToast_expires_witness :
  toasts (exec (expireToast "id-1")
            (exec (setToasts (λ prev, prev ++ [sampleToast]))
               (exec (addToast (H := asciiRuntime) toast_success "Eingeloggt" None)
                  (exec (addToast (H := asciiRuntime) toast_error
                           "Upload fehlgeschlagen" None)
                     (initialState (H := asciiRuntime) ∅))))) =
  toasts (exec (addToast (H := asciiRuntime) toast_error "Upload fehlgeschlagen" None)
            (initialState (H := asciiRuntime) ∅)) ++ [sampleToast].
Proof.
  apply (addToast_expires (H := asciiRuntime) toast_success "Eingeloggt" None
           [sampleToast]
           (exec (addToast (H := asciiRuntime) toast_error "Upload fehlgeschlagen" None)
              (initialState (H := asciiRuntime) ∅))).
  vm_compute. intros Hin.
  repeat (apply elem_of_cons in Hin as [Hin|Hin]; [discriminate|]).
  by apply elem_of_nil in Hin.
Defined.

(** ** More of the mirror in [localStorage] *)

Lemma pretty_N_go_nonempty (x : N) (s : string) : s ≠ "" → pretty_N_go x s ≠ "".
Proof.
  revert s. induction (N.lt_wf_0 x) as [x _ IH]; intros s Hs.
  assert (x = 0 ∨ 0 < x)%N as [->|?] by lia.
  - by rewrite pretty_N_go_0.
  - rewrite pretty_N_go_step by done. apply IH; [by apply N.div_lt|done].
Qed.

Lemma pretty_Z_nonempty (x : Z) : pretty x ≠ "".
Proof.
  assert (∀ p : positive, pretty p ≠ "") as Hpos.
  { intros p. unfold pretty, pretty_positive, pretty, pretty_N.
    rewrite decide_False by done. rewrite pretty_N_go_step by lia.
    by apply pretty_N_go_nonempty. }
  unfold pretty, pretty_Z. destruct x as [|p|p]; [done|apply Hpos|done].
Qed.

Lemma string_app_cons (a : ascii) (s t : string) :
  String a s +:+ t = String a (s +:+ t).
Proof. reflexivity. Qed.

Lemma string_app_nil_r (s : string) : s +:+ "" = s.
Proof. induction s as [|a s IH]; [done|]. by rewrite string_app_cons, IH. Qed.

Lemma string_app_assoc (s t u : string) : (s +:+ t) +:+ u = s +:+ (t +:+ u).
Proof. induction s as [|a s IH]; [done|]. by rewrite !string_app_cons, IH. Qed.

Lemma rev_app_rev_app (s t u : string) :
  String.rev_app (String.rev_app s t) u = String.rev_app t (s +:+ u).
Proof.
  revert t u. induction s as [|a s IH]; intros t u; simpl; [done|].
  by rewrite IH.
Qed.

Lemma rev_app_append (s t : string) :
  String.rev_app s t = String.rev s +:+ t.
Proof.
  unfold String.rev. revert t. induction s as [|a s IH]; intros t; simpl; [done|].
  by rewrite (IH (String a "")), IH, string_app_assoc.
Qed.

Lemma rev_involutive (s : string) : String.rev (String.rev s) = s.
Proof.
  unfold String.rev. rewrite rev_app_rev_app. simpl. apply string_app_nil_r.
Qed.

Lemma rev_append (s t : string) :
  String.rev (s +:+ t) = String.rev t +:+ String.rev s.
Proof.
  assert (∀ u, String.rev_app (s +:+ t) u = String.rev_app t (String.rev_app s u))
    as Happ.
  { induction s as [|a s IH]; intros u; simpl; [done|]. by rewrite IH. }
  unfold String.rev at 1. by rewrite Happ, rev_app_append.
Qed.

Lemma slashes_snoc (n : nat) : slashes n +:+ "/" = slashes (S n).
Proof.
  induction n as [|n IH]; [done|].
  change (slashes (S n)) with (String "/" (slashes n)) at 1.
  by rewrite string_app_cons, IH.
Qed.

Lemma rev_slashes (n : nat) : String.rev (slashes n) = slashes n.
Proof.
  induction n as [|n IH]; [done|].
  change (slashes (S n)) with ("/" +:+ slashes n) at 1.
  by rewrite rev_append, IH, slashes_snoc.
Qed.

Lemma dropSlashes_prefix (r : string) : ∃ n, r = slashes n +:+ dropSlashes r.
Proof.
  induction r as [|a r [n IH]]; [by exists O|].
  destruct (decide (a = "/"%char)) as [->|Hne].
  - exists (S n). change (dropSlashes (String "/" r)) with (dropSlashes r).
    change (slashes (S n)) with (String "/" (slashes n)).
    by rewrite string_app_cons, <- IH.
  - exists O. by destruct a as [[] [] [] [] [] [] [] []].
Qed.

Lemma dropSlashes_head (r t : string) : dropSlashes r ≠ String "/" t.
Proof.
  induction r as [|a r IH]; [done|].
  destruct (decide (a = "/"%char)) as [->|Hne]; [done|].
  destruct a as [[] [] [] [] [] [] [] []]; simpl; congruence.
Qed.

Lemma dropSlashes_idemp (r : string) : dropSlashes (dropSlashes r) = dropSlashes r.
Proof.
  pose proof (dropSlashes_head r) as Hhead.
  destruct (dropSlashes r) as [|a d]; [done|].
  destruct (decide (a = "/"%char)) as [->|Hne]; [by destruct (Hhead d)|].
  by destruct a as [[] [] [] [] [] [] [] []].
Qed.

Section storage_more.
Context `{!Runtime}.

(** X20: [replace(/\/+$/, "")] removes exactly the slashes at the end: the
    text is the result followed by slashes only, the result does not end with
    a slash, and stripping twice is stripping once.  Hence the API base URL of
    the first render never ends with a slash, whatever the storage holds. *)
Theorem stripTrailingSlashes_spec (s : string) :
  (∃ n, s = stripTrailingSlashes s +:+ slashes n) ∧
  (∀ t, stripTrailingSlashes s ≠ t +:+ "/") ∧
  stripTrailingSlashes (stripTrailingSlashes s) = stripTrailingSlashes s ∧
  (∀ ls t, apiBase (session (initialState ls)) ≠ t +:+ "/").
Proof.
  assert (∀ s t, stripTrailingSlashes s ≠ t +:+ "/") as Hend.
  { intros s' t Heq. unfold stripTrailingSlashes in Heq.
    apply (f_equal String.rev) in Heq.
    rewrite rev_involutive, rev_append in Heq.
    by apply dropSlashes_head in Heq. }
  split_and!.
  - destruct (dropSlashes_prefix (String.rev s)) as [n Hn]. exists n.
    unfold stripTrailingSlashes.
    rewrite <- (rev_slashes n), <- rev_append, <- Hn. by rewrite rev_involutive.
  - apply Hend.
  - unfold stripTrailingSlashes. by rewrite rev_involutive, dropSlashes_idemp.
  - intros ls t. apply Hend.
Qed.

Lemma runs_cons (mounting : bool) (changed : list Dep) (d : Dep) (deps : list Dep) :
  runs mounting changed deps = true → runs mounting changed (d :: deps) = true.
Proof.
  unfold runs. simpl. rewrite !orb_true_iff. intuition.
Qed.

(** X21: whenever the selected property changes, and when the component
    mounts, the history on screen is stored under the key of the newly
    selected property before the stored history is read, so that the history
    read is the one that was on screen, as the storage gives it back: what the
    storage held for that property is overwritten unread. *)
Theorem commit_replaces_history (mounting : bool) (changed : list Dep)
    (st : AppState) (ls : gmap string string) (id : Z) :
  runs mounting changed [DepActiveProperty] = true →
  activePropertyId (session st) = Some id → id ≠ 0 →
  (commit mounting changed st ls).2 !! chatHistoryKey id =
    Some (JSON_stringify_history (chatHistory (chat st))) ∧
  chatHistory (chat (commit mounting changed st ls).1) =
    (if String.eqb (JSON_stringify_history (chatHistory (chat st))) "" then []
     else default [] (JSON_parse_history
                        (JSON_stringify_history (chatHistory (chat st))))).
Proof.
  intros Hruns Hid Hnz.
  pose proof (commit_lookup_history mounting changed st ls id
                (runs_cons _ _ _ _ Hruns) Hid Hnz) as Hsaved.
  split; [done|].
  unfold commit in *. cbn [fst snd] in *. rewrite Hruns in Hsaved |- *.
  unfold when at 1.
  unfold exec, setChatHistory, update_chat. cbn [fst snd chat chatHistory].
  unfold effect_loadHistory. rewrite Hid. simpl selected.
  destruct (Z.eqb_spec id 0); [done|]. simpl negb. cbv iota.
  by rewrite Hsaved.
Qed.

(** X22: what a commit stores is what the next start reads: after the
    mounting commit, the initialisers applied to the storage give back the
    language and the selected property of the state, and its API base URL
    without trailing slashes, or the default URL if it is empty.  This needs
    [Number] to read back the decimal text of the selected id. *)
Theorem storage_reload (changed : list Dep) (st : AppState) (ls : gmap string string) :
  (∀ id, activePropertyId (session st) = Some id →
         Number_finite (pretty id) = Some id) →
  init_selectedLanguage (commit true changed st ls).2 = selectedLanguage (session st) ∧
  init_activePropertyId (commit true changed st ls).2 = activePropertyId (session st) ∧
  init_apiBase (commit true changed st ls).2 =
    stripTrailingSlashes (or_else (apiBase (session st)) DEFAULT_API_BASE).
Proof.
  intros Hnumber. split_and!.
  - unfold init_selectedLanguage. rewrite commit_lookup_language by done.
    by destruct (selectedLanguage (session st)).
  - unfold init_activePropertyId. rewrite commit_lookup_activeProperty by done.
    destruct (activePropertyId (session st)) as [id|] eqn:Hid; simpl; [|done].
    destruct (String.eqb_spec (pretty id) "") as [Hempty|_].
    + by apply pretty_Z_nonempty in Hempty.
    + by apply Hnumber.
  - unfold init_apiBase. by rewrite commit_lookup_base by done.
Qed.

End storage_more.

Lemma commit_replaces_history_witness :
  (commit (H := asciiRuntime) false [DepActiveProperty]
     (exec (setActivePropertyId (Some 7))
        (exec (setChatHistory (λ _, [Examples.greeting]))
           (initialState (H := asciiRuntime) ∅)))
     ∅).2
    !! chatHistoryKey 7 =
  Some (JSON_stringify_history (Runtime := asciiRuntime)
          (chatHistory (chat
             (exec (setActivePropertyId (Some 7))
                (exec (setChatHistory (λ _, [Examples.greeting]))
                   (initialState (H := asciiRuntime) ∅)))))).
Proof.
  exact (proj1 (commit_replaces_history (H := asciiRuntime) false [DepActiveProperty]
                  (exec (setActivePropertyId (Some 7))
                     (exec (setChatHistory (λ _, [Examples.greeting]))
                        (initialState (H := asciiRuntime) ∅)))
                  ∅ 7 eq_refl eq_refl ltac:(discriminate))).
Defined.

Lemma storage_reload_witness :
  init_activePropertyId (H := asciiRuntime)
    (commit (H := asciiRuntime) true []
       (exec (setActivePropertyId (Some 7))
          (initialState (H := asciiRuntime) ∅)) ∅).2 =
  activePropertyId
    (session (exec (setActivePropertyId (Some 7)) (initialState (H := asciiRuntime) ∅))).
Proof.
  refine (proj1 (proj2 (storage_reload (H := asciiRuntime) []
            (exec (setActivePropertyId (Some 7)) (initialState (H := asciiRuntime) ∅))
            ∅ _))).
  intros id Hid. injection Hid as <-. vm_compute. reflexivity.
Defined.

(** ** Session and properties *)

Section property_facts.
Context `{!Runtime}.

Lemma lists_elem_of (list : list PropertyItem.t) (active : option Z) :
  lists list active = true ↔
  ∃ id, active = Some id ∧ id ∈ PropertyItem.id <$> list.
Proof.
  unfold lists. rewrite existsb_exists. split.
  - intros (p & Hp%list_elem_of_In & Heq%bool_decide_eq_true).
    exists (PropertyItem.id p). split; [done|]. apply list_elem_of_fmap. by exists p.
  - intros (id & -> & (p & -> & Hp)%list_elem_of_fmap).
    exists p. split; [by apply list_elem_of_In|]. by apply bool_decide_eq_true.
Qed.

Lemma first_listed (list : list PropertyItem.t) (id : Z) :
  PropertyItem.id <$> list !! 0%nat = Some id → id ∈ PropertyItem.id <$> list.
Proof.
  destruct list as [|p list]; [done|]. intros [= <-]. rewrite fmap_cons. left.
Qed.

(** X23: after [loadProperties] the selected property is one of the loaded
    properties, or none is selected: a selection that is still in the list is
    kept, any other is replaced by the first property of the list, and a
    request that fails clears both the list and the selection. *)
Theorem loadProperties_selection
    (result : outcome (option (list PropertyItem.t)) thrown) (st : AppState) :
  let st' := exec (loadProperties result) st in
  let loaded := match result with
                | Fulfilled data => default [] data
                | Rejected _ => []
                end in
  properties (session st') = loaded ∧
  (loadProperties result st).1 = loaded ∧
  activePropertyId (session st') =
    (if lists loaded (activePropertyId (session st))
     then activePropertyId (session st)
     else PropertyItem.id <$> loaded !! 0%nat) ∧
  activeListed st'.
Proof.
  unfold activeListed, loadProperties, exec, mbind, Handler_bind, get_state.
  destruct result as [data|e]; simpl; [|done].
  destruct (lists (default [] data) (activePropertyId (session st))) eqn:Hlists; simpl.
  - split_and!; [done..|].
    apply lists_elem_of in Hlists as (id & -> & Hid). done.
  - split_and!; [done..|].
    destruct (PropertyItem.id <$> default [] data !! 0%nat) as [id|] eqn:Hfirst; [|done].
    by apply first_listed.
Qed.

Lemma boot_plain (user : AuthUser.t)
    (props : outcome (option (list PropertyItem.t)) thrown) (st : AppState) :
  activePropertyId (session st) ≠ Some 0 →
  exec (boot (Fulfilled (Some user)) props) st =
  exec (loadProperties props) (exec (loadMe (Fulfilled (Some user))) st).
Proof.
  intros Hzero.
  unfold boot, loadMe, loadProperties, exec, mbind, Handler_bind, get_state.
  destruct props as [data|e]; simpl;
    [|unfold lists; simpl; by rewrite andb_false_r].
  destruct (activePropertyId (session st)) as [id|] eqn:Hactive;
    destruct (lists (default [] data) _) eqn:Hlists; simpl;
    rewrite ?Hlists; simpl.
  - destruct (Z.eqb_spec id 0) as [->|_]; [done|]. simpl.
    by rewrite (bool_decide_eq_true_2 (Some id = Some id)), ?andb_false_r.
  - rewrite ?andb_false_r.
    destruct (PropertyItem.id <$> default [] data !! 0%nat) as [first|] eqn:Hfirst.
    + rewrite bool_decide_eq_true_2 by eauto. simpl.
      by destruct (bool_decide (Some first = Some id)).
    + by rewrite bool_decide_eq_false_2 by (by intros [? ?]).
  - by apply lists_elem_of in Hlists as (id & [=] & _).
  - destruct (PropertyItem.id <$> default [] data !! 0%nat) as [first|] eqn:Hfirst.
    + by rewrite bool_decide_eq_true_2 by eauto.
    + by rewrite bool_decide_eq_false_2 by (by intros [? ?]).
Qed.

Lemma boot_active (user : AuthUser.t)
    (props : outcome (option (list PropertyItem.t)) thrown) (st : AppState) :
  activePropertyId (session (exec (boot (Fulfilled (Some user)) props) st)) =
    (if selected (activePropertyId (session st)) &&
        lists (match props with
               | Fulfilled data => default [] data
               | Rejected _ => []
               end) (activePropertyId (session st))
     then activePropertyId (session st)
     else PropertyItem.id <$>
          match props with
          | Fulfilled data => default [] data
          | Rejected _ => []
          end !! 0%nat) ∧
  properties (session (exec (boot (Fulfilled (Some user)) props) st)) =
    match props with
    | Fulfilled data => default [] data
    | Rejected _ => []
    end.
Proof.
  unfold boot, loadMe, loadProperties, exec, mbind, Handler_bind, get_state.
  destruct props as [data|e]; simpl;
    [|unfold lists; simpl; by rewrite andb_false_r].
  destruct (activePropertyId (session st)) as [id|] eqn:Hactive;
    destruct (lists (default [] data) _) eqn:Hlists; simpl;
    rewrite ?Hlists; simpl.
  - destruct (Z.eqb_spec id 0) as [->|_]; simpl.
    + destruct (PropertyItem.id <$> default [] data !! 0%nat) as [first|] eqn:Hfirst;
        simpl.
      * case_bool_decide as Hsame; simpl; [|done]. by rewrite Hsame.
      * apply lists_elem_of in Hlists as (id & [= <-] & Hin).
        destruct (default [] data); [by apply elem_of_nil in Hin|done].
    + by rewrite (bool_decide_eq_true_2 (Some id = Some id)), ?andb_false_r.
  - rewrite ?andb_false_r.
    destruct (PropertyItem.id <$> default [] data !! 0%nat) as [first|] eqn:Hfirst.
    + rewrite bool_decide_eq_true_2 by eauto. simpl.
      by destruct (bool_decide (Some first = Some id)).
    + by rewrite bool_decide_eq_false_2 by (by intros [? ?]).
  - by apply lists_elem_of in Hlists as (id & [=] & _).
  - destruct (PropertyItem.id <$> default [] data !! 0%nat) as [first|] eqn:Hfirst.
    + by rewrite bool_decide_eq_true_2 by eauto.
    + by rewrite bool_decide_eq_false_2 by (by intros [? ?]).
Qed.

(** X24: once the user is loaded, the [boot] effect leaves a selection that
    is one of the loaded properties, or none: the selection of the render
    that started it if that is not 0 and still in the list, and the first
    property of the list otherwise.  Unless that selection was the id 0, its
    own choice repeats the one that [loadProperties] has just made; the id 0
    it treats as no selection, whereas [loadProperties] keeps a listed 0.
    If the user cannot be loaded, nothing but the user is reset. *)
Theorem boot_selection
    (user : AuthUser.t) (props : outcome (option (list PropertyItem.t)) thrown)
    (st : AppState) :
  activePropertyId (session (exec (boot (Fulfilled (Some user)) props) st)) =
    (if selected (activePropertyId (session st)) &&
        lists (match props with
               | Fulfilled data => default [] data
               | Rejected _ => []
               end) (activePropertyId (session st))
     then activePropertyId (session st)
     else PropertyItem.id <$>
          match props with
          | Fulfilled data => default [] data
          | Rejected _ => []
          end !! 0%nat) ∧
  activeListed (exec (boot (Fulfilled (Some user)) props) st) ∧
  (activePropertyId (session st) ≠ Some 0 →
   exec (boot (Fulfilled (Some user)) props) st =
     exec (loadProperties props) (exec (loadMe (Fulfilled (Some user))) st)) ∧
  (activePropertyId (session st) = Some 0 →
   activePropertyId (session (exec (boot (Fulfilled (Some user)) props) st)) =
     PropertyItem.id <$>
     properties (session (exec (boot (Fulfilled (Some user)) props) st)) !! 0%nat) ∧
  (∀ e, exec (boot (Rejected e) props) st = exec (setCurrentUser None) st) ∧
  exec (boot (Fulfilled None) props) st = exec (setCurrentUser None) st.
Proof.
  destruct (boot_active user props st) as [Hactive Hprops].
  split_and!; [done| |apply boot_plain| |done|done].
  - unfold activeListed. rewrite Hactive, Hprops.
    destruct (selected _ && lists _ _) eqn:Hkept.
    + apply andb_true_iff in Hkept as [_ (id & -> & Hid)%lists_elem_of]. done.
    + destruct (PropertyItem.id <$> _ !! 0%nat) as [id|] eqn:Hfirst; [|done].
      by apply first_listed.
  - intros Hzero. rewrite Hactive, Hprops, Hzero. done.
Qed.


End property_facts.

Lemma boot_selection_witness :
  activePropertyId
    (session (exec (boot (H := asciiRuntime) (Fulfilled (Some Examples.tenant))
                      (Fulfilled (Some [sampleProperty; unnumbered])))
                (exec (setActivePropertyId (Some 0))
                   (initialState (H := asciiRuntime) ∅)))) = Some 5 ∧
  activePropertyId
    (session (exec (loadProperties (H := asciiRuntime)
                      (Fulfilled (Some [sampleProperty; unnumbered])))
                (exec (loadMe (Fulfilled (Some Examples.tenant)))
                   (exec (setActivePropertyId (Some 0))
                      (initialState (H := asciiRuntime) ∅))))) = Some 0.
Proof.
  split; [|reflexivity].
  exact (proj1 (boot_selection (H := asciiRuntime) Examples.tenant
                  (Fulfilled (Some [sampleProperty; unnumbered]))
                  (exec (setActivePropertyId (Some 0))
                     (initialState (H := asciiRuntime) ∅)))).
Defined.

(** ** Sources of an answer *)

Lemma documentsById_fold (docs : list DocumentItem.t) (m : gmap Z DocumentItem.t) (id : Z) :
  fold_left (λ m doc, <[DocumentItem.document_id doc := doc]> m) docs m !! id =
  match last (filter (λ d, DocumentItem.document_id d = id) docs) with
  | Some doc => Some doc
  | None => m !! id
  end.
Proof.
  revert m. induction docs as [|doc docs IH]; intros m; [done|].
  cbn [fold_left]. rewrite IH, filter_cons.
  destruct (decide (DocumentItem.document_id doc = id)) as [<-|Hne].
  - rewrite lookup_insert_eq, last_cons. by destruct (last _).
  - by rewrite lookup_insert_ne.
Qed.

(** X26: the label of a source in the chat card is the file name of the last
    loaded document with the id of the source, and [Dokument] with that id
    when no such document is loaded or its file name is empty; it is never
    empty. *)
Theorem sourceLabel_spec (documents : list DocumentItem.t) (s : Source.t) :
  sourceLabel (documentsById documents) s =
    match last (filter (λ d, DocumentItem.document_id d = Source.document_id s)
                  documents) with
    | Some doc => or_else (DocumentItem.filename doc)
                    ("Dokument " +:+ pretty (Source.document_id s))
    | None => "Dokument " +:+ pretty (Source.document_id s)
    end ∧
  sourceLabel (documentsById documents) s ≠ "".
Proof.
  unfold sourceLabel, documentsById. rewrite documentsById_fold, lookup_empty.
  split.
  - by destruct (last _).
  - destruct (last _) as [doc|]; simpl; [|done].
    unfold or_else. by destruct (String.eqb_spec (DocumentItem.filename doc) "").
Qed.

Section snippet_facts.
Context `{!Runtime}.

(** X27: a snippet that was loaded is shown where the chat card shows
    sources: after [loadSourceSnippet] resolves with a non-empty snippet, a
    message with the given id has the same source rows as before, and the
    rows whose source has the key of the given source show the snippet, the
    other rows what they showed before; so a message of the assistant with
    that id that cites the source shows the snippet in its row, and a message
    without source rows shows nothing.  Id, role, text and sources of every
    message, the messages with another id and the toasts are as before.  If
    the request fails, the history is unchanged; if the reply is [null], the
    history is unchanged and the render throws exactly when a message has the
    given id. *)
Theorem loadSourceSnippet_shown
    (messageId : string) (source : Source.t) (snippet : string) (st : AppState) :
  snippet ≠ "" →
  let st' := exec (loadSourceSnippet messageId source
                     (Fulfilled (Some (Some snippet)))) st in
  (∀ i msg, chatHistory (chat st) !! i = Some msg →
     ∃ msg', chatHistory (chat st') !! i = Some msg' ∧
       ChatMessage.id msg' = ChatMessage.id msg ∧
       ChatMessage.role msg' = ChatMessage.role msg ∧
       ChatMessage.text msg' = ChatMessage.text msg ∧
       ChatMessage.sources msg' = ChatMessage.sources msg ∧
       (ChatMessage.id msg = messageId →
          shownSnippets msg' =
            (λ s, (s, if bool_decide (sourceKey s = sourceKey source)
                      then Some snippet else rowSnippet msg s)) <$> sourceRows msg) ∧
       (ChatMessage.id msg = messageId →
          ChatMessage.role msg = role_assistant →
          ∀ sources, ChatMessage.sources msg = Some sources → source ∈ sources →
                     (source, Some snippet) ∈ shownSnippets msg') ∧
       (ChatMessage.id msg ≠ messageId → msg' = msg)) ∧
  length (chatHistory (chat st')) = length (chatHistory (chat st)) ∧
  toasts st' = toasts st ∧
  (∀ e, chatHistory (chat (exec (loadSourceSnippet messageId source (Rejected e)) st)) =
        chatHistory (chat st)) ∧
  chatHistory (chat (exec (loadSourceSnippet messageId source (Fulfilled None)) st)) =
    chatHistory (chat st) ∧
  ((loadSourceSnippet messageId source (Fulfilled None) st).1 = Renders ↔
   ∀ msg, msg ∈ chatHistory (chat st) → ChatMessage.id msg ≠ messageId).
Proof.
  intros Hsnippet st'. subst st'. unfold loadSourceSnippet, exec. simpl.
  unfold or_else. destruct (String.eqb_spec snippet ""); [done|].
  assert (∀ msg, ChatMessage.id msg = messageId →
            shownSnippets (addSnippet messageId source snippet msg) =
              (λ s, (s, if bool_decide (sourceKey s = sourceKey source)
                        then Some snippet else rowSnippet msg s)) <$> sourceRows msg)
    as Hrows.
  { intros msg Hid. unfold shownSnippets, addSnippet.
    rewrite bool_decide_eq_false_2 by (by intros Hne; apply Hne).
    unfold sourceRows at 1. cbn [ChatMessage.role ChatMessage.sources].
    fold (sourceRows msg). apply list_fmap_ext. intros _ s _. f_equal.
    unfold rowSnippet. cbn [ChatMessage.sourceDetails].
    case_bool_decide as Hkey.
    - rewrite Hkey, lookup_insert_eq. by destruct (String.eqb_spec snippet "").
    - rewrite lookup_insert_ne by done.
      destruct (ChatMessage.sourceDetails msg); cbn [default]; [done|].
      by rewrite lookup_empty. }
  split_and!.
  - intros i msg Hmsg. exists (addSnippet messageId source snippet msg).
    rewrite list_lookup_fmap, Hmsg. split; [done|].
    split_and!.
    + unfold addSnippet. by case_bool_decide.
    + unfold addSnippet. by case_bool_decide.
    + unfold addSnippet. by case_bool_decide.
    + unfold addSnippet. by case_bool_decide.
    + apply Hrows.
    + intros Hid Hrole sources Hsources Hin. rewrite Hrows by done.
      apply list_elem_of_fmap. exists source. split.
      * by rewrite bool_decide_eq_true_2.
      * unfold sourceRows. by rewrite Hrole, Hsources.
    + intros Hne. unfold addSnippet. by rewrite bool_decide_eq_true_2.
  - by rewrite length_fmap.
  - done.
  - done.
  - unfold mbind, Handler_bind, get_state. by destruct (existsb _ _).
  - unfold mbind, Handler_bind, get_state.
    destruct (existsb _ _) eqn:Hsome; simpl.
    + split; [done|]. intros Hall.
      apply existsb_exists in Hsome as (msg & Hmsg%list_elem_of_In & Hid%String.eqb_eq).
      by destruct (Hall msg Hmsg).
    + split; [|done]. intros _ msg Hmsg Hid.
      assert (existsb (λ msg, String.eqb (ChatMessage.id msg) messageId)
                (chatHistory (chat st)) = true) as Htrue; [|congruence].
      apply existsb_exists. exists msg. split; [by apply list_elem_of_In|].
      by apply String.eqb_eq.
Qed.

End snippet_facts.

Lemma loadSourceSnippet_shown_witness :
  ∃ msg',
    chatHistory (chat (exec (loadSourceSnippet (H := asciiRuntime) "m2" sampleSource
                               (Fulfilled (Some (Some "Hausgeld 2026"))))
                         (exec (setChatHistory (λ _, [Examples.greeting; sampleAnswer]))
                            (initialState (H := asciiRuntime) ∅)))) !! 1%nat =
      Some msg' ∧
    (sampleSource, Some "Hausgeld 2026") ∈ shownSnippets msg'.
Proof.
  destruct (proj1 (loadSourceSnippet_shown (H := asciiRuntime) "m2" sampleSource
                     "Hausgeld 2026"
                     (exec (setChatHistory (λ _, [Examples.greeting; sampleAnswer]))
                        (initialState (H := asciiRuntime) ∅))
                     ltac:(discriminate))
              1%nat sampleAnswer eq_refl)
    as (msg' & Hmsg & _ & _ & _ & _ & _ & Hshown & _).
  exists msg'. split; [exact Hmsg|].
  apply (Hshown eq_refl eq_refl [sampleSource] eq_refl). left.
Defined.

(** ** The timeline handlers *)

Section timeline_handler_facts.
Context `{!Runtime}.


(** X29: when the rebuild that follows an upload fails, the timeline card is
    left in the loading state, with the message of a running update, and only
    a warning toast tells of the failure; the same failure of a rebuild that
    the user started ends in the error state. *)
Theorem rebuildTimeline_failure (e : thrown) (tl : TimelineUi) (st : AppState) :
  selected (activePropertyId (session st)) = true →
  documents (upload st) ≠ [] →
  timelineState (rebuildTimeline true (Rejected e) tl st).1.2 = ui_loading ∧
  timelineMessage (rebuildTimeline true (Rejected e) tl st).1.2 =
    "Timeline wird aktualisiert..." ∧
  (∃ t, toasts (rebuildTimeline true (Rejected e) tl st).2 = toasts st ++ [t] ∧
        Toast.type t = toast_warning) ∧
  timelineState (rebuildTimeline false (Rejected e) tl st).1.2 = ui_error ∧
  timelineDetails (rebuildTimeline false (Rejected e) tl st).1.2 =
    normalizeApiError e "Unbekannter Fehler".
Proof.
  intros Hsel Hdocs.
  unfold rebuildTimeline, mbind, Handler_bind, get_state. rewrite Hsel. simpl.
  destruct (documents (upload st)) as [|doc docs]; [done|]. simpl.
  split_and!; [done..|by eexists|done|done].
Qed.

(** X30: what [retryTimeline] repeats is decided by the last handler that got
    past its guards: an extraction makes it extract again, a load from the
    store or a rebuild makes it rebuild, and a handler that stops at a guard
    leaves the choice as it was; at the start it rebuilds. *)
Theorem retryTimeline_follows (tl : TimelineUi) (st : AppState) :
  (∀ result,
     lastTimelineAction (extractTimeline result tl st).1 =
       if String.eqb (trim (timelineInput tl)) "" then lastTimelineAction tl
       else Some action_raw) ∧
  (∀ validateHasDocuments result,
     lastTimelineAction (loadTimelineFromStore validateHasDocuments result tl st).1 =
       if selected (activePropertyId (session st)) &&
          negb (validateHasDocuments && (length (documents (upload st)) =? 0)%nat)
       then Some action_load else lastTimelineAction tl) ∧
  (∀ fromUpload result,
     lastTimelineAction (rebuildTimeline fromUpload result tl st).1.2 =
       if selected (activePropertyId (session st)) &&
          negb (length (documents (upload st)) =? 0)%nat
       then Some action_load else lastTimelineAction tl) ∧
  (∀ extracted rebuilt,
     retryTimeline extracted rebuilt tl st =
       if bool_decide (lastTimelineAction tl = Some action_raw)
       then extractTimeline extracted tl st
       else ((rebuildTimeline false rebuilt tl st).1.2,
             (rebuildTimeline false rebuilt tl st).2)) ∧
  (∀ extracted rebuilt,
     retryTimeline extracted rebuilt initialTimeline st =
       ((rebuildTimeline false rebuilt initialTimeline st).1.2,
        (rebuildTimeline false rebuilt initialTimeline st).2)).
Proof.
  assert (∀ extracted rebuilt tl0,
            lastTimelineAction tl0 ≠ Some action_raw →
            retryTimeline extracted rebuilt tl0 st =
              ((rebuildTimeline false rebuilt tl0 st).1.2,
               (rebuildTimeline false rebuilt tl0 st).2)) as Hrebuild.
  { intros extracted rebuilt tl0 Hlast.
    unfold retryTimeline, mbind, Handler_bind.
    destruct (lastTimelineAction tl0) as [[]|]; [done|..];
      by destruct (rebuildTimeline false rebuilt tl0 st) as [[r tl'] st']. }
  split_and!.
  - intros result. unfold extractTimeline, extractTimeline_catch, mbind, Handler_bind.
    destruct (String.eqb (trim (timelineInput tl)) ""); simpl; [done|].
    by destruct result as [[data|]|e].
  - intros validateHasDocuments result.
    unfold loadTimelineFromStore, mbind, Handler_bind, get_state.
    destruct (selected (activePropertyId (session st))); simpl; [|done].
    destruct (validateHasDocuments && (length (documents (upload st)) =? 0)%nat);
      simpl; [done|].
    by destruct result.
  - intros fromUpload result.
    unfold rebuildTimeline, rebuildTimeline_catch, mbind, Handler_bind, get_state.
    destruct (selected (activePropertyId (session st))); simpl; [|done].
    destruct (length (documents (upload st)) =? 0)%nat; simpl; [done|].
    destruct result as [[[items_count|] list]|e]; simpl; by destruct fromUpload.
  - intros extracted rebuilt. case_bool_decide as Hlast.
    + unfold retryTimeline. by rewrite Hlast.
    + by apply Hrebuild.
  - intros extracted rebuilt. by apply Hrebuild.
Qed.

End timeline_handler_facts.


Lemma rebuildTimeline_failure_witness :
  timelineState
    (rebuildTimeline (H := asciiRuntime) true (Rejected Examples.offline) initialTimeline
       (exec (setDocuments [Examples.statement])
          (initialState (H := asciiRuntime) Examples.returningUser))).1.2 = ui_loading.
Proof.
  refine (proj1 (rebuildTimeline_failure (H := asciiRuntime) Examples.offline
                   initialTimeline
                   (exec (setDocuments [Examples.statement])
                      (initialState (H := asciiRuntime) Examples.returningUser)) _ _)).
  - vm_compute. reflexivity.
  - discriminate.
Defined.
